(** * Source events of gatsby: the serialized handler queue

    A shallow embedding of [packages/gatsby/src/redux/events/index.ts]
    together with the part of the JavaScript run time the file relies on:
    promises, the loop of pending callbacks, [AsyncLocalStorage] and the
    [fastq] work queue.  The module keeps two singletons ([eventSystemQueue]
    and [asyncStorage]); every function of the source becomes a function on
    an explicit [World] that holds them together with the run-time state. *)

From stdpp Require Import base list strings numbers.

Local Open Scope string_scope.
Local Open Scope list_scope.

(** ** JavaScript values, errors and completions *)

Inductive JsVal :=
| JUndefined
| JNull
| JBool (b : bool)
| JNum (n : Z)
| JStr (s : string)
| JObject (props : Props)                     (* a plain object *)
with Props :=                                 (* its own properties *)
| PNil
| PCons (key : string) (v : JsVal) (rest : Props).

(** Functions are no values of the model.  The one place where this module
    calls a value is [result.then(...)] in the worker; a result whose [then]
    can be called is a promise, which is not a [JsVal] but a way for the
    code of a handler to stop (see [Result] below). *)

(** [!!v] *)
Definition truthy (v : JsVal) : bool :=
  match v with
  | JUndefined | JNull => false
  | JBool b => b
  | JNum n => negb (n =? 0)%Z
  | JStr s => negb (bool_decide (s = ""))
  | JObject _ => true
  end.

Fixpoint own_property (key : string) (props : Props) : option JsVal :=
  match props with
  | PNil => None
  | PCons k v rest => if decide (k = key) then Some v else own_property key rest
  end.

(** [v?.key]: undefined on null and undefined, on a primitive (whose
    prototype has no such property) and on an object without the property. *)
Definition get (key : string) (v : JsVal) : JsVal :=
  match v with
  | JObject props => default JUndefined (own_property key props)
  | _ => JUndefined
  end.

Inductive Error :=
| Err (msg : string)         (* new Error(msg) *)
| TypeErr (msg : string).    (* a TypeError raised by the engine *)

(** The outcome of evaluating a call: it returns or it throws. *)
Inductive Completion (A : Type) :=
| Normal (a : A)
| Abrupt (e : Error).
Arguments Normal {A} a.
Arguments Abrupt {A} e.

Definition PromiseId := nat.
Definition HandlerId := nat.

Inductive PState :=
| Pending
| Fulfilled (v : JsVal)
| Rejected (e : Error).

(** What a function hands back: a plain value or a promise. *)
Inductive RetVal :=
| RVal (v : JsVal)
| RPromise (p : PromiseId).

(** ** The data of the source file *)

(** [EventHandler["plugin"]] *)
Record Plugin := {
  plugin_id : string;
  plugin_name : string;
  plugin_options : list (string * JsVal)
}.

(** The second argument of a raw handler.  The four node actions belong to
    [./actions]; what the worker binds into them is kept: the plugin merged
    into [createNode], the namespace bound into [createNodeId], and the
    plugin options. *)
Record Actions := {
  createNode_plugin : Plugin;
  createNodeId_namespace : string;
  pluginOptions : list (string * JsVal)
}.

(** When the rest of a handler runs after an [await]: in a promise job of
    the same turn of the loop, or in a later turn (a timer, I/O). *)
Inductive Tick := Micro | Macro.

(** The code of a raw handler, as far as this module can observe it: what
    it returns or throws, where it suspends, and what it does meanwhile with
    the handler objects it can reach - call them, run events over them, or
    assign to their properties. *)
Inductive Code :=
| Return (v : JsVal)                              (* return v *)
| Throw (e : Error)                               (* throw e *)
| Invoke (h : HandlerId) (a : JsVal) (k : Code)   (* h(a); then k *)
| Emit (hs : list HandlerId) (name : string) (a : JsVal) (k : Code)
                                                  (* runEvent(hs, name, a); then k *)
| SetPlugin (h : HandlerId) (v : option Plugin) (k : Code)   (* h.plugin = v; then k *)
| SetType (h : HandlerId) (v : string) (k : Code)            (* h.type = v; then k *)
| Await (q : Tick) (k : Code)                     (* a suspension point; then k *)
| Never.                                          (* await of a promise that never settles *)

(** [EventHandlerArg]: the raw handler of a definition.  [is_async] tells an
    [async] function (always answering with a promise) from a plain one. *)
Record EventHandlerArg := {
  is_async : bool;
  body : JsVal -> Actions -> Code
}.

(** [ISourceEventArgs]; a field that the caller left out is [None]. *)
Record ISourceEventArgs := {
  def_type : option string;
  def_description : option string;
  def_meta : option (list (string * JsVal));
  def_handler : option EventHandlerArg
}.

(** A data property as [Object.defineProperty] creates it. *)
Record Property (A : Type) := {
  pd_value : A;
  pd_writable : bool;
  pd_enumerable : bool;
  pd_configurable : bool
}.
Arguments pd_value {A} _.
Arguments pd_writable {A} _.
Arguments pd_enumerable {A} _.
Arguments pd_configurable {A} _.

(** [Object.defineProperty(o, key, { value, writable })]: attributes left out
    of the descriptor default to [false]. *)
Definition defineProperty {A} (value : A) (writable : option bool) : Property A :=
  {| pd_value := value;
     pd_writable := default false writable;
     pd_enumerable := false;
     pd_configurable := false |}.

(** [EventHandler]: the function object [wrappedFunction] with the two
    variables its closure captured and its two own properties. *)
Record EventHandler := {
  closure_type : string;
  closure_handler : EventHandlerArg;
  prop_type : Property string;
  prop_plugin : Property (option Plugin)
}.

(** [ITask]; [parent] is what [getStore()] answered when the task was made,
    [None] when the caller was in no scope. *)
Record ITask := {
  task_type : string;
  task_handler : EventHandlerArg;
  task_args : JsVal;
  task_parent : option string;
  task_plugin : Plugin
}.

(** ** fastq

    The state of a [fastq] queue object.  [waiting] is its linked list from
    [queueHead] to [queueTail]; an entry holds the pushed value and the
    [done] callback.  The only callback this module ever passes is the one
    of [pushTaskToQueue], a closure over the [resolve] and [reject] of one
    promise, so an entry names that promise. *)
Record Entry := {
  value : ITask;
  callback : PromiseId
}.

Record Fastq := {
  concurrency : Z;
  running : Z;
  waiting : list Entry
}.

Definition fastq (concurrency : Z) : Fastq :=
  {| concurrency := concurrency; running := 0; waiting := [] |}.

(** ** The run time *)

(** Callbacks waiting for the loop. *)
Inductive Callback :=
| RunHandler (t : Entry)                 (* the function given to setImmediate *)
| ResumeHandler (t : Entry) (k : Code)   (* the rest of a handler after an await *)
| ThenCb (t : Entry) (res : JsVal).      (* res => cb(null, res), the handler's promise being fulfilled with res *)

(** A pending callback remembers the async context it was created in. *)
Record Job := {
  job_store : option string;
  job_run : Callback
}.

(** Observations, in the order they happen. *)
Inductive Event :=
| EvCall (h : HandlerId) (args : JsVal) (future : PromiseId)
    (* a wrapped handler was called and answered with [future] *)
| EvPush (p : PromiseId) (type : string) (parent : option string)
    (* queue.push received the task whose callback settles [p] *)
| EvWorker (p : PromiseId) (token : string)
    (* the queue handed the task to the worker, which made [token] *)
| EvBegin (p : PromiseId) (store : option string)
    (* the handler body starts; [store] is what getStore() answers there *)
| EvReturn (p : PromiseId) (v : JsVal)
    (* the handler returned the plain value [v] *)
| EvResolve (p : PromiseId) (v : JsVal)
    (* the promise the handler returned was fulfilled with [v] *)
| EvFail (p : PromiseId) (e : Error).
    (* the handler threw, or the promise it returned was rejected *)

Record World := {
  eventSystemQueue : option Fastq;     (* let eventSystemQueue: queue | null *)
  asyncStorage : option unit;          (* let asyncStorage: AsyncLocalStorage | null *)
  store : option string;               (* what asyncStorage.getStore() answers: the store of
                                          the running async context, None outside every scope *)
  sourceEvents : list EventHandler;    (* the handler objects made so far *)
  promises : list PState;
  microtasks : list Job;               (* promise reactions left by this module and by handlers *)
  macrotasks : list Job;               (* callbacks given to setImmediate, timers and I/O *)
  uuid_v4 : nat -> string;             (* the answers of uuid.v4(), call by call *)
  uuid_drawn : nat;
  uncaught : list Error;               (* uncaught exceptions and unhandled rejections *)
  trace : list Event
}.

Definition init (uuids : nat -> string) : World :=
  {| eventSystemQueue := None; asyncStorage := None; store := None;
     sourceEvents := []; promises := []; microtasks := []; macrotasks := [];
     uuid_v4 := uuids; uuid_drawn := 0; uncaught := []; trace := [] |}.

Definition set_queue (q : Fastq) (w : World) : World :=
  {| eventSystemQueue := Some q; asyncStorage := asyncStorage w; store := store w;
     sourceEvents := sourceEvents w; promises := promises w;
     microtasks := microtasks w; macrotasks := macrotasks w;
     uuid_v4 := uuid_v4 w; uuid_drawn := uuid_drawn w;
     uncaught := uncaught w; trace := trace w |}.

Definition set_asyncStorage (a : option unit) (w : World) : World :=
  {| eventSystemQueue := eventSystemQueue w; asyncStorage := a; store := store w;
     sourceEvents := sourceEvents w; promises := promises w;
     microtasks := microtasks w; macrotasks := macrotasks w;
     uuid_v4 := uuid_v4 w; uuid_drawn := uuid_drawn w;
     uncaught := uncaught w; trace := trace w |}.

Definition set_store (s : option string) (w : World) : World :=
  {| eventSystemQueue := eventSystemQueue w; asyncStorage := asyncStorage w; store := s;
     sourceEvents := sourceEvents w; promises := promises w;
     microtasks := microtasks w; macrotasks := macrotasks w;
     uuid_v4 := uuid_v4 w; uuid_drawn := uuid_drawn w;
     uncaught := uncaught w; trace := trace w |}.

Definition set_sourceEvents (hs : list EventHandler) (w : World) : World :=
  {| eventSystemQueue := eventSystemQueue w; asyncStorage := asyncStorage w; store := store w;
     sourceEvents := hs; promises := promises w;
     microtasks := microtasks w; macrotasks := macrotasks w;
     uuid_v4 := uuid_v4 w; uuid_drawn := uuid_drawn w;
     uncaught := uncaught w; trace := trace w |}.

Definition set_promises (ps : list PState) (w : World) : World :=
  {| eventSystemQueue := eventSystemQueue w; asyncStorage := asyncStorage w; store := store w;
     sourceEvents := sourceEvents w; promises := ps;
     microtasks := microtasks w; macrotasks := macrotasks w;
     uuid_v4 := uuid_v4 w; uuid_drawn := uuid_drawn w;
     uncaught := uncaught w; trace := trace w |}.

Definition set_microtasks (js : list Job) (w : World) : World :=
  {| eventSystemQueue := eventSystemQueue w; asyncStorage := asyncStorage w; store := store w;
     sourceEvents := sourceEvents w; promises := promises w;
     microtasks := js; macrotasks := macrotasks w;
     uuid_v4 := uuid_v4 w; uuid_drawn := uuid_drawn w;
     uncaught := uncaught w; trace := trace w |}.

Definition set_macrotasks (js : list Job) (w : World) : World :=
  {| eventSystemQueue := eventSystemQueue w; asyncStorage := asyncStorage w; store := store w;
     sourceEvents := sourceEvents w; promises := promises w;
     microtasks := microtasks w; macrotasks := js;
     uuid_v4 := uuid_v4 w; uuid_drawn := uuid_drawn w;
     uncaught := uncaught w; trace := trace w |}.

Definition set_uuid_drawn (n : nat) (w : World) : World :=
  {| eventSystemQueue := eventSystemQueue w; asyncStorage := asyncStorage w; store := store w;
     sourceEvents := sourceEvents w; promises := promises w;
     microtasks := microtasks w; macrotasks := macrotasks w;
     uuid_v4 := uuid_v4 w; uuid_drawn := n;
     uncaught := uncaught w; trace := trace w |}.

Definition set_uncaught (es : list Error) (w : World) : World :=
  {| eventSystemQueue := eventSystemQueue w; asyncStorage := asyncStorage w; store := store w;
     sourceEvents := sourceEvents w; promises := promises w;
     microtasks := microtasks w; macrotasks := macrotasks w;
     uuid_v4 := uuid_v4 w; uuid_drawn := uuid_drawn w;
     uncaught := es; trace := trace w |}.

Definition set_trace (tr : list Event) (w : World) : World :=
  {| eventSystemQueue := eventSystemQueue w; asyncStorage := asyncStorage w; store := store w;
     sourceEvents := sourceEvents w; promises := promises w;
     microtasks := microtasks w; macrotasks := macrotasks w;
     uuid_v4 := uuid_v4 w; uuid_drawn := uuid_drawn w;
     uncaught := uncaught w; trace := tr |}.

Definition log (e : Event) (w : World) : World := set_trace (trace w ++ [e]) w.

(** *** Promises *)

(** [new Promise] before its executor ran, or the promise of an [async]
    function that has not finished. *)
Definition new_promise (st : PState) (w : World) : World * PromiseId :=
  (set_promises (promises w ++ [st]) w, length (promises w)).

(** [resolve] and [reject] act once: on a settled promise they do nothing. *)
Definition settle (p : PromiseId) (st : PState) (w : World) : World :=
  match promises w !! p with
  | Some Pending => set_promises (<[p := st]> (promises w)) w
  | _ => w
  end.

Definition resolve (p : PromiseId) (v : JsVal) : World -> World := settle p (Fulfilled v).
Definition reject (p : PromiseId) (e : Error) : World -> World := settle p (Rejected e).

(** An [async] function.  Its answer is always a promise: rejected when the
    body throws, fulfilled when the body returns a value.  When the body
    returns a promise [q], the promise of the function adopts the state of
    [q]: the two settle alike, the promise of the function a few promise
    jobs of the engine after [q].  The model writes one promise for the
    two and leaves those jobs out: [microtasks] holds the callbacks that
    this module and the handlers leave for the loop, not the jobs by which
    the engine makes one promise follow another.  Whether a rejection is
    ever handled is not the function's to know: see [drop_promise]. *)
Definition async_function (fn : World -> World * Completion RetVal) (w : World)
  : World * PromiseId :=
  match fn w with
  | (w1, Normal (RPromise q)) => (w1, q)
  | (w1, Normal (RVal v)) => new_promise (Fulfilled v) w1
  | (w1, Abrupt e) => new_promise (Rejected e) w1
  end.

(** [new Promise(executor)]: an executor that throws rejects the promise. *)
Definition new_Promise (executor : PromiseId -> World -> World * Completion unit)
  (w : World) : World * PromiseId :=
  let '(w1, p) := new_promise Pending w in
  match executor p w1 with
  | (w2, Normal _) => (w2, p)
  | (w2, Abrupt e) => (reject p e w2, p)
  end.

(** An error nothing catches or handles is reported to the process; the
    model keeps the errors reported, in the order it meets them. *)
Definition unhandled (e : Error) (w : World) : World :=
  set_uncaught (uncaught w ++ [e]) w.

(** An expression statement such as [event(args)] drops the promise the
    call answered with, so nothing will ever handle its rejection.  A
    promise that is rejected when it is dropped is an unhandled rejection;
    one that is pending when it is dropped is the promise of a task, which
    nothing in this module rejects.  The promise of a client (the answer of a call or of [runEvent] made at
    the top level) is the client's to handle and is not dropped here. *)
Definition drop_promise (p : PromiseId) (w : World) : World :=
  match promises w !! p with
  | Some (Rejected e) => unhandled e w
  | _ => w
  end.

Definition discard (r : RetVal) (w : World) : World :=
  match r with
  | RPromise p => drop_promise p w
  | RVal _ => w
  end.

(** *** The loop and the async context *)

Definition current_job (cb : Callback) (w : World) : Job :=
  {| job_store := store w; job_run := cb |}.

Definition setImmediate (cb : Callback) (w : World) : World :=
  set_macrotasks (macrotasks w ++ [current_job cb w]) w.

Definition queueMicrotask (cb : Callback) (w : World) : World :=
  set_microtasks (microtasks w ++ [current_job cb w]) w.

Definition schedule (q : Tick) (cb : Callback) : World -> World :=
  match q with
  | Micro => queueMicrotask cb
  | Macro => setImmediate cb
  end.

(** [asyncStorage.run(token, fn)]: [token] is the store while [fn] runs and
    for every callback created meanwhile; the caller's store comes back
    afterwards, also when [fn] throws. *)
Definition als_run {A} (token : string) (fn : World -> World * A) (w : World) : World * A :=
  let saved := store w in
  let '(w1, r) := fn (set_store (Some token) w) in
  (set_store saved w1, r).

Definition draw_uuid (w : World) : World * string :=
  (set_uuid_drawn (S (uuid_drawn w)) w, uuid_v4 w (uuid_drawn w)).

(** ** fastq: [push], [release] and the [worked] callback of an entry

    The queue object lives in [eventSystemQueue].  The module never pauses
    or kills it, so [paused] is left out.  [worker] is the function given to
    [fastq(worker, concurrency)], [done] tells what a [done] callback does
    with the promise it closes over. *)
Section Fastq.
Variable worker : Entry -> World -> World * Completion unit.
Variable done : PromiseId -> option Error -> JsVal -> World -> World.

Definition with_running (n : Z) (q : Fastq) : Fastq :=
  {| concurrency := concurrency q; running := n; waiting := waiting q |}.

Definition with_waiting (l : list Entry) (q : Fastq) : Fastq :=
  {| concurrency := concurrency q; running := running q; waiting := l |}.

(** [if (_running >= _concurrency) { append to the list }
     else { _running++; worker.call(context, current.value, current.worked) }] *)
Definition push (value : ITask) (cb : PromiseId) (w : World) : World * Completion unit :=
  match eventSystemQueue w with
  | None => (w, Abrupt (TypeErr "Cannot read properties of null (reading 'push')"))
  | Some q =>
    let current := {| value := value; callback := cb |} in
    let w := log (EvPush cb (task_type value) (task_parent value)) w in
    if decide (concurrency q ≤ running q)%Z
    then (set_queue (with_waiting (waiting q ++ [current]) q) w, Normal tt)
    else worker current (set_queue (with_running (running q + 1) q) w)
  end.

(** [var next = queueHead
     if (next) { queueHead = next.next; worker.call(context, next.value, next.worked) }
     else if (--_running === 0) { self.drain() }]; [drain] is a no-op here. *)
Definition release (w : World) : World * Completion unit :=
  match eventSystemQueue w with
  | None => (w, Normal tt)
  | Some q =>
    match waiting q with
    | next :: rest => worker next (set_queue (with_waiting rest q) w)
    | [] => (set_queue (with_running (running q - 1) q) w, Normal tt)
    end
  end.

(** [worked(err, result)]: call the entry's callback, then [release]. *)
Definition worked (t : Entry) (err : option Error) (result : JsVal) (w : World)
  : World * Completion unit :=
  release (done (callback t) err result w).
End Fastq.

(** ** redux/events/index.ts *)

(** The worker given to [fastq] in [getQueue]:
    [asyncStorage!.run(`${type}-${uuid.v4()}`, () => { setImmediate(...) })]. *)
Definition worker (t : Entry) (w : World) : World * Completion unit :=
  match asyncStorage w with
  | None => (w, Abrupt (TypeErr "Cannot read properties of null (reading 'run')"))
  | Some _ =>
    let '(w1, u) := draw_uuid w in
    let token := task_type (value t) +:+ "-" +:+ u in
    als_run token
      (fun w2 => (setImmediate (RunHandler t) w2, Normal tt))
      (log (EvWorker (callback t) token) w1)
  end.

(** [getQueue]: make the queue on first use, with concurrency 1. *)
Definition getQueue (w : World) : World :=
  match eventSystemQueue w with
  | None => set_queue (fastq 1) w
  | Some _ => w
  end.

(** The callback [pushTaskToQueue] gives to [push]:
    [(err, result) => { if (err) { return reject(err) } return resolve(result) }]. *)
Definition push_callback (p : PromiseId) (err : option Error) (result : JsVal)
  : World -> World :=
  match err with
  | Some e => reject p e
  | None => resolve p result
  end.

Definition pushTaskToQueue (task : ITask) : World -> World * PromiseId :=
  async_function (fun w =>
    let '(w1, p) :=
      new_Promise (fun p w0 => push worker task p (getQueue w0)) w in
    (w1, Normal (RPromise p))).

Definition not_registered : Error := Err "Please make sure you registered the function".

(** [(wrappedFunction as EventHandler).plugin]: the property is read from
    the function object as it is at the time of the call. *)
Definition plugin_of (self : HandlerId) (w : World) : option Plugin :=
  fn ← sourceEvents w !! self; pd_value (prop_plugin fn).

(** [wrappedFunction]: the function object number [self]; [type] and
    [handler] are the variables its closure captured. *)
Definition wrappedFunction (self : HandlerId) (type : string) (handler : EventHandlerArg)
  (args : JsVal) : World -> World * PromiseId :=
  async_function (fun w =>
    match plugin_of self w with
    | None => (w, Abrupt not_registered)
    | Some plugin =>
      let w1 := match asyncStorage w with
                | None => set_asyncStorage (Some tt) w
                | Some _ => w
                end in
      let '(w2, p) :=
        pushTaskToQueue
          {| task_type := type;
             task_handler := handler;
             task_args := args;
             task_parent := store w1;
             task_plugin := plugin |} w1 in
      (w2, Normal (RPromise p))
    end).

(** The call [event(args)] of a handler reference. *)
Definition call (event : HandlerId) (args : JsVal) (w : World)
  : World * Completion RetVal :=
  match sourceEvents w !! event with
  | None => (w, Abrupt (TypeErr "event is not a function"))
  | Some fn =>
    let '(w1, future) :=
      wrappedFunction event (closure_type fn) (closure_handler fn) args w in
    (log (EvCall event args future) w1, Normal (RPromise future))
  end.

(** [wrapHandlerWithEventTracking]: the new function object and its two
    [Object.defineProperty] calls. *)
Definition wrapHandlerWithEventTracking (type : string) (handler : EventHandlerArg)
  : EventHandler :=
  {| closure_type := type;
     closure_handler := handler;
     prop_type := defineProperty type None;
     prop_plugin := defineProperty None (Some true) |}.

(** [!definition.type] and [!definition.description]: a string is falsy when
    it is missing or empty. *)
Definition falsy (s : option string) : bool :=
  match s with
  | None => true
  | Some s => bool_decide (s = "")
  end.

Definition missing_type : Error := Err "Your event is missing a type name.".
Definition missing_description : Error := Err "Please add a description to your event".
Definition missing_handler : Error := Err "Please add a handler to your event".

Definition defineSourceEvent (definition : ISourceEventArgs) (w : World)
  : World * Completion HandlerId :=
  if falsy (def_type definition) then (w, Abrupt missing_type)
  else if falsy (def_description definition) then (w, Abrupt missing_description)
  else match def_handler definition with
       | None => (w, Abrupt missing_handler)
       | Some handler =>
         let fn := wrapHandlerWithEventTracking (default "" (def_type definition)) handler in
         (set_sourceEvents (sourceEvents w ++ [fn]) w, Normal (length (sourceEvents w)))
       end.

(** The body of the [for ... of] loop of [runEvent]:
    [if (event.type === eventName) { event(args) }]. *)
Definition runEvent_step (eventName : string) (args : JsVal) (event : HandlerId) (w : World)
  : World * Completion unit :=
  match sourceEvents w !! event with
  | None => (w, Abrupt (TypeErr "Cannot read properties of undefined (reading 'type')"))
  | Some fn =>
    if decide (pd_value (prop_type fn) = eventName)
    then match call event args w with
         | (w1, Normal r) => (discard r w1, Normal tt)
         | (w1, Abrupt e) => (w1, Abrupt e)
         end
    else (w, Normal tt)
  end.

Fixpoint for_of {A} (body : A -> World -> World * Completion unit) (l : list A) (w : World)
  : World * Completion unit :=
  match l with
  | [] => (w, Normal tt)
  | x :: l' =>
    match body x w with
    | (w1, Normal _) => for_of body l' w1
    | (w1, Abrupt e) => (w1, Abrupt e)
    end
  end.

Definition runEvent (events : list HandlerId) (eventName : string) (args : JsVal)
  : World -> World * PromiseId :=
  async_function (fun w =>
    match for_of (runEvent_step eventName args) events w with
    | (w1, Normal _) => (w1, Normal (RVal JUndefined))
    | (w1, Abrupt e) => (w1, Abrupt e)
    end).

(** ** Assignments to the properties of a handler object *)

(** [o.key = v] in strict mode on an own data property. *)
Definition assign {A} (v : A) (p : Property A) : Completion (Property A) :=
  if pd_writable p
  then Normal {| pd_value := v; pd_writable := pd_writable p;
                 pd_enumerable := pd_enumerable p;
                 pd_configurable := pd_configurable p |}
  else Abrupt (TypeErr "Cannot assign to read only property").

Definition with_prop_type (p : Property string) (fn : EventHandler) : EventHandler :=
  {| closure_type := closure_type fn; closure_handler := closure_handler fn;
     prop_type := p; prop_plugin := prop_plugin fn |}.

Definition with_prop_plugin (p : Property (option Plugin)) (fn : EventHandler) : EventHandler :=
  {| closure_type := closure_type fn; closure_handler := closure_handler fn;
     prop_type := prop_type fn; prop_plugin := p |}.

Definition null_target : Error := TypeErr "Cannot set properties of undefined".

(** [event.type = v] *)
Definition assign_type (event : HandlerId) (v : string) (w : World) : World * Completion unit :=
  match sourceEvents w !! event with
  | None => (w, Abrupt null_target)
  | Some fn =>
    match assign v (prop_type fn) with
    | Normal p => (set_sourceEvents (<[event := with_prop_type p fn]> (sourceEvents w)) w, Normal tt)
    | Abrupt e => (w, Abrupt e)
    end
  end.

(** [event.plugin = v] *)
Definition assign_plugin (event : HandlerId) (v : option Plugin) (w : World)
  : World * Completion unit :=
  match sourceEvents w !! event with
  | None => (w, Abrupt null_target)
  | Some fn =>
    match assign v (prop_plugin fn) with
    | Normal p => (set_sourceEvents (<[event := with_prop_plugin p fn]> (sourceEvents w)) w, Normal tt)
    | Abrupt e => (w, Abrupt e)
    end
  end.

(** Modelled from the spec: the function that registers a handler lives in
    the plugin loader, outside this file; it "sets the wrapped handler's
    pluginRef slot", after which the handler can be invoked. *)
Definition register (event : HandlerId) (plugin : Plugin) : World -> World * Completion unit :=
  assign_plugin event (Some plugin).

(** ** Running handler code *)

(** How a synchronous stretch of handler code stops. *)
Inductive Stop :=
| Finished (v : JsVal)
| Raised (e : Error)
| Suspended (q : Tick) (k : Code)
| Hung.

Fixpoint run_code (c : Code) (w : World) : World * Stop :=
  match c with
  | Return v => (w, Finished v)
  | Throw e => (w, Raised e)
  | Invoke h a k =>
    match call h a w with
    | (w1, Normal r) => run_code k (discard r w1)
    | (w1, Abrupt e) => (w1, Raised e)
    end
  | Emit hs name a k =>
    let '(w1, p) := runEvent hs name a w in run_code k (drop_promise p w1)
  | SetPlugin h v k =>
    match assign_plugin h v w with
    | (w1, Normal _) => run_code k w1
    | (w1, Abrupt e) => (w1, Raised e)
    end
  | SetType h v k =>
    match assign_type h v w with
    | (w1, Normal _) => run_code k w1
    | (w1, Abrupt e) => (w1, Raised e)
    end
  | Await q k => (w, Suspended q k)
  | Never => (w, Hung)
  end.

(** The object literal the worker passes as [actions]. *)
Definition actions_of (plugin : Plugin) : Actions :=
  {| createNode_plugin := plugin;
     createNodeId_namespace := plugin_name plugin;
     pluginOptions := plugin_options plugin |}.

(** The promise a handler returned settles.  Fulfilled with [v], its
    reaction [res => cb(null, res)] becomes a promise job.  Rejected, the
    promise derived by [.then] is rejected too and nothing handles it: [cb]
    is not called. *)
Definition promise_settles (t : Entry) (o : Completion JsVal) (w : World) : World :=
  match o with
  | Normal v => queueMicrotask (ThenCb t v) (log (EvResolve (callback t) v) w)
  | Abrupt e => unhandled e (log (EvFail (callback t) e) w)
  end.

Arguments promise_settles : simpl never.

(** What [handler(args, actions)] hands back to the worker: a value that is
    no promise, or a promise - settled already, settled when the rest of the
    code has run, or never settled. *)
Inductive Result :=
| Gave (v : JsVal)
| Settled (o : Completion JsVal)
| Unsettled (q : Tick) (k : Code)
| Forever.

(** Calling the raw handler.  An [async] function hands back a promise
    whatever its code does; a plain function hands back the value its code
    returns, throws what its code throws, and hands back a promise when its
    code stops at a suspension point. *)
Definition handed_back (handler : EventHandlerArg) (s : Stop) : Completion Result :=
  match s with
  | Finished v => Normal (if is_async handler then Settled (Normal v) else Gave v)
  | Raised e => if is_async handler then Normal (Settled (Abrupt e)) else Abrupt e
  | Suspended q k => Normal (Unsettled q k)
  | Hung => Normal Forever
  end.

(** What [result.then(...)] throws when [result.then] is no function. *)
Definition not_callable : Error := TypeErr "result.then is not a function".

(** The function given to [setImmediate] by the worker:
    [const result = handler(args, actions)
     if (result?.then) { result.then(res => cb(null, res)) } else { cb(null, result) }]
    The test is on the value handed back.  The [then] of a promise is the
    built-in method.  Another value is taken for a promise as soon as it has
    a truthy [then]; calling that [then] throws, out of the callback of
    [setImmediate], and [cb] is not called. *)
Definition run_handler (t : Entry) (w : World) : World * Completion unit :=
  let task := value t in
  let handler := task_handler task in
  let w0 := log (EvBegin (callback t) (store w)) w in
  let '(w1, s) := run_code (body handler (task_args task) (actions_of (task_plugin task))) w0 in
  match handed_back handler s with
  | Abrupt e => (log (EvFail (callback t) e) w1, Abrupt e)
  | Normal (Gave v) =>
    if truthy (get "then" v)
    then (w1, Abrupt not_callable)
    else worked worker push_callback t None v (log (EvReturn (callback t) v) w1)
  | Normal (Settled o) => (promise_settles t o w1, Normal tt)
  | Normal (Unsettled q k) => (schedule q (ResumeHandler t k) w1, Normal tt)
  | Normal Forever => (w1, Normal tt)
  end.

(** The rest of a handler after a suspension point. *)
Definition resume_handler (t : Entry) (k : Code) (w : World) : World * Completion unit :=
  match run_code k w with
  | (w1, Finished v) => (promise_settles t (Normal v) w1, Normal tt)
  | (w1, Raised e) => (promise_settles t (Abrupt e) w1, Normal tt)
  | (w1, Suspended q k') => (schedule q (ResumeHandler t k') w1, Normal tt)
  | (w1, Hung) => (w1, Normal tt)
  end.

Definition run_callback (cb : Callback) : World -> World * Completion unit :=
  match cb with
  | RunHandler t => run_handler t
  | ResumeHandler t k => resume_handler t k
  | ThenCb t res => worked worker push_callback t None res
  end.

(** A job runs in the async context it was created in; an exception that
    leaves it is an uncaught exception.  The error is recorded and the loop
    goes on, as in a process that listens for [uncaughtException]; without
    a listener the process ends there.  Between jobs no store is set. *)
Definition run_job (j : Job) (w : World) : World :=
  let '(w1, c) := run_callback (job_run j) (set_store (job_store j) w) in
  let w2 := match c with
            | Normal _ => w1
            | Abrupt e => unhandled e w1
            end in
  set_store None w2.

(** One turn of the loop: promise jobs go before the callbacks of
    [setImmediate]. *)
Definition tick (w : World) : World :=
  match microtasks w with
  | j :: rest => run_job j (set_microtasks rest w)
  | [] =>
    match macrotasks w with
    | j :: rest => run_job j (set_macrotasks rest w)
    | [] => w
    end
  end.

(** ** Clients

    What the rest of the program can do with this module, from the top
    level (outside every handler): define a source event, assign to a
    property of a handler object (registration is the assignment of a
    plugin), call a handler, run an event, and let the loop take a turn. *)
Inductive Op :=
| OpDefine (definition : ISourceEventArgs)
| OpAssignType (event : HandlerId) (v : string)
| OpAssignPlugin (event : HandlerId) (v : option Plugin)
| OpCall (event : HandlerId) (args : JsVal)
| OpRunEvent (events : list HandlerId) (eventName : string) (args : JsVal)
| OpTick.

Definition exec_op (o : Op) (w : World) : World :=
  match o with
  | OpDefine d => fst (defineSourceEvent d w)
  | OpAssignType h v => fst (assign_type h v w)
  | OpAssignPlugin h v => fst (assign_plugin h v w)
  | OpCall h a => fst (call h a w)
  | OpRunEvent hs n a => fst (runEvent hs n a w)
  | OpTick => tick w
  end.

Definition exec (ops : list Op) (w : World) : World :=
  fold_left (fun w o => exec_op o w) ops w.

(** The worlds a client can bring about. *)
Definition reachable (w : World) : Prop :=
  exists uuids ops, w = exec ops (init uuids).

(** ** Reading the trace *)

Definition pushed (e : Event) : option PromiseId :=
  match e with EvPush p _ _ => Some p | _ => None end.
Definition begun (e : Event) : option PromiseId :=
  match e with EvBegin p _ => Some p | _ => None end.
Definition completed (e : Event) : option PromiseId :=
  match e with EvReturn p _ | EvResolve p _ => Some p | _ => None end.

(** The tasks in the order they were pushed. *)
Definition pushes (tr : list Event) : list PromiseId := omap pushed tr.
Definition begins (tr : list Event) : list PromiseId := omap begun tr.
Definition completions (tr : list Event) : list PromiseId := omap completed tr.

(** The queue object, read through the module variable. *)
Definition the_queue (w : World) : Fastq := default (fastq 1) (eventSystemQueue w).

Definition token (type uuid : string) : string := type +:+ "-" +:+ uuid.

(** The task [wrappedFunction] builds and the entry the queue makes of it. *)
Definition task_of (fn : EventHandler) (args : JsVal) (plugin : Plugin) (w : World) : ITask :=
  {| task_type := closure_type fn; task_handler := closure_handler fn;
     task_args := args; task_parent := store w; task_plugin := plugin |}.

Definition entry_of (fn : EventHandler) (args : JsVal) (plugin : Plugin) (w : World) : Entry :=
  {| value := task_of fn args plugin w; callback := length (promises w) |}.

Definition worker_ev (e : Event) : option (PromiseId * string) :=
  match e with EvWorker p tok => Some (p, tok) | _ => None end.
Definition pushed_ty (e : Event) : option (PromiseId * string) :=
  match e with EvPush p ty _ => Some (p, ty) | _ => None end.
Definition called (e : Event) : option (HandlerId * JsVal) :=
  match e with EvCall h a _ => Some (h, a) | _ => None end.
Definition completed_with (e : Event) : option (PromiseId * JsVal) :=
  match e with EvReturn p v | EvResolve p v => Some (p, v) | _ => None end.

(** The tasks handed to the worker, each with the token made for it. *)
Definition workers (tr : list Event) : list (PromiseId * string) := omap worker_ev tr.
Definition pushes_ty (tr : list Event) : list (PromiseId * string) := omap pushed_ty tr.
Definition calls (tr : list Event) : list (HandlerId * JsVal) := omap called tr.

(** ** A monitor for serial first-in first-out execution

    The monitor reads a trace from its start and accepts it as long as the
    tasks are handed to the worker, begun and completed one at a time and in
    the order they were pushed.  [m_done] counts the completed tasks; the
    next task is the one at that position of [m_pushes]. *)
Inductive Stage :=
| Quiet     (* no task handed to the worker and not yet completed *)
| Handed    (* the next task is with the worker, its handler not begun *)
| Open.     (* the handler of the next task has begun and not completed *)

Record Mon := {
  m_pushes : list PromiseId;
  m_done : nat;
  m_stage : Stage
}.

Definition mon0 : Mon := {| m_pushes := []; m_done := 0; m_stage := Quiet |}.

Definition mon_next (p : PromiseId) (from to : Stage) (m : Mon) : option Mon :=
  match from, m_stage m with
  | Quiet, Quiet | Handed, Handed | Open, Open =>
    if decide (m_pushes m !! m_done m = Some p)
    then Some {| m_pushes := m_pushes m;
                 m_done := match to with Quiet => S (m_done m) | _ => m_done m end;
                 m_stage := to |}
    else None
  | _, _ => None
  end.

Arguments mon_next : simpl never.

Definition mon_step (m : Mon) (e : Event) : option Mon :=
  match e with
  | EvPush p _ _ =>
    if decide (p ∈ m_pushes m) then None
    else Some {| m_pushes := m_pushes m ++ [p]; m_done := m_done m; m_stage := m_stage m |}
  | EvWorker p _ => mon_next p Quiet Handed m
  | EvBegin p _ => mon_next p Handed Open m
  | EvReturn p _ | EvResolve p _ => mon_next p Open Quiet m
  | EvCall _ _ _ | EvFail _ _ => Some m
  end.

Definition monitor (tr : list Event) : option Mon :=
  foldl (fun om e => om ≫= fun m => mon_step m e) (Some mon0) tr.

(** How many tasks were handed to the worker, and how many handlers begun. *)
Definition started (m : Mon) : nat :=
  match m_stage m with Quiet => m_done m | _ => S (m_done m) end.
Definition opened (m : Mon) : nat :=
  match m_stage m with Open => S (m_done m) | _ => m_done m end.

(** ** The invariant of the module *)

Definition entry_key (e : Entry) : PromiseId * string := (callback e, task_type (value e)).

(** What holds whenever code of the module or of a handler runs.  [owed] is
    a completion already observed whose promise the queue has yet to settle. *)
Record Base (w : World) (m : Mon) (owed : option Event) : Prop := {
  base_monitor : monitor (trace w) = Some m;
  base_concurrency : concurrency (the_queue w) = 1%Z;
  base_fresh : forall p, p ∈ m_pushes m -> p < length (promises w);
  base_storage : m_pushes m <> [] -> asyncStorage w = Some tt /\ is_Some (eventSystemQueue w);
  base_waiting : drop (started m) (pushes_ty (trace w)) = map entry_key (waiting (the_queue w));
  base_drawn : uuid_drawn w = started m;
  base_tokens : forall k p tok, workers (trace w) !! k = Some (p, tok) ->
    exists ty, pushes_ty (trace w) !! k = Some (p, ty) /\ tok = token ty (uuid_v4 w k);
  base_begin : forall p s, EvBegin p s ∈ trace w ->
    exists tok, s = Some tok /\ EvWorker p tok ∈ trace w;
  base_done : forall e p v, e ∈ trace w -> completed_with e = Some (p, v) ->
    promises w !! p = Some (Fulfilled v) \/ owed = Some e;
  base_pending : forall e, e ∈ waiting (the_queue w) -> promises w !! callback e = Some Pending
}.

(** The task [t] is with the worker, which made [tok] for it. *)
Record InFlight (w : World) (m : Mon) (t : Entry) (tok : string) : Prop := {
  fl_running : running (the_queue w) = 1%Z;
  fl_index : exists n, started m = S n /\ m_pushes m !! n = Some (callback t);
  fl_pending : promises w !! callback t = Some Pending;
  fl_token : EvWorker (callback t) tok ∈ trace w
}.

(** Where the queue stands between two turns of the loop. *)
Inductive Phase (w : World) (m : Mon) (owed : option Event) : Prop :=
| PIdle :
    running (the_queue w) = 0%Z -> waiting (the_queue w) = [] ->
    m_stage m = Quiet -> owed = None ->
    microtasks w = [] -> macrotasks w = [] -> Phase w m owed
| PScheduled t tok :
    InFlight w m t tok -> m_stage m = Handed -> owed = None ->
    microtasks w = [] ->
    macrotasks w = [{| job_store := Some tok; job_run := RunHandler t |}] ->
    Phase w m owed
| PSuspended t tok k :
    InFlight w m t tok -> m_stage m = Open -> owed = None ->
    (microtasks w = [{| job_store := Some tok; job_run := ResumeHandler t k |}]
       /\ macrotasks w = []
     \/ microtasks w = []
       /\ macrotasks w = [{| job_store := Some tok; job_run := ResumeHandler t k |}]) ->
    Phase w m owed
| PStalled :
    running (the_queue w) = 1%Z -> m_stage m = Open -> owed = None ->
    microtasks w = [] -> macrotasks w = [] -> Phase w m owed
| PResolved t tok v :
    InFlight w m t tok -> m_stage m = Quiet ->
    owed = Some (EvResolve (callback t) v) ->
    microtasks w = [{| job_store := Some tok; job_run := ThenCb t v |}] ->
    macrotasks w = [] -> Phase w m owed.

(** While code of the handler of [t] runs. *)
Record Body (w : World) (m : Mon) (t : Entry) (tok : string) : Prop := {
  body_flight : InFlight w m t tok;
  body_stage : m_stage m = Open;
  body_micro : microtasks w = [];
  body_macro : macrotasks w = [];
  body_store : store w = Some tok
}.

Definition Inv (w : World) : Prop :=
  exists m owed, Base w m owed /\ Phase w m owed /\ store w = None.

(** What acceptance says about a trace. *)
Record Accepted (tr : list Event) (m : Mon) : Prop := {
  acc_pushes : m_pushes m = pushes tr;
  acc_nodup : NoDup (pushes tr);
  acc_bound : started m <= length (pushes tr);
  acc_workers : (workers tr).*1 = take (started m) (pushes tr);
  acc_begins : begins tr = take (opened m) (pushes tr);
  acc_completions : completions tr = take (m_done m) (pushes tr)
}.

(** Events the monitor and the queue take no notice of. *)
Definition silent (e : Event) : Prop :=
  match e with EvCall _ _ _ | EvFail _ _ => True | _ => False end.

(** What a step leaves alone in the module variables. *)
Record Kept (w w' : World) : Prop := {
  kept_concurrency : concurrency (the_queue w') = concurrency (the_queue w);
  kept_storage : asyncStorage w = Some tt /\ is_Some (eventSystemQueue w) ->
                 asyncStorage w' = Some tt /\ is_Some (eventSystemQueue w');
  kept_uuid : uuid_v4 w' = uuid_v4 w
}.

(** Events of a call that does not reach the worker; a task pushed meanwhile
    records the store [s] as its parent. *)
Definition quiet_at (s : option string) (e : Event) : Prop :=
  match e with
  | EvPush _ _ par => par = s
  | EvCall _ _ _ => True
  | _ => False
  end.

(** [w'] comes from [w] by calls that left the task in flight alone. *)
Record Quietly (w : World) (m : Mon) (w' : World) (m' : Mon) : Prop := {
  q_running : running (the_queue w') = running (the_queue w);
  q_idle : running (the_queue w) = 0%Z -> waiting (the_queue w') = waiting (the_queue w);
  q_micro : microtasks w' = microtasks w;
  q_macro : macrotasks w' = macrotasks w;
  q_store : store w' = store w;
  q_promises : exists ps, promises w' = promises w ++ ps;
  q_trace : exists new, trace w' = trace w ++ new /\ Forall (quiet_at (store w)) new;
  q_stage : m_stage m' = m_stage m;
  q_done : m_done m' = m_done m;
  q_pushes : exists l, m_pushes m' = m_pushes m ++ l
}.

(** The handler object [event] as [defineSourceEvent] made it for the type
    [ty], whatever plugin its slot holds. *)
Definition as_defined (ty : string) (event : HandlerId) (w : World) : Prop :=
  exists fn, sourceEvents w !! event = Some fn
    /\ prop_type fn = {| pd_value := ty; pd_writable := false;
                         pd_enumerable := false; pd_configurable := false |}
    /\ closure_type fn = ty
    /\ pd_writable (prop_plugin fn) = true.

(** Every task pushed records [s] as its parent. *)
Definition parent_is (s : option string) (e : Event) : Prop :=
  match e with
  | EvPush _ _ par => par = s
  | _ => True
  end.

(** What no step of the module or of a handler undoes: the async context
    of the caller, the [type] property of a handler object, the uuid
    source, a promise once settled and the trace so far.  Tasks pushed
    meanwhile have the caller's store as parent. *)
Record Frame (w w' : World) : Prop := {
  fr_store : store w' = store w;
  fr_defined : forall ty h, as_defined ty h w -> as_defined ty h w';
  fr_uuid : uuid_v4 w' = uuid_v4 w;
  fr_promises : forall p st, promises w !! p = Some st -> st <> Pending ->
                  promises w' !! p = Some st;
  fr_trace : exists new, trace w' = trace w ++ new /\ Forall (parent_is (store w)) new
}.

(** The callback the loop runs next, and the task it belongs to. *)
Definition next_job (w : World) : option Job :=
  match microtasks w with
  | j :: _ => Some j
  | [] => head (macrotasks w)
  end.

Definition job_entry (j : Job) : Entry :=
  match job_run j with
  | RunHandler t | ResumeHandler t _ | ThenCb t _ => t
  end.

(** The world a job starts in: the job has left its queue and its async
    context is current. *)
Definition dequeue (w : World) : World :=
  match microtasks w with
  | _ :: rest => set_microtasks rest w
  | [] => set_macrotasks (tail (macrotasks w)) w
  end.

Definition job_world (j : Job) (w : World) : World :=
  set_store (job_store j) (dequeue w).

(** How the stretch of handler code that the job runs stops; the reaction
    [res => cb(null, res)] runs no handler code. *)
Definition handler_stop (j : Job) (w : World) : option Stop :=
  match job_run j with
  | RunHandler t =>
    Some (run_code (body (task_handler (value t)) (task_args (value t))
                      (actions_of (task_plugin (value t))))
            (log (EvBegin (callback t) (job_store j)) (job_world j w))).2
  | ResumeHandler t k => Some (run_code k (job_world j w)).2
  | ThenCb _ _ => None
  end.


(** Events that say the queue is at the task [q]. *)
Definition handed (e : Event) : option PromiseId :=
  match e with EvWorker q _ | EvBegin q _ => Some q | _ => None end.

(** The uuids drawn so far. *)
Definition drawn_uuids (w : World) : list string :=
  uuid_v4 w <$> seq 0 (uuid_drawn w).

(** A string field of a definition that was left out or is empty. *)
Definition absent_or_empty (s : option string) : Prop := s = None \/ s = Some "".

(** [event.type], read from the handler object. *)
Definition type_of (w : World) (event : HandlerId) : option string :=
  fn ← sourceEvents w !! event; Some (pd_value (prop_type fn)).

(** The promises the calls recorded in a trace answered with. *)
Definition future_of (e : Event) : option PromiseId :=
  match e with EvCall _ _ f => Some f | _ => None end.
Definition futures (tr : list Event) : list PromiseId := omap future_of tr.


(** The claim that no token is made at enqueue time: the call that pushes
    the task draws no uuid and hands nothing to the worker. *)
Definition no_token_at_enqueue (event : HandlerId) (args : JsVal) (w : World) : Prop :=
  uuid_drawn (call event args w).1 = uuid_drawn w
  /\ workers (trace (call event args w).1) = workers (trace w).

(** The claim that a call of an unregistered handler throws to its caller. *)
Definition throws_to_caller (event : HandlerId) (args : JsVal) (w : World) : Prop :=
  exists w' e, call event args w = (w', Abrupt e).

(** The queue is stuck on the task of promise [p]: the slot is taken, no
    callback is pending, and [p] is not settled. *)
Definition halted (p : PromiseId) (w : World) : Prop :=
  concurrency (the_queue w) = 1%Z /\ running (the_queue w) = 1%Z
  /\ microtasks w = [] /\ macrotasks w = []
  /\ promises w !! p = Some Pending.

(** ** Example clients *)

(** A uuid source: version 4 shaped strings that differ in their last two
    digits. *)
Definition digit (n : nat) : Ascii.ascii := Ascii.ascii_of_nat (48 + n mod 10).

Definition uuid0 (n : nat) : string :=
  "00000000-0000-4000-8000-0000000000" +:+ String (digit (n / 10)) (String (digit n) "").

Definition plugin0 : Plugin :=
  {| plugin_id := "a1"; plugin_name := "gatsby-source-a"; plugin_options := [] |}.

(** [() => { throw new Error("boom") }] *)
Definition h_boom : EventHandlerArg :=
  {| is_async := false; body := fun _ _ => Throw (Err "boom") |}.

(** [args => args] *)
Definition h_echo : EventHandlerArg :=
  {| is_async := false; body := fun args _ => Return args |}.

(** [async () => { await io(); echo(7); await null; return "c" }],
    [echo] being the handler object 1. *)
Definition h_outer : EventHandlerArg :=
  {| is_async := true;
     body := fun _ _ => Await Macro (Invoke 1 (JNum 7) (Await Micro (Return (JStr "c")))) |}.

(** [async () => { await io(); throw new Error("late") }] *)
Definition h_late : EventHandlerArg :=
  {| is_async := true; body := fun _ _ => Await Macro (Throw (Err "late")) |}.

Definition definition_of (type : string) (handler : EventHandlerArg) : ISourceEventArgs :=
  {| def_type := Some type; def_description := Some "an event";
     def_meta := None; def_handler := Some handler |}.

(** The definition [{ type: "", description: "d", handler }]. *)
Definition definition_untyped : ISourceEventArgs :=
  {| def_type := Some ""; def_description := Some "d";
     def_meta := None; def_handler := Some h_echo |}.

(** Four handler objects, 0 to 3; all but the last are registered. *)
Definition ops_setup : list Op :=
  [OpDefine (definition_of "A" h_boom); OpDefine (definition_of "B" h_echo);
   OpDefine (definition_of "C" h_outer); OpDefine (definition_of "A" h_late);
   OpAssignPlugin 0 (Some plugin0); OpAssignPlugin 1 (Some plugin0);
   OpAssignPlugin 2 (Some plugin0)].

Definition w_setup : World := exec ops_setup (init uuid0).

(** [C] and [B] are called; the loop has taken one turn, in which the
    handler of [C] ran up to its first suspension point. *)
Definition ops_nested : list Op := ops_setup ++ [OpCall 2 JNull; OpCall 1 (JNum 1); OpTick].
Definition w_nested : World := exec ops_nested (init uuid0).

(** The same, run until the loop has nothing left to do. *)
Definition ops_run : list Op :=
  ops_nested ++ [OpTick; OpTick; OpTick; OpTick; OpTick; OpTick].
Definition w_run : World := exec ops_run (init uuid0).

(** [A], whose handler throws, is called and then [B]. *)
Definition ops_boom : list Op := ops_setup ++ [OpCall 0 JNull; OpCall 1 (JNum 1)].
Definition w_boom : World := exec ops_boom (init uuid0).

(** The handler object 3, whose handler rejects after a suspension point,
    is registered and called, then [B]; the loop has taken one turn. *)
Definition ops_late : list Op :=
  ops_setup ++ [OpAssignPlugin 3 (Some plugin0); OpCall 3 JNull; OpCall 1 (JNum 1); OpTick].
Definition w_late : World := exec ops_late (init uuid0).

(** The run of [ops_nested] three turns later: the handler of [C] is done
    and the queue has handed the first call of [B] to the worker. *)
Definition ops_plain : list Op := ops_nested ++ [OpTick; OpTick; OpTick].
Definition w_plain : World := exec ops_plain (init uuid0).


(** One handler object, defined and nothing else. *)
Definition w_defined : World := exec [OpDefine (definition_of "A" h_boom)] (init uuid0).

(** [() => { first.plugin = plugin0; first.type = "Z"; return null }],
    [first] being the handler object 0. *)
Definition h_meddle : EventHandlerArg :=
  {| is_async := false;
     body := fun _ _ => SetPlugin 0 (Some plugin0) (SetType 0 "Z" (Return JNull)) |}.

(** After [w_defined]: a second handler object, whose handler meddles with
    the first, is defined, registered and called, and its handler has run. *)
Definition ops_meddle : list Op :=
  [OpDefine (definition_of "M" h_meddle); OpAssignPlugin 1 (Some plugin0);
   OpCall 1 JNull; OpTick].

(** The jobs at the head of the loop in [w_boom], [w_plain] and [w_tail]. *)
Definition entry_boom : Entry :=
  {| value := {| task_type := "A"; task_handler := h_boom; task_args := JNull;
                 task_parent := None; task_plugin := plugin0 |};
     callback := 0 |}.
Definition j_boom : Job :=
  {| job_store := Some (token "A" (uuid0 0)); job_run := RunHandler entry_boom |}.



(** The handler object 1 of [ops_setup], registered. *)
Definition fn_echo : EventHandler :=
  with_prop_plugin
    {| pd_value := Some plugin0; pd_writable := true;
       pd_enumerable := false; pd_configurable := false |}
    (wrapHandlerWithEventTracking "B" h_echo).

(** ** Handler objects and the promises of tasks *)

(** A handler object as [wrapHandlerWithEventTracking] made it, whatever
    plugin its slot holds by now. *)
Definition as_wrapped (fn : EventHandler) : Prop :=
  prop_type fn = defineProperty (closure_type fn) None
  /\ pd_writable (prop_plugin fn) = true.

(** What the module keeps true of the handler objects, of the promises of
    the tasks pushed, of the reactions that wait for the loop and of its two
    singletons. *)
Record Sound (w : World) : Prop := {
  snd_handlers : forall h fn, sourceEvents w !! h = Some fn -> as_wrapped fn;
  snd_fresh : forall p, p ∈ pushes (trace w) -> p < length (promises w);
  snd_settled : forall p st, p ∈ pushes (trace w) -> promises w !! p = Some st ->
    st = Pending
    \/ exists v e, st = Fulfilled v /\ e ∈ trace w /\ completed_with e = Some (p, v);
  snd_reactions : forall j t v, j ∈ microtasks w ++ macrotasks w ->
    job_run j = ThenCb t v -> EvResolve (callback t) v ∈ trace w;
  snd_lazy : pushes (trace w) = [] -> eventSystemQueue w = None /\ asyncStorage w = None
}.

(** A task pushed has the type [ty] and the parent [s]. *)
Definition pushed_as (ty : string) (s : option string) (e : Event) : Prop :=
  match e with
  | EvPush _ ty' par => ty' = ty /\ par = s
  | _ => True
  end.

(** Every parent recorded in a trace is a token the worker made before,
    for another task. *)
Definition parents_known (tr : list Event) : Prop :=
  forall i p ty tok, tr !! i = Some (EvPush p ty (Some tok)) ->
    exists k q, k < i /\ tr !! k = Some (EvWorker q tok) /\ q <> p.

(** What [event.type] throws on an element that is [undefined]. *)
Definition not_a_handler : Error :=
  TypeErr "Cannot read properties of undefined (reading 'type')".

(** The world in which the handler code of a job starts: the job has left
    its queue, its async context is current and, on the first turn of a
    handler, the start of the handler is recorded. *)
Definition code_world (j : Job) (w : World) : World :=
  match job_run j with
  | RunHandler t => log (EvBegin (callback t) (job_store j)) (job_world j w)
  | _ => job_world j w
  end.

(** The code a job runs. *)
Definition job_code (j : Job) : option Code :=
  match job_run j with
  | RunHandler t =>
    Some (body (task_handler (value t)) (task_args (value t)) (actions_of (task_plugin (value t))))
  | ResumeHandler _ k => Some k
  | ThenCb _ _ => None
  end.

(** ** More example clients *)




(** After [ops_setup]: the first call of a registered handler. *)
Definition ops_first : list Op := ops_setup ++ [OpCall 1 (JNum 1)].
Definition w_first : World := exec ops_first (init uuid0).

(** After [ops_setup]: an event with no handler of its type, and a call of
    the handler object that is not registered. *)
Definition ops_unregistered : list Op :=
  ops_setup ++ [OpRunEvent [0; 1; 2; 3] "Z" JNull; OpCall 3 JNull].
Definition w_unregistered : World := exec ops_unregistered (init uuid0).

(** [async () => { await new Promise(() => {}) }] *)
Definition h_wait : EventHandlerArg :=
  {| is_async := true; body := fun _ _ => Never |}.

(** One handler object, whose handler never finishes, registered and called
    twice. *)
Definition ops_wait : list Op :=
  [OpDefine (definition_of "W" h_wait); OpAssignPlugin 0 (Some plugin0);
   OpCall 0 JNull; OpCall 0 (JNum 2)].
Definition w_wait : World := exec ops_wait (init uuid0).

Definition entry_wait : Entry :=
  {| value := {| task_type := "W"; task_handler := h_wait; task_args := JNull;
                 task_parent := None; task_plugin := plugin0 |};
     callback := 0 |}.
Definition j_wait : Job :=
  {| job_store := Some (token "W" (uuid0 0)); job_run := RunHandler entry_wait |}.

Ltac unfold_setters :=
  lazy beta iota zeta delta
    [log unhandled setImmediate queueMicrotask current_job new_promise
     set_queue set_asyncStorage set_store set_sourceEvents set_promises
     set_microtasks set_macrotasks set_uuid_drawn set_uncaught set_trace
     eventSystemQueue asyncStorage store sourceEvents promises microtasks
     macrotasks uuid_v4 uuid_drawn uncaught trace fst snd] in *.

(** ** The four ways a call of a handler object can go *)

Lemma call_not_a_function h a w :
  sourceEvents w !! h = None ->
  call h a w = (w, Abrupt (TypeErr "event is not a function")).
Proof. intros H. unfold call. rewrite H. reflexivity. Qed.

(** An unregistered handler: a rejected promise and nothing else. *)
Lemma call_unregistered h a w fn :
  sourceEvents w !! h = Some fn ->
  plugin_of h w = None ->
  call h a w =
    ({| eventSystemQueue := eventSystemQueue w; asyncStorage := asyncStorage w;
        store := store w; sourceEvents := sourceEvents w;
        promises := promises w ++ [Rejected not_registered];
        microtasks := microtasks w; macrotasks := macrotasks w;
        uuid_v4 := uuid_v4 w; uuid_drawn := uuid_drawn w;
        uncaught := uncaught w;
        trace := trace w ++ [EvCall h a (length (promises w))] |},
     Normal (RPromise (length (promises w)))).
Proof.
  intros Hfn Hpl. unfold call, wrappedFunction, async_function.
  rewrite Hfn, Hpl. reflexivity.
Qed.

(** A registered handler while the queue is busy: the task waits. *)
Lemma call_busy h a w fn plugin :
  sourceEvents w !! h = Some fn ->
  plugin_of h w = Some plugin ->
  (concurrency (the_queue w) <= running (the_queue w))%Z ->
  call h a w =
    ({| eventSystemQueue :=
          Some (with_waiting (waiting (the_queue w) ++ [entry_of fn a plugin w]) (the_queue w));
        asyncStorage := Some tt;
        store := store w; sourceEvents := sourceEvents w;
        promises := promises w ++ [Pending];
        microtasks := microtasks w; macrotasks := macrotasks w;
        uuid_v4 := uuid_v4 w; uuid_drawn := uuid_drawn w;
        uncaught := uncaught w;
        trace := trace w ++ [EvPush (length (promises w)) (closure_type fn) (store w);
                             EvCall h a (length (promises w))] |},
     Normal (RPromise (length (promises w)))).
Proof.
  intros Hfn Hpl Hbusy. unfold call, wrappedFunction, async_function.
  rewrite Hfn, Hpl. unfold the_queue in *.
  destruct w as [q als st hs ps mi ma gen n un tr]; simpl in *.
  destruct q as [q|]; [|simpl in Hbusy; lia].
  destruct als as [[]|]; simpl in *;
    unfold pushTaskToQueue, async_function, new_Promise, push, getQueue; simpl;
    rewrite decide_True by done; unfold_setters; rewrite <- app_assoc; reflexivity.
Qed.

(** A registered handler while the queue has a free slot: the worker takes
    the task at once, draws a uuid and leaves the handler to [setImmediate]. *)
Lemma call_idle h a w fn plugin :
  sourceEvents w !! h = Some fn ->
  plugin_of h w = Some plugin ->
  (running (the_queue w) < concurrency (the_queue w))%Z ->
  call h a w =
    ({| eventSystemQueue :=
          Some (with_running (running (the_queue w) + 1) (the_queue w));
        asyncStorage := Some tt;
        store := store w; sourceEvents := sourceEvents w;
        promises := promises w ++ [Pending];
        microtasks := microtasks w;
        macrotasks := macrotasks w ++
          [{| job_store := Some (token (closure_type fn) (uuid_v4 w (uuid_drawn w)));
              job_run := RunHandler (entry_of fn a plugin w) |}];
        uuid_v4 := uuid_v4 w; uuid_drawn := S (uuid_drawn w);
        uncaught := uncaught w;
        trace := trace w ++ [EvPush (length (promises w)) (closure_type fn) (store w);
                             EvWorker (length (promises w))
                               (token (closure_type fn) (uuid_v4 w (uuid_drawn w)));
                             EvCall h a (length (promises w))] |},
     Normal (RPromise (length (promises w)))).
Proof.
  intros Hfn Hpl Hidle. unfold call, wrappedFunction, async_function.
  rewrite Hfn, Hpl. unfold the_queue in *.
  destruct w as [q als st hs ps mi ma gen n un tr]; simpl in *.
  destruct als as [[]|], q as [q|]; simpl in *;
    unfold pushTaskToQueue, async_function, new_Promise, push, getQueue; simpl;
    try rewrite decide_False by lia;
    lazy beta iota zeta delta
      [worker als_run draw_uuid log setImmediate current_job
       set_queue set_asyncStorage set_store set_promises set_macrotasks
       set_uuid_drawn set_trace
       eventSystemQueue asyncStorage store sourceEvents promises microtasks
       macrotasks uuid_v4 uuid_drawn uncaught trace value callback task_type];
    repeat rewrite <- app_assoc; reflexivity.
Qed.

(** ** Traces the monitor accepts *)

Lemma monitor_snoc tr e :
  monitor (tr ++ [e]) = monitor tr ≫= fun m => mon_step m e.
Proof. unfold monitor. by rewrite foldl_snoc. Qed.

Lemma monitor_prefix tr tr' m :
  monitor (tr ++ tr') = Some m -> exists m0, monitor tr = Some m0.
Proof.
  revert m. induction tr' as [|e tr' IH] using rev_ind; intros m.
  - rewrite app_nil_r. eauto.
  - rewrite app_assoc, monitor_snoc. intros H.
    destruct (monitor (tr ++ tr')) as [m1|] eqn:E; [eauto | discriminate].
Qed.

Lemma pushes_fst tr : pushes tr = (pushes_ty tr).*1.
Proof.
  unfold pushes, pushes_ty. induction tr as [|e tr IH]; [done|].
  destruct e; csimpl; by rewrite ?IH.
Qed.

Lemma mon_next_Some p from to m m' :
  mon_next p from to m = Some m' ->
  m_stage m = from /\ m_pushes m !! m_done m = Some p /\
  m' = {| m_pushes := m_pushes m;
          m_done := match to with Quiet => S (m_done m) | _ => m_done m end;
          m_stage := to |}.
Proof.
  unfold mon_next. intros H.
  destruct from, (m_stage m); try discriminate; case_decide; by simplify_eq.
Qed.

Lemma take_snoc_le {A} (l : list A) x n : n <= length l -> take n (l ++ [x]) = take n l.
Proof. intros. by rewrite take_app_le. Qed.

Lemma monitor_accepted tr m : monitor tr = Some m -> Accepted tr m.
Proof.
  revert m. induction tr as [|e tr IH] using rev_ind; intros m.
  - intros [= <-]. split; simpl; try done. constructor.
  - rewrite monitor_snoc. destruct (monitor tr) as [m0|]; [simpl|discriminate].
    destruct (IH m0 eq_refl) as [Hp Hn Hb Hw Hbe Hc]. clear IH.
    assert (Hpush : forall f : Event -> option PromiseId, omap f (tr ++ [e]) = omap f tr ++ omap f [e])
      by (intros; apply omap_app).
    unfold pushes, workers, begins, completions in *.
    destruct e; simpl; intros Hs.
    + (* call *) simplify_eq. split; unfold pushes, workers, begins, completions;
        rewrite ?omap_app; simpl; rewrite ?app_nil_r; done.
    + (* push *)
      case_decide; simplify_eq.
      split; unfold pushes, workers, begins, completions; rewrite ?omap_app; simpl;
        rewrite ?app_nil_r.
      * by rewrite Hp.
      * apply list.NoDup_app. split; [done|]. split; [|apply NoDup_singleton].
        intros x Hx ->%list_elem_of_singleton. by rewrite Hp in *.
      * rewrite length_app. unfold started in *; simpl in *. lia.
      * rewrite take_snoc_le; [done|]. unfold started in *; simpl in *. done.
      * rewrite take_snoc_le; [done|]. unfold started, opened in *; simpl in *.
        destruct (m_stage m0); lia.
      * rewrite take_snoc_le; [done|]. unfold started in *; simpl in *.
        destruct (m_stage m0); lia.
    + (* worker *)
      apply mon_next_Some in Hs as (Hst & Hl & ->). rewrite Hp in Hl.
      unfold started, opened in *; simpl in *. rewrite Hst in *.
      split; unfold pushes, workers, begins, completions, started, opened;
        rewrite ?omap_app; simpl; rewrite ?app_nil_r; try done.
      * apply lookup_lt_Some in Hl. lia.
      * rewrite fmap_app, Hw. simpl. by erewrite take_S_r.
    + (* begin *)
      apply mon_next_Some in Hs as (Hst & Hl & ->). rewrite Hp in Hl.
      unfold started, opened in *; simpl in *. rewrite Hst in *.
      split; unfold pushes, workers, begins, completions, started, opened;
        rewrite ?omap_app; simpl; rewrite ?app_nil_r; try done.
      rewrite Hbe. by erewrite take_S_r.
    + (* return *)
      apply mon_next_Some in Hs as (Hst & Hl & ->). rewrite Hp in Hl.
      unfold started, opened in *; simpl in *. rewrite Hst in *.
      split; unfold pushes, workers, begins, completions, started, opened;
        rewrite ?omap_app; simpl; rewrite ?app_nil_r; try done.
      rewrite Hc. by erewrite take_S_r.
    + (* resolve *)
      apply mon_next_Some in Hs as (Hst & Hl & ->). rewrite Hp in Hl.
      unfold started, opened in *; simpl in *. rewrite Hst in *.
      split; unfold pushes, workers, begins, completions, started, opened;
        rewrite ?omap_app; simpl; rewrite ?app_nil_r; try done.
      rewrite Hc. by erewrite take_S_r.
    + (* fail *) simplify_eq. split; unfold pushes, workers, begins, completions;
        rewrite ?omap_app; simpl; rewrite ?app_nil_r; done.
Qed.

(** ** Steps that keep the invariant *)

Lemma silent_monitor tr new :
  Forall silent new -> monitor (tr ++ new) = monitor tr.
Proof.
  induction new as [|e new IH] using rev_ind; intros H.
  - by rewrite app_nil_r.
  - apply Forall_app in H as [H1 H2]. rewrite app_assoc, monitor_snoc, IH by done.
    rewrite Forall_singleton in H2. destruct (monitor tr); [|done].
    destruct e; simpl in *; done.
Qed.

Lemma silent_omap {A} (f : Event -> option A) new :
  (forall e, silent e -> f e = None) -> Forall silent new -> omap f new = [].
Proof.
  intros Hf. induction 1 as [|e new He _ IH]; [done|].
  simpl. by rewrite (Hf e He).
Qed.

Lemma silent_elem e tr new :
  Forall silent new -> ~ silent e -> e ∈ tr ++ new -> e ∈ tr.
Proof.
  intros Hs He [H|H]%elem_of_app; [done|].
  rewrite list.Forall_forall in Hs. destruct He. by apply Hs.
Qed.

Lemma accepted_started_le w m owed :
  Base w m owed -> started m <= length (pushes_ty (trace w)).
Proof.
  intros B. pose proof (acc_bound _ _ (monitor_accepted _ _ (base_monitor _ _ _ B))) as H.
  by rewrite pushes_fst, length_fmap in H.
Qed.

Lemma accepted_workers_length tr m :
  Accepted tr m -> length (workers tr) = started m.
Proof.
  intros A. rewrite <- (length_fmap fst), (acc_workers _ _ A), length_take.
  pose proof (acc_bound _ _ A). lia.
Qed.

Lemma base_silent w w' m owed ps new :
  Base w m owed -> Kept w w' ->
  waiting (the_queue w') = waiting (the_queue w) ->
  uuid_drawn w' = uuid_drawn w ->
  promises w' = promises w ++ ps ->
  trace w' = trace w ++ new ->
  Forall silent new ->
  Base w' m owed.
Proof.
  intros B [Kc Ks Ku] Hw Hd Hp Ht Hs.
  assert (Hpt : pushes_ty (trace w') = pushes_ty (trace w)).
  { rewrite Ht. unfold pushes_ty. rewrite omap_app, (silent_omap _ new), app_nil_r; try done.
    by intros []. }
  assert (Hwk : workers (trace w') = workers (trace w)).
  { rewrite Ht. unfold workers. rewrite omap_app, (silent_omap _ new), app_nil_r; try done.
    by intros []. }
  destruct B as [B1 B2 B3 B4 B5 B6 B7 B8 B9 B10]. split.
  - by rewrite Ht, silent_monitor.
  - by rewrite Kc.
  - intros p Hin. rewrite Hp, length_app. specialize (B3 p Hin). lia.
  - intros Hne. by apply Ks, B4.
  - by rewrite Hpt, Hw.
  - by rewrite Hd.
  - rewrite Hpt, Hwk, Ku. done.
  - intros p s Hin. rewrite Ht in Hin. apply silent_elem in Hin; [|done|by intros []].
    destruct (B8 p s Hin) as (tok & -> & Hin'). exists tok. split; [done|].
    rewrite Ht. apply elem_of_app. by left.
  - intros e p v Hin Hc. rewrite Ht in Hin. apply silent_elem in Hin; [|done|].
    + destruct (B9 e p v Hin Hc) as [H|H]; [left|by right].
      rewrite Hp. by apply lookup_app_l_Some.
    + intros He. by destruct e.
  - intros e. rewrite Hw, Hp. intros Hin. by apply lookup_app_l_Some, B10.
Qed.

Lemma elem_of_snoc_inv {A} (x y : A) (l : list A) :
  x ∈ l ++ [y] -> x ∈ l \/ x = y.
Proof. intros [H|H%list_elem_of_singleton]%elem_of_app; auto. Qed.

(** [push] took a task; it joins the list of the queue. *)
Lemma base_pushed w w' m owed e par :
  Base w m owed -> Kept w w' ->
  waiting (the_queue w') = waiting (the_queue w) ++ [e] ->
  asyncStorage w' = Some tt -> is_Some (eventSystemQueue w') ->
  uuid_drawn w' = uuid_drawn w ->
  callback e = length (promises w) ->
  promises w' = promises w ++ [Pending] ->
  trace w' = trace w ++ [EvPush (callback e) (task_type (value e)) par] ->
  Base w' {| m_pushes := m_pushes m ++ [callback e]; m_done := m_done m;
             m_stage := m_stage m |} owed.
Proof.
  intros B [Kc Ks Ku] Hw Ha Hq Hd Hcb Hp Ht.
  pose proof (accepted_started_le _ _ _ B) as Hle.
  destruct B as [B1 B2 B3 B4 B5 B6 B7 B8 B9 B10].
  assert (Hpt : pushes_ty (trace w') = pushes_ty (trace w) ++ [entry_key e]).
  { rewrite Ht. unfold pushes_ty. by rewrite omap_app. }
  assert (Hwk : workers (trace w') = workers (trace w)).
  { rewrite Ht. unfold workers. by rewrite omap_app, app_nil_r. }
  split; simpl.
  - rewrite Ht, monitor_snoc, B1. simpl. rewrite decide_False; [done|].
    intros Hin%B3. lia.
  - by rewrite Kc.
  - intros p [Hin| ->]%elem_of_snoc_inv; rewrite Hp, length_app; simpl.
    + specialize (B3 p Hin). lia.
    + lia.
  - done.
  - unfold started in *; simpl. rewrite Hpt, Hw, map_app, drop_app_le by done.
    by rewrite B5.
  - by rewrite Hd.
  - rewrite Hpt, Hwk, Ku. intros k p tok Hk. destruct (B7 k p tok Hk) as (ty & H1 & H2).
    exists ty. split; [|done]. by apply lookup_app_l_Some.
  - intros p s Hin. rewrite Ht in Hin. apply elem_of_snoc_inv in Hin as [Hin|?]; [|done].
    destruct (B8 p s Hin) as (tok & -> & Hin'). exists tok. split; [done|].
    rewrite Ht. apply elem_of_app. by left.
  - intros e' p v Hin Hc. rewrite Ht in Hin. apply elem_of_snoc_inv in Hin as [Hin| ->]; [|done].
    destruct (B9 e' p v Hin Hc) as [H|H]; [left|by right].
    rewrite Hp. by apply lookup_app_l_Some.
  - intros e'. rewrite Hw, Hp. intros [Hin| ->]%elem_of_snoc_inv.
    + by apply lookup_app_l_Some, B10.
    + rewrite Hcb. by apply list_lookup_middle.
Qed.

(** The queue hands the head of its list to the worker. *)
Lemma base_handed w w' m owed next :
  Base w m owed -> Kept w w' -> m_stage m = Quiet ->
  waiting (the_queue w) = next :: waiting (the_queue w') ->
  uuid_drawn w' = S (uuid_drawn w) ->
  promises w' = promises w ->
  trace w' = trace w ++
    [EvWorker (callback next) (token (task_type (value next)) (uuid_v4 w (uuid_drawn w)))] ->
  Base w' {| m_pushes := m_pushes m; m_done := m_done m; m_stage := Handed |} owed
  /\ m_pushes m !! m_done m = Some (callback next).
Proof.
  intros B [Kc Ks Ku] Hst Hw Hd Hp Ht.
  pose proof (monitor_accepted _ _ (base_monitor _ _ _ B)) as A.
  pose proof (accepted_workers_length _ _ A) as Hwl.
  destruct B as [B1 B2 B3 B4 B5 B6 B7 B8 B9 B10].
  unfold started in *; simpl in *. rewrite Hst in *.
  assert (Hpt : pushes_ty (trace w') = pushes_ty (trace w)).
  { rewrite Ht. unfold pushes_ty. by rewrite omap_app, app_nil_r. }
  assert (Hwk : workers (trace w') = workers (trace w) ++
    [(callback next, token (task_type (value next)) (uuid_v4 w (uuid_drawn w)))]).
  { rewrite Ht. unfold workers. by rewrite omap_app. }
  assert (Hnext : pushes_ty (trace w) !! m_done m = Some (entry_key next)).
  { rewrite <- (Nat.add_0_r (m_done m)), <- lookup_drop, B5, Hw. done. }
  assert (Hnext' : m_pushes m !! m_done m = Some (callback next)).
  { rewrite (acc_pushes _ _ A), pushes_fst, list_lookup_fmap, Hnext. done. }
  split; [|done]. split; unfold started; simpl.
  - rewrite Ht, monitor_snoc, B1. simpl. unfold mon_next. rewrite Hst.
    by rewrite decide_True.
  - by rewrite Kc.
  - intros p Hin. rewrite Hp. by apply B3.
  - intros Hne. by apply Ks, B4.
  - rewrite Hpt. rewrite Hw in B5.
    replace (S (m_done m)) with (m_done m + 1) by lia.
    by rewrite <- drop_drop, B5.
  - by rewrite Hd, B6.
  - rewrite Hpt, Hwk, Ku. intros k p tok Hk.
    apply lookup_app_Some in Hk as [Hk|[Hk1 Hk2]]; [by apply B7|].
    rewrite Hwl in *. destruct (k - m_done m) as [|] eqn:E; [|done].
    simplify_eq/=. assert (k = m_done m) as -> by lia.
    exists (task_type (value next)). by rewrite B6.
  - intros p s Hin. rewrite Ht in Hin. apply elem_of_snoc_inv in Hin as [Hin|?]; [|done].
    destruct (B8 p s Hin) as (tok & -> & Hin'). exists tok. split; [done|].
    rewrite Ht. apply elem_of_app. by left.
  - intros e' p v Hin Hc. rewrite Ht in Hin. apply elem_of_snoc_inv in Hin as [Hin| ->]; [|done].
    rewrite Hp. by apply B9.
  - intros e' Hin. rewrite Hp. apply B10. rewrite Hw. by right.
Qed.

(** The handler body starts. *)
Lemma base_begun w w' m owed p tok :
  Base w m owed -> Kept w w' -> m_stage m = Handed ->
  m_pushes m !! m_done m = Some p ->
  EvWorker p tok ∈ trace w ->
  waiting (the_queue w') = waiting (the_queue w) ->
  uuid_drawn w' = uuid_drawn w ->
  promises w' = promises w ->
  trace w' = trace w ++ [EvBegin p (Some tok)] ->
  Base w' {| m_pushes := m_pushes m; m_done := m_done m; m_stage := Open |} owed.
Proof.
  intros B [Kc Ks Ku] Hst Hl Htok Hw Hd Hp Ht.
  destruct B as [B1 B2 B3 B4 B5 B6 B7 B8 B9 B10].
  unfold started in *; simpl in *. rewrite Hst in *.
  assert (Hpt : pushes_ty (trace w') = pushes_ty (trace w)).
  { rewrite Ht. unfold pushes_ty. by rewrite omap_app, app_nil_r. }
  assert (Hwk : workers (trace w') = workers (trace w)).
  { rewrite Ht. unfold workers. by rewrite omap_app, app_nil_r. }
  split; unfold started; simpl.
  - rewrite Ht, monitor_snoc, B1. simpl. unfold mon_next. rewrite Hst.
    by rewrite decide_True.
  - by rewrite Kc.
  - intros q Hin. rewrite Hp. by apply B3.
  - intros Hne. by apply Ks, B4.
  - by rewrite Hpt, Hw.
  - by rewrite Hd.
  - by rewrite Hpt, Hwk, Ku.
  - intros q s Hin. rewrite Ht in Hin. rewrite Ht.
    apply elem_of_snoc_inv in Hin as [Hin|Heq].
    + destruct (B8 q s Hin) as (tok' & -> & Hin'). exists tok'. split; [done|].
      apply elem_of_app. by left.
    + simplify_eq. exists tok. split; [done|]. apply elem_of_app. by left.
  - intros e' q v Hin Hc. rewrite Ht in Hin. apply elem_of_snoc_inv in Hin as [Hin| ->]; [|done].
    rewrite Hp. by apply B9.
  - intros e'. rewrite Hw, Hp. apply B10.
Qed.

(** The handler completed; its promise is still to be settled. *)
Lemma base_completed w w' m ev p v :
  Base w m None -> Kept w w' -> m_stage m = Open ->
  m_pushes m !! m_done m = Some p ->
  completed_with ev = Some (p, v) ->
  waiting (the_queue w') = waiting (the_queue w) ->
  uuid_drawn w' = uuid_drawn w ->
  promises w' = promises w ->
  trace w' = trace w ++ [ev] ->
  Base w' {| m_pushes := m_pushes m; m_done := S (m_done m); m_stage := Quiet |} (Some ev).
Proof.
  intros B [Kc Ks Ku] Hst Hl Hev Hw Hd Hp Ht.
  destruct B as [B1 B2 B3 B4 B5 B6 B7 B8 B9 B10].
  unfold started in *; simpl in *. rewrite Hst in *.
  assert (Hpt : pushes_ty (trace w') = pushes_ty (trace w)).
  { rewrite Ht. unfold pushes_ty. rewrite omap_app. destruct ev; simplify_eq/=; by rewrite app_nil_r. }
  assert (Hwk : workers (trace w') = workers (trace w)).
  { rewrite Ht. unfold workers. rewrite omap_app. destruct ev; simplify_eq/=; by rewrite app_nil_r. }
  split; unfold started; simpl.
  - rewrite Ht, monitor_snoc, B1. simpl.
    destruct ev; simplify_eq/=; unfold mon_next; rewrite Hst; by rewrite decide_True.
  - by rewrite Kc.
  - intros q Hin. rewrite Hp. by apply B3.
  - intros Hne. by apply Ks, B4.
  - by rewrite Hpt, Hw.
  - by rewrite Hd.
  - by rewrite Hpt, Hwk, Ku.
  - intros q s Hin. rewrite Ht in Hin. rewrite Ht.
    apply elem_of_snoc_inv in Hin as [Hin|Heq]; [|by destruct ev].
    destruct (B8 q s Hin) as (tok' & -> & Hin'). exists tok'. split; [done|].
    apply elem_of_app. by left.
  - intros e' q v' Hin Hc. rewrite Ht in Hin. apply elem_of_snoc_inv in Hin as [Hin| ->]; [|by right].
    rewrite Hp. destruct (B9 e' q v' Hin Hc); [by left|done].
  - intros e'. rewrite Hw, Hp. apply B10.
Qed.

(** The callback of the entry settles the promise that was owed. *)
Lemma base_settled w w' m ev p v :
  Base w m (Some ev) -> Kept w w' ->
  completed_with ev = Some (p, v) ->
  promises w !! p = Some Pending ->
  (forall e, e ∈ waiting (the_queue w) -> callback e <> p) ->
  waiting (the_queue w') = waiting (the_queue w) ->
  uuid_drawn w' = uuid_drawn w ->
  promises w' = <[p := Fulfilled v]> (promises w) ->
  trace w' = trace w ->
  Base w' m None.
Proof.
  intros B [Kc Ks Ku] Hev Hpend Hother Hw Hd Hp Ht.
  destruct B as [B1 B2 B3 B4 B5 B6 B7 B8 B9 B10].
  split; rewrite ?Ht, ?Hw, ?Hd, ?Ku, ?Kc; try done.
  - intros q Hin. rewrite Hp, length_insert. by apply B3.
  - intros Hne. by apply Ks, B4.
  - intros e' q v' Hin Hc. left. rewrite Hp.
    destruct (B9 e' q v' Hin Hc) as [H|H].
    + rewrite list_lookup_insert_ne; [done|]. intros ->. congruence.
    + simplify_eq. apply list_lookup_insert_eq. by eapply lookup_lt_Some.
  - intros e' Hin. rewrite Hp, list_lookup_insert_ne; [by apply B10|].
    intros Heq. by eapply Hother.
Qed.

Lemma inflight_kept w w' m m' t tok :
  InFlight w m t tok ->
  running (the_queue w') = running (the_queue w) ->
  (exists ps, promises w' = promises w ++ ps) ->
  (exists new, trace w' = trace w ++ new) ->
  started m' = started m ->
  (exists l, m_pushes m' = m_pushes m ++ l) ->
  InFlight w' m' t tok.
Proof.
  intros [F1 (n & F2 & F2') F3 F4] Hr [ps Hp] [new Ht] Hs [l Hl]. split.
  - by rewrite Hr.
  - exists n. rewrite Hs, Hl. split; [done|]. by apply lookup_app_l_Some.
  - rewrite Hp. by apply lookup_app_l_Some.
  - rewrite Ht. apply elem_of_app. by left.
Qed.

Lemma started_quietly w m w' m' : Quietly w m w' m' -> started m' = started m.
Proof. intros Q. unfold started. by rewrite (q_stage _ _ _ _ Q), (q_done _ _ _ _ Q). Qed.

Lemma inflight_quietly w w' m m' t tok :
  InFlight w m t tok -> Quietly w m w' m' -> InFlight w' m' t tok.
Proof.
  intros F Q. eapply inflight_kept; eauto using started_quietly.
  - apply Q.
  - apply Q.
  - destruct (q_trace _ _ _ _ Q) as (new & ? & _). eauto.
  - apply Q.
Qed.

Lemma quietly_refl w m : Quietly w m w m.
Proof.
  split; try done; try (exists []; by rewrite app_nil_r).
Qed.

Lemma quietly_trans w1 m1 w2 m2 w3 m3 :
  Quietly w1 m1 w2 m2 -> Quietly w2 m2 w3 m3 -> Quietly w1 m1 w3 m3.
Proof.
  intros [A1 A2 A3 A4 A5 [ps1 A8] (n1 & A9 & A9') A10 A11 [l1 A12]]
         [C1 C2 C3 C4 C5 [ps2 C8] (n2 & C9 & C9') C10 C11 [l2 C12]].
  split; try congruence.
  - intros H. rewrite C2 by congruence. by apply A2.
  - exists (ps1 ++ ps2). by rewrite C8, A8, app_assoc.
  - exists (n1 ++ n2). rewrite C9, A9, app_assoc. split; [done|].
    apply Forall_app. split; [done|]. by rewrite <- A5.
  - exists (l1 ++ l2). by rewrite C12, A12, app_assoc.
Qed.

Lemma body_quietly w w' m m' t tok :
  Body w m t tok -> Quietly w m w' m' -> Body w' m' t tok.
Proof.
  intros [] Q. split.
  - by eapply inflight_quietly.
  - by rewrite (q_stage _ _ _ _ Q).
  - by rewrite (q_micro _ _ _ _ Q).
  - by rewrite (q_macro _ _ _ _ Q).
  - by rewrite (q_store _ _ _ _ Q).
Qed.

Lemma phase_quietly w w' m m' owed :
  Phase w m owed -> Quietly w m w' m' -> Phase w' m' owed.
Proof.
  intros P Q.
  pose proof (q_running _ _ _ _ Q) as Hr. pose proof (q_micro _ _ _ _ Q) as Hmi.
  pose proof (q_macro _ _ _ _ Q) as Hma. pose proof (q_stage _ _ _ _ Q) as Hst.
  destruct P.
  - apply PIdle; try congruence. rewrite (q_idle _ _ _ _ Q); done.
  - eapply PScheduled; eauto using inflight_quietly; congruence.
  - eapply PSuspended; eauto using inflight_quietly; try congruence.
    rewrite Hmi, Hma. eassumption.
  - apply PStalled; congruence.
  - eapply PResolved; eauto using inflight_quietly; congruence.
Qed.

Lemma kept_refl w : Kept w w.
Proof. by split. Qed.

(** A call that does not reach the worker keeps the invariant. *)
Lemma call_quiet h a w m owed :
  Base w m owed ->
  sourceEvents w !! h = None \/ plugin_of h w = None
    \/ (concurrency (the_queue w) <= running (the_queue w))%Z ->
  exists m', Base (call h a w).1 m' owed /\ Quietly w m (call h a w).1 m'.
Proof.
  intros B Hcase.
  destruct (sourceEvents w !! h) as [fn|] eqn:Hfn.
  2:{ rewrite call_not_a_function by done. exists m. split; [done|apply quietly_refl]. }
  destruct (plugin_of h w) as [plugin|] eqn:Hpl.
  2:{ rewrite (call_unregistered _ _ _ _ Hfn Hpl). simpl. exists m. split.
      - eapply (base_silent w _ _ _ [Rejected not_registered]
                  [EvCall h a (length (promises w))] B); simpl; try done.
        by repeat constructor.
      - split; simpl; try done; eauto.
        + eexists. split; [done|]. by repeat constructor.
        + exists []. by rewrite app_nil_r. }
  destruct Hcase as [?|[?|Hbusy]]; try done.
  rewrite (call_busy _ _ _ _ _ Hfn Hpl Hbusy). simpl.
  set (e := entry_of fn a plugin w).
  set (w1 := {| eventSystemQueue := Some (with_waiting (waiting (the_queue w) ++ [e]) (the_queue w));
                asyncStorage := Some tt; store := store w; sourceEvents := sourceEvents w;
                promises := promises w ++ [Pending];
                microtasks := microtasks w; macrotasks := macrotasks w;
                uuid_v4 := uuid_v4 w; uuid_drawn := uuid_drawn w; uncaught := uncaught w;
                trace := trace w ++ [EvPush (callback e) (task_type (value e)) (store w)] |}).
  assert (B1 : Base w1 {| m_pushes := m_pushes m ++ [callback e]; m_done := m_done m;
                          m_stage := m_stage m |} owed).
  { eapply base_pushed; [exact B| | | | | | | |]; simpl; try done. }
  eexists. split.
  - eapply (base_silent w1 _ _ _ [] [EvCall h a (length (promises w))] B1);
      simpl; try done.
    + by rewrite app_nil_r.
    + by rewrite <- app_assoc.
    + by repeat constructor.
  - split; simpl; try done; eauto.
    + intros H0. rewrite H0 in Hbusy. rewrite (base_concurrency _ _ _ B) in Hbusy. lia.
    + eexists. split; [done|]. by repeat constructor.
Qed.

Lemma busy_quietly w m owed w' m' :
  Base w m owed -> Base w' m' owed -> Quietly w m w' m' ->
  (concurrency (the_queue w) <= running (the_queue w))%Z ->
  (concurrency (the_queue w') <= running (the_queue w'))%Z.
Proof.
  intros B B' Q H. rewrite (q_running _ _ _ _ Q).
  by rewrite (base_concurrency _ _ _ B'), <- (base_concurrency _ _ _ B).
Qed.

Lemma assign_type_quiet h v w m owed :
  Base w m owed ->
  Base (assign_type h v w).1 m owed /\ Quietly w m (assign_type h v w).1 m.
Proof.
  intros B. unfold assign_type. destruct (sourceEvents w !! h) as [fn|];
    [|split; [done|apply quietly_refl]].
  destruct (assign v (prop_type fn)); [|split; [done|apply quietly_refl]]. simpl. split.
  - apply (base_silent w _ m owed [] [] B); simpl; try done; by rewrite app_nil_r.
  - split; simpl; try done; exists []; by rewrite app_nil_r.
Qed.

Lemma assign_plugin_quiet h v w m owed :
  Base w m owed ->
  Base (assign_plugin h v w).1 m owed /\ Quietly w m (assign_plugin h v w).1 m.
Proof.
  intros B. unfold assign_plugin. destruct (sourceEvents w !! h) as [fn|];
    [|split; [done|apply quietly_refl]].
  destruct (assign v (prop_plugin fn)); [|split; [done|apply quietly_refl]]. simpl. split.
  - apply (base_silent w _ m owed [] [] B); simpl; try done; by rewrite app_nil_r.
  - split; simpl; try done; exists []; by rewrite app_nil_r.
Qed.

Lemma new_promise_quiet st w m owed :
  Base w m owed ->
  Base (new_promise st w).1 m owed /\ Quietly w m (new_promise st w).1 m.
Proof.
  intros B. unfold new_promise. simpl. split.
  - apply (base_silent w _ m owed [st] [] B); simpl; try done; by rewrite app_nil_r.
  - split; simpl; try done; try (exists []; by rewrite app_nil_r). by exists [st].
Qed.

Lemma discard_cases r w : discard r w = w \/ exists e, discard r w = unhandled e w.
Proof.
  destruct r as [v|p]; simpl; [by left|]. unfold drop_promise.
  destruct (promises w !! p) as [[| |e]|]; eauto.
Qed.

Lemma drop_promise_cases p w :
  drop_promise p w = w \/ exists e, drop_promise p w = unhandled e w.
Proof. apply (discard_cases (RPromise p)).
Qed.

(** Dropping a promise touches nothing but the errors reported. *)
Lemma discard_quiet r w m owed :
  Base w m owed -> Base (discard r w) m owed /\ Quietly w m (discard r w) m.
Proof.
  intros B. destruct (discard_cases r w) as [->|[e ->]]; [split; [done|apply quietly_refl]|].
  split.
  - apply (base_silent w _ m owed [] [] B); simpl; try done; by rewrite app_nil_r.
  - split; simpl; try done; exists []; by rewrite app_nil_r.
Qed.

(** [runEvent] while the queue is busy: every call it makes is quiet. *)
Lemma runEvent_quiet hs name a w m owed :
  Base w m owed ->
  (concurrency (the_queue w) <= running (the_queue w))%Z ->
  exists m', Base (runEvent hs name a w).1 m' owed
             /\ Quietly w m (runEvent hs name a w).1 m'.
Proof.
  intros B Hbusy. unfold runEvent, async_function.
  assert (Hloop : exists m1, Base (for_of (runEvent_step name a) hs w).1 m1 owed
                    /\ Quietly w m (for_of (runEvent_step name a) hs w).1 m1).
  { clear -B Hbusy. revert w m B Hbusy.
    induction hs as [|h hs IH]; intros w m B Hbusy; simpl.
    - exists m. split; [done|apply quietly_refl].
    - assert (Hstep : exists m1, Base (runEvent_step name a h w).1 m1 owed
                        /\ Quietly w m (runEvent_step name a h w).1 m1).
      { unfold runEvent_step. destruct (sourceEvents w !! h) as [fn|];
          [|exists m; split; [done|apply quietly_refl]].
        case_decide; [|exists m; split; [done|apply quietly_refl]].
        destruct (call_quiet h a w m owed B) as (m1 & B1 & Q1); [auto|].
        exists m1. destruct (call h a w) as [w1 [r|e]]; simpl in *; [|done].
        destruct (discard_quiet r w1 m1 owed B1) as [B2 Q2].
        split; [done|]. by eapply quietly_trans. }
      destruct Hstep as (m1 & B1 & Q1).
      destruct (runEvent_step name a h w) as [w1 [r|e]]; simpl in *; [|by exists m1].
      destruct (IH w1 m1 B1 (busy_quietly w m owed w1 m1 B B1 Q1 Hbusy)) as (m2 & B2 & Q2).
      exists m2. split; [done|]. by eapply quietly_trans. }
  destruct Hloop as (m1 & B1 & Q1).
  destruct (for_of _ hs w) as [w1 [r|e]]; simpl in *; exists m1;
    destruct (new_promise_quiet (Fulfilled JUndefined) w1 m1 owed B1) as [B2 Q2];
    destruct (new_promise_quiet (Rejected e) w1 m1 owed B1) as [B3 Q3] || idtac;
    (split; [done|]); eapply quietly_trans; eauto.
Qed.

(** Handler code, run while the queue is busy, leaves the task in flight
    alone. *)
Lemma run_code_quiet c w m owed :
  Base w m owed ->
  (concurrency (the_queue w) <= running (the_queue w))%Z ->
  exists m', Base (run_code c w).1 m' owed /\ Quietly w m (run_code c w).1 m'.
Proof.
  revert w m. induction c as [v|e|h a k IH|hs name a k IH|h v k IH|h v k IH|q k _|];
    intros w m B Hbusy; simpl;
    try (exists m; split; [done|apply quietly_refl]).
  - destruct (call_quiet h a w m owed B) as (m1 & B1 & Q1); [auto|].
    destruct (call h a w) as [w1 [r|e]]; simpl in *.
    + destruct (discard_quiet r w1 m1 owed B1) as [B1' Q1'].
      pose proof (quietly_trans _ _ _ _ _ _ Q1 Q1') as Q1''.
      destruct (IH (discard r w1) m1 B1') as (m2 & B2 & Q2);
        [exact (busy_quietly w m owed _ m1 B B1' Q1'' Hbusy)|].
      exists m2. split; [done|]. by eapply quietly_trans.
    + by exists m1.
  - destruct (runEvent_quiet hs name a w m owed B Hbusy) as (m1 & B1 & Q1).
    destruct (runEvent hs name a w) as [w1 p]. simpl in *.
    destruct (discard_quiet (RPromise p) w1 m1 owed B1) as [B1' Q1']. simpl in *.
    pose proof (quietly_trans _ _ _ _ _ _ Q1 Q1') as Q1''.
    destruct (IH (drop_promise p w1) m1 B1') as (m2 & B2 & Q2);
      [exact (busy_quietly w m owed _ m1 B B1' Q1'' Hbusy)|].
    exists m2. split; [done|]. by eapply quietly_trans.
  - destruct (assign_plugin_quiet h v w m owed B) as [B1 Q1].
    destruct (assign_plugin h v w) as [w1 [r|e]]; simpl in *.
    + destruct (IH w1 m B1) as (m2 & B2 & Q2);
        [exact (busy_quietly w m owed w1 m B B1 Q1 Hbusy)|].
      exists m2. split; [done|]. by eapply quietly_trans.
    + by exists m.
  - destruct (assign_type_quiet h v w m owed B) as [B1 Q1].
    destruct (assign_type h v w) as [w1 [r|e]]; simpl in *.
    + destruct (IH w1 m B1) as (m2 & B2 & Q2);
        [exact (busy_quietly w m owed w1 m B B1 Q1 Hbusy)|].
      exists m2. split; [done|]. by eapply quietly_trans.
    + by exists m.
Qed.

(** ** What [worked] does *)

Lemma worked_last t v w q :
  eventSystemQueue w = Some q -> waiting q = [] ->
  promises w !! callback t = Some Pending ->
  worked worker push_callback t None v w =
    ({| eventSystemQueue := Some (with_running (running q - 1) q);
        asyncStorage := asyncStorage w; store := store w; sourceEvents := sourceEvents w;
        promises := <[callback t := Fulfilled v]> (promises w);
        microtasks := microtasks w; macrotasks := macrotasks w;
        uuid_v4 := uuid_v4 w; uuid_drawn := uuid_drawn w;
        uncaught := uncaught w; trace := trace w |},
     Normal tt).
Proof.
  intros Hq Hw Hp. unfold worked, release, push_callback, resolve, settle.
  rewrite Hp. simpl. rewrite Hq, Hw. reflexivity.
Qed.

Lemma worked_next t v w q next rest :
  eventSystemQueue w = Some q -> waiting q = next :: rest ->
  asyncStorage w = Some tt ->
  promises w !! callback t = Some Pending ->
  worked worker push_callback t None v w =
    ({| eventSystemQueue := Some (with_waiting rest q);
        asyncStorage := Some tt; store := store w; sourceEvents := sourceEvents w;
        promises := <[callback t := Fulfilled v]> (promises w);
        microtasks := microtasks w;
        macrotasks := macrotasks w ++
          [{| job_store := Some (token (task_type (value next)) (uuid_v4 w (uuid_drawn w)));
              job_run := RunHandler next |}];
        uuid_v4 := uuid_v4 w; uuid_drawn := S (uuid_drawn w);
        uncaught := uncaught w;
        trace := trace w ++ [EvWorker (callback next)
                               (token (task_type (value next)) (uuid_v4 w (uuid_drawn w)))] |},
     Normal tt).
Proof.
  intros Hq Hw Ha Hp. unfold worked, release, push_callback, resolve, settle.
  rewrite Hp. simpl. rewrite Hq, Hw. unfold worker. simpl. rewrite Ha.
  unfold als_run, draw_uuid, token. destruct w; simpl in *. subst. reflexivity.
Qed.

Lemma waiting_not_inflight w m owed n p e :
  Base w m owed -> m_pushes m !! n = Some p -> n < started m ->
  e ∈ waiting (the_queue w) -> callback e <> p.
Proof.
  intros B Hn Hlt Hin Heq.
  pose proof (monitor_accepted _ _ (base_monitor _ _ _ B)) as A.
  apply list_elem_of_lookup in Hin as [i Hi].
  assert (H : m_pushes m !! (started m + i) = Some (callback e)).
  { rewrite (acc_pushes _ _ A), pushes_fst, list_lookup_fmap, <- lookup_drop.
    rewrite (base_waiting _ _ _ B), list_lookup_fmap, Hi. done. }
  rewrite Heq in H. rewrite (acc_pushes _ _ A) in *.
  pose proof (NoDup_lookup _ _ _ _ (acc_nodup _ _ A) Hn H). lia.
Qed.

(** The entry in flight calls back: its promise is fulfilled and the queue
    moves on, to the next waiting task or to rest. *)
Lemma finish w m t tok ev v :
  Base w m (Some ev) -> completed_with ev = Some (callback t, v) ->
  InFlight w m t tok -> m_stage m = Quiet ->
  microtasks w = [] -> macrotasks w = [] ->
  exists w' m',
    worked worker push_callback t None v w = (w', Normal tt) /\
    Base w' m' None /\ Phase w' m' None /\
    store w' = store w /\ sourceEvents w' = sourceEvents w /\ uncaught w' = uncaught w /\
    promises w' !! callback t = Some (Fulfilled v) /\
    (exists new, trace w' = trace w ++ new /\ pushes_ty new = [] /\ begins new = []).
Proof.
  intros B Hev [Hrun (n & Hn & Hnp) Hpend Htok] Hst Hmi Hma.
  assert (Hne : m_pushes m <> []) by (intros E; by rewrite E in Hnp).
  destruct (base_storage _ _ _ B Hne) as [Hals [q Hq]].
  assert (Hq' : the_queue w = q) by (unfold the_queue; by rewrite Hq).
  assert (Hother : forall e, e ∈ waiting (the_queue w) -> callback e <> callback t).
  { intros e. eapply waiting_not_inflight; [exact B|exact Hnp|lia]. }
  destruct (waiting q) as [|next rest] eqn:Hw.
  - rewrite (worked_last _ _ _ _ Hq Hw Hpend). eexists _, m. split; [done|].
    split; [|split; [|repeat split]]; simpl.
    + eapply base_settled; [exact B| |exact Hev|exact Hpend|exact Hother| | | |];
        unfold the_queue; simpl; try done.
      * split; unfold the_queue; simpl; [by rewrite Hq| |done]. intros _. by split.
      * by rewrite Hq.
    + apply PIdle; unfold the_queue; simpl; try done. rewrite <- Hq', Hrun. done.
    + apply list_lookup_insert_eq. by eapply lookup_lt_Some.
    + exists []. by rewrite app_nil_r.
  - rewrite (worked_next _ _ _ _ _ _ Hq Hw Hals Hpend).
    set (w1 := set_promises (<[callback t := Fulfilled v]> (promises w)) w).
    assert (B1 : Base w1 m None).
    { eapply base_settled; [exact B| |exact Hev|exact Hpend|exact Hother| | | |]; simpl; try done. }
    match goal with |- context [(?x, Normal tt) = _] => set (w2 := x) end.
    destruct (base_handed w1 w2 m None next B1) as [B2 Hnext]; unfold the_queue; simpl; try done.
    { split; unfold the_queue; simpl; [by rewrite Hq| |done]. intros _. by split. }
    { by rewrite Hq. }
    eexists _, _. split; [done|]. split; [exact B2|]. split; [|repeat split]; simpl.
    + eapply (PScheduled _ _ _ next); simpl; try done. split; unfold the_queue; simpl.
      * by rewrite <- Hq'.
      * exists (m_done m). by split.
      * rewrite list_lookup_insert_ne.
        -- apply (base_pending _ _ _ B). rewrite Hq', Hw. by left.
        -- intros Heq. eapply Hother; [|by symmetry]. rewrite Hq', Hw. by left.
      * apply elem_of_app. right. by left.
      * by rewrite Hma.
    + apply list_lookup_insert_eq. by eapply lookup_lt_Some.
    + eexists. split; [done|]. done.
Qed.

(** ** The operations keep the invariant *)

Lemma call_start h a w m fn plugin :
  Base w m None ->
  running (the_queue w) = 0%Z -> waiting (the_queue w) = [] -> m_stage m = Quiet ->
  microtasks w = [] -> macrotasks w = [] ->
  sourceEvents w !! h = Some fn -> plugin_of h w = Some plugin ->
  exists m', Base (call h a w).1 m' None /\ Phase (call h a w).1 m' None.
Proof.
  intros B Hrun Hwait Hst Hmi Hma Hfn Hpl.
  rewrite (call_idle _ _ _ _ _ Hfn Hpl) by (rewrite (base_concurrency _ _ _ B); lia).
  simpl. set (e := entry_of fn a plugin w).
  set (tok := token (closure_type fn) (uuid_v4 w (uuid_drawn w))).
  set (w1 := {| eventSystemQueue := Some (with_waiting [e] (the_queue w));
                asyncStorage := Some tt; store := store w; sourceEvents := sourceEvents w;
                promises := promises w ++ [Pending];
                microtasks := microtasks w; macrotasks := macrotasks w;
                uuid_v4 := uuid_v4 w; uuid_drawn := uuid_drawn w; uncaught := uncaught w;
                trace := trace w ++ [EvPush (callback e) (task_type (value e)) (store w)] |}).
  assert (B1 : Base w1 {| m_pushes := m_pushes m ++ [callback e]; m_done := m_done m;
                          m_stage := m_stage m |} None).
  { eapply base_pushed; [exact B| | | | | | | |]; simpl; try done.
    by rewrite Hwait. }
  set (w2 := {| eventSystemQueue := Some (with_running (running (the_queue w) + 1) (the_queue w));
                asyncStorage := Some tt; store := store w; sourceEvents := sourceEvents w;
                promises := promises w ++ [Pending];
                microtasks := microtasks w;
                macrotasks := macrotasks w ++ [{| job_store := Some tok; job_run := RunHandler e |}];
                uuid_v4 := uuid_v4 w; uuid_drawn := S (uuid_drawn w); uncaught := uncaught w;
                trace := trace w ++ [EvPush (callback e) (task_type (value e)) (store w);
                                     EvWorker (callback e) tok] |}).
  destruct (base_handed w1 w2 _ None e B1) as [B2 Hnext]; simpl; try done.
  { by rewrite Hwait. }
  { by rewrite <- app_assoc. }
  eexists. split.
  - eapply (base_silent w2 _ _ _ [] [EvCall h a (length (promises w))] B2); simpl; try done.
    + by rewrite app_nil_r.
    + by rewrite <- app_assoc.
    + by repeat constructor.
  - eapply (PScheduled _ _ _ e tok); simpl; try done.
    + split; simpl.
      * by rewrite Hrun.
      * exists (m_done m). split; [|done]. done.
      * by apply list_lookup_middle.
      * apply elem_of_app. right. right. by left.
    + by rewrite Hma.
Qed.

Lemma call_keeps h a w m owed :
  Base w m owed -> Phase w m owed ->
  exists m', Base (call h a w).1 m' owed /\ Phase (call h a w).1 m' owed.
Proof.
  intros B P.
  destruct (sourceEvents w !! h) as [fn|] eqn:Hfn.
  2:{ destruct (call_quiet h a w m owed B) as (m' & B' & Q); [auto|].
      exists m'. split; [done|]. by eapply phase_quietly. }
  destruct (plugin_of h w) as [plugin|] eqn:Hpl.
  2:{ destruct (call_quiet h a w m owed B) as (m' & B' & Q); [auto|].
      exists m'. split; [done|]. by eapply phase_quietly. }
  assert (Hbusy : running (the_queue w) = 1%Z ->
    exists m', Base (call h a w).1 m' owed /\ Phase (call h a w).1 m' owed).
  { intros Hr. destruct (call_quiet h a w m owed B) as (m' & B' & Q).
    - right. right. rewrite Hr, (base_concurrency _ _ _ B). lia.
    - exists m'. split; [done|]. by eapply phase_quietly. }
  destruct P as [Hr Hw Hst -> Hmi Hma|t tok F|t tok k F|Hr|t tok v F];
    try (apply Hbusy; first [exact Hr | apply F]).
  by eapply call_start.
Qed.

Lemma call_store h a w : store (call h a w).1 = store w.
Proof.
  destruct (sourceEvents w !! h) as [fn|] eqn:Hfn;
    [|by rewrite call_not_a_function].
  destruct (plugin_of h w) as [plugin|] eqn:Hpl;
    [|by rewrite (call_unregistered _ _ _ _ Hfn Hpl)].
  destruct (decide (concurrency (the_queue w) <= running (the_queue w))%Z).
  - by rewrite (call_busy _ _ _ _ _ Hfn Hpl).
  - rewrite (call_idle _ _ _ _ _ Hfn Hpl); [done|lia].
Qed.

Lemma call_inv h a w : Inv w -> Inv (call h a w).1.
Proof.
  intros (m & owed & B & P & Hs).
  destruct (call_keeps h a w m owed B P) as (m' & B' & P').
  exists m', owed. by rewrite call_store.
Qed.

Lemma phase_kept w w' m owed :
  Phase w m owed ->
  running (the_queue w') = running (the_queue w) ->
  waiting (the_queue w') = waiting (the_queue w) ->
  microtasks w' = microtasks w -> macrotasks w' = macrotasks w ->
  (exists ps, promises w' = promises w ++ ps) ->
  (exists new, trace w' = trace w ++ new) ->
  Phase w' m owed.
Proof.
  intros P Hr Hw Hmi Hma Hp Ht.
  assert (HF : forall t tok, InFlight w m t tok -> InFlight w' m t tok).
  { intros t tok F. eapply inflight_kept; eauto. exists []. by rewrite app_nil_r. }
  destruct P.
  - apply PIdle; congruence.
  - eapply PScheduled; eauto; congruence.
  - eapply PSuspended; eauto. rewrite Hmi, Hma. eassumption.
  - apply PStalled; congruence.
  - eapply PResolved; eauto; congruence.
Qed.

Lemma inv_kept w w' :
  Inv w -> Kept w w' ->
  running (the_queue w') = running (the_queue w) ->
  waiting (the_queue w') = waiting (the_queue w) ->
  microtasks w' = microtasks w -> macrotasks w' = macrotasks w ->
  uuid_drawn w' = uuid_drawn w ->
  (exists ps, promises w' = promises w ++ ps) ->
  trace w' = trace w -> store w' = store w ->
  Inv w'.
Proof.
  intros (m & owed & B & P & Hs) K Hr Hw Hmi Hma Hd [ps Hp] Ht Hst.
  exists m, owed. split; [|split].
  - apply (base_silent w w' m owed ps [] B K); try done.
    by rewrite app_nil_r.
  - eapply phase_kept; eauto. exists []. by rewrite app_nil_r.
  - congruence.
Qed.

Lemma defineSourceEvent_inv d w : Inv w -> Inv (defineSourceEvent d w).1.
Proof.
  intros I. unfold defineSourceEvent.
  destruct (falsy (def_type d)); [done|].
  destruct (falsy (def_description d)); [done|].
  destruct (def_handler d); [|done]. simpl.
  eapply inv_kept; [exact I| | | | | | | | |]; simpl; try done.
  exists []. by rewrite app_nil_r.
Qed.

Lemma assign_type_inv h v w : Inv w -> Inv (assign_type h v w).1.
Proof.
  intros I. unfold assign_type.
  destruct (sourceEvents w !! h); [|done].
  destruct (assign v (prop_type e)); [|done]. simpl.
  eapply inv_kept; [exact I| | | | | | | | |]; simpl; try done.
  exists []. by rewrite app_nil_r.
Qed.

Lemma assign_plugin_inv h v w : Inv w -> Inv (assign_plugin h v w).1.
Proof.
  intros I. unfold assign_plugin.
  destruct (sourceEvents w !! h); [|done].
  destruct (assign v (prop_plugin e)); [|done]. simpl.
  eapply inv_kept; [exact I| | | | | | | | |]; simpl; try done.
  exists []. by rewrite app_nil_r.
Qed.

Lemma new_promise_inv st w : Inv w -> Inv (new_promise st w).1.
Proof.
  intros I. unfold new_promise. simpl.
  eapply inv_kept; [exact I| | | | | | | | |]; simpl; try done.
  by exists [st].
Qed.

Lemma discard_inv r w : Inv w -> Inv (discard r w).
Proof.
  intros I. destruct (discard_cases r w) as [->|[e ->]]; [done|].
  eapply inv_kept; [exact I| | | | | | | | |]; simpl; try done.
  exists []. by rewrite app_nil_r.
Qed.

Lemma runEvent_step_inv name a h w : Inv w -> Inv (runEvent_step name a h w).1.
Proof.
  intros I. unfold runEvent_step.
  destruct (sourceEvents w !! h); [|done].
  case_decide; [|done].
  pose proof (call_inv h a w I) as I'.
  destruct (call h a w) as [w1 [r|e']]; [|done]. by apply discard_inv.
Qed.

Lemma for_of_inv {A} (f : A -> World -> World * Completion unit) l w :
  (forall x w, Inv w -> Inv (f x w).1) -> Inv w -> Inv (for_of f l w).1.
Proof.
  intros Hf. revert w. induction l as [|x l IH]; intros w I; simpl; [done|].
  pose proof (Hf x w I) as I'. destruct (f x w) as [w1 [r|e]]; simpl in *; auto.
Qed.

Lemma runEvent_inv hs name a w : Inv w -> Inv (runEvent hs name a w).1.
Proof.
  intros I. unfold runEvent, async_function.
  pose proof (for_of_inv (runEvent_step name a) hs w (runEvent_step_inv name a) I) as I'.
  destruct (for_of (runEvent_step name a) hs w) as [w1 [r|e]]; simpl in *;
    by apply new_promise_inv.
Qed.

(** *** One turn of the loop *)

Lemma body_next w m t tok :
  Body w m t tok -> m_pushes m !! m_done m = Some (callback t).
Proof.
  intros [[_ (n & Hn & Hp) _ _] Hst _ _ _]. unfold started in Hn. rewrite Hst in Hn.
  by simplify_eq.
Qed.

Lemma settle_ok w m t tok v :
  Base w m None -> Body w m t tok ->
  exists m' owed, Base (promise_settles t (Normal v) w) m' owed
    /\ Phase (promise_settles t (Normal v) w) m' owed.
Proof.
  intros B Bd. pose proof (body_next _ _ _ _ Bd) as Hnext.
  destruct Bd as [F Hst Hmi Hma Hs].
  eexists _, _. split.
  - eapply (base_completed w _ m (EvResolve (callback t) v) (callback t) v B);
      unfold promise_settles; simpl; try done.
  - unfold promise_settles. eapply (PResolved _ _ _ t tok v); simpl; try done.
    + destruct F as [F1 (n & F2 & F3) F4 F5]. split; simpl; try done.
      * exists n. unfold started in *; simpl. rewrite Hst in F2. by simplify_eq.
      * apply elem_of_app. by left.
    + unfold current_job. simpl. by rewrite Hmi, Hs.
Qed.

Lemma stalled w w' m t tok new :
  Base w m None -> Body w m t tok -> Kept w w' ->
  the_queue w' = the_queue w ->
  microtasks w' = [] -> macrotasks w' = [] ->
  uuid_drawn w' = uuid_drawn w -> promises w' = promises w ->
  trace w' = trace w ++ new -> Forall silent new ->
  Base w' m None /\ Phase w' m None.
Proof.
  intros B [F Hst Hmi Hma Hs] K Hq Hmi' Hma' Hd Hp Ht Hsil. split.
  - apply (base_silent w w' m None [] new B K); try done.
    + by rewrite Hq.
    + by rewrite app_nil_r.
  - apply PStalled; try done. rewrite Hq. apply F.
Qed.

Lemma settle_err w m t tok e :
  Base w m None -> Body w m t tok ->
  Base (promise_settles t (Abrupt e) w) m None
    /\ Phase (promise_settles t (Abrupt e) w) m None.
Proof.
  intros B Bd.
  apply (stalled w _ m t tok [EvFail (callback t) e] B Bd);
    unfold promise_settles; simpl; try done; try apply Bd.
  by repeat constructor.
Qed.

Lemma suspend w m t tok q k :
  Base w m None -> Body w m t tok ->
  Base (schedule q (ResumeHandler t k) w) m None
    /\ Phase (schedule q (ResumeHandler t k) w) m None.
Proof.
  intros B Bd. pose proof Bd as [F Hst Hmi Hma Hs]. split.
  - apply (base_silent w _ m None [] [] B); destruct q; simpl; try done;
      by rewrite app_nil_r.
  - eapply (PSuspended _ _ _ t tok k); try done.
    + eapply inflight_kept; [exact F| | | | |]; destruct q; simpl;
        try done; exists []; by rewrite app_nil_r.
    + destruct q; simpl; unfold current_job; rewrite Hmi, Hma, Hs; auto.
Qed.

Lemma plain_return w m t tok v :
  Base w m None -> Body w m t tok ->
  exists w' m',
    worked worker push_callback t None v (log (EvReturn (callback t) v) w) = (w', Normal tt)
    /\ Base w' m' None /\ Phase w' m' None.
Proof.
  intros B Bd. pose proof (body_next _ _ _ _ Bd) as Hnext.
  destruct Bd as [F Hst Hmi Hma Hs].
  set (ev := EvReturn (callback t) v).
  assert (B1 : Base (log ev w) {| m_pushes := m_pushes m; m_done := S (m_done m);
                                  m_stage := Quiet |} (Some ev)).
  { eapply (base_completed w); [exact B| |exact Hst|exact Hnext| | | | |];
      simpl; try done. }
  destruct (finish (log ev w) _ t tok ev v B1) as (w' & m' & Hw & B' & P' & _); try done.
  - destruct F as [F1 (n & F2 & F3) F4 F5]. split; simpl; try done.
    + exists n. unfold started in *; simpl. rewrite Hst in F2. by simplify_eq.
    + apply elem_of_app. by left.
  - by exists w', m'.
Qed.

Lemma body_busy w m t tok :
  Base w m None -> Body w m t tok ->
  (concurrency (the_queue w) <= running (the_queue w))%Z.
Proof.
  intros B [[Hr _ _ _] _ _ _ _]. rewrite Hr, (base_concurrency _ _ _ B). lia.
Qed.

Lemma resume_handler_keeps w m t tok k :
  Base w m None -> Body w m t tok ->
  exists m' owed, Base (resume_handler t k w).1 m' owed
    /\ Phase (resume_handler t k w).1 m' owed.
Proof.
  intros B Bd. unfold resume_handler.
  destruct (run_code_quiet k w m None B (body_busy _ _ _ _ B Bd)) as (m1 & B1 & Q1).
  pose proof (body_quietly _ _ _ _ _ _ Bd Q1) as Bd1.
  destruct (run_code k w) as [w1 [v|e|q k'|]]; simpl in *.
  - by apply (settle_ok w1 m1 t tok).
  - exists m1, None. by apply (settle_err w1 m1 t tok).
  - exists m1, None. by apply (suspend w1 m1 t tok).
  - exists m1, None. apply (stalled w1 w1 m1 t tok [] B1 Bd1); try done; try apply Bd1.
    by rewrite app_nil_r.
Qed.

Lemma run_handler_keeps w m t tok :
  Base w m None -> InFlight w m t tok -> m_stage m = Handed ->
  microtasks w = [] -> macrotasks w = [] -> store w = Some tok ->
  exists m' owed, Base (run_handler t w).1 m' owed
    /\ Phase (run_handler t w).1 m' owed.
Proof.
  intros B F Hst Hmi Hma Hs. unfold run_handler.
  set (wb := log (EvBegin (callback t) (store w)) w).
  set (mb := {| m_pushes := m_pushes m; m_done := m_done m; m_stage := Open |}).
  assert (Hnext : m_pushes m !! m_done m = Some (callback t)).
  { destruct F as [_ (n & Hn & Hp) _ _]. unfold started in Hn. rewrite Hst in Hn.
    by simplify_eq. }
  assert (Bb : Base wb mb None).
  { apply (base_begun w wb m None (callback t) tok B); simpl; try done.
    - apply F.
    - by rewrite Hs. }
  assert (Bdb : Body wb mb t tok).
  { split; simpl; try done.
    eapply inflight_kept; [exact F| | | | |]; simpl; try done.
    - exists []. by rewrite app_nil_r.
    - eauto.
    - unfold started. simpl. by rewrite Hst.
    - exists []. by rewrite app_nil_r. }
  destruct (run_code_quiet (body (task_handler (value t)) (task_args (value t))
              (actions_of (task_plugin (value t)))) wb mb None Bb
              (body_busy _ _ _ _ Bb Bdb)) as (m1 & B1 & Q1).
  pose proof (body_quietly _ _ _ _ _ _ Bdb Q1) as Bd1.
  destruct (run_code _ wb) as [w1 [v|e|q k'|]]; simpl in *.
  - destruct (is_async (task_handler (value t))).
    + by apply (settle_ok w1 m1 t tok).
    + destruct (truthy (get "then" v)); simpl.
      * exists m1, None. apply (stalled w1 w1 m1 t tok [] B1 Bd1); try done; try apply Bd1.
        by rewrite app_nil_r.
      * destruct (plain_return w1 m1 t tok v B1 Bd1) as (w' & m' & -> & B' & P').
        by exists m', None.
  - destruct (is_async (task_handler (value t))); simpl.
    + exists m1, None. by apply (settle_err w1 m1 t tok).
    + exists m1, None.
      apply (stalled w1 _ m1 t tok [EvFail (callback t) e] B1 Bd1); simpl; try done;
        try apply Bd1.
      by repeat constructor.
  - exists m1, None. by apply (suspend w1 m1 t tok).
  - exists m1, None. apply (stalled w1 w1 m1 t tok [] B1 Bd1); try done; try apply Bd1.
    by rewrite app_nil_r.
Qed.

Lemma seal w m owed (c : Completion unit) :
  Base w m owed -> Phase w m owed ->
  Inv (set_store None match c with
                      | Normal _ => w
                      | Abrupt e => unhandled e w
                      end).
Proof.
  intros B P. exists m, owed.
  assert (H : forall es, Base (set_store None (set_uncaught es w)) m owed
                         /\ Phase (set_store None (set_uncaught es w)) m owed).
  { intros es. split.
    - apply (base_silent w _ m owed [] [] B); simpl; try done; by rewrite app_nil_r.
    - eapply phase_kept; [exact P| | | | | |]; simpl; try done;
        exists []; by rewrite app_nil_r. }
  destruct c as [[]|e].
  - destruct (H (uncaught w)) as [H1 H2]. split; [|split; [|done]].
    + apply (base_silent w _ m owed [] [] B); simpl; try done; by rewrite app_nil_r.
    + eapply phase_kept; [exact P| | | | | |]; simpl; try done;
        exists []; by rewrite app_nil_r.
  - destruct (H (uncaught w ++ [e])) as [H1 H2]. by split.
Qed.

Lemma run_job_keeps j w :
  (exists m' owed', Base (run_callback (job_run j) (set_store (job_store j) w)).1 m' owed'
     /\ Phase (run_callback (job_run j) (set_store (job_store j) w)).1 m' owed') ->
  Inv (run_job j w).
Proof.
  intros (m' & owed' & B & P). unfold run_job.
  destruct (run_callback _ _) as [w1 c]. by eapply seal.
Qed.

Lemma tick_inv w : Inv w -> Inv (tick w).
Proof.
  intros (m & owed & B & P & Hs). unfold tick.
  destruct P as [Hr Hw Hst -> Hmi Hma|t tok F Hst -> Hmi Hma|t tok k F Hst -> Hj
                |Hr Hst -> Hmi Hma|t tok v F Hst -> Hmi Hma].
  - rewrite Hmi, Hma. exists m, None. split; [done|]. split; [|done]. by apply PIdle.
  - rewrite Hmi, Hma. apply run_job_keeps. simpl.
    apply (run_handler_keeps _ m t tok); simpl; try done.
    + apply (base_silent w _ m None [] [] B); simpl; try done; by rewrite app_nil_r.
    + eapply inflight_kept; [exact F| | | | |]; simpl; try done;
        exists []; by rewrite app_nil_r.
  - assert (Hgo : forall w0, microtasks w0 = [] -> macrotasks w0 = [] ->
      store w0 = Some tok -> the_queue w0 = the_queue w ->
      Kept w w0 -> uuid_drawn w0 = uuid_drawn w -> promises w0 = promises w ->
      trace w0 = trace w ->
      exists m' owed', Base (resume_handler t k w0).1 m' owed'
        /\ Phase (resume_handler t k w0).1 m' owed').
    { intros w0 H1 H2 H3 H4 H5 H6 H7 H8.
      apply (resume_handler_keeps w0 m t tok).
      - apply (base_silent w _ m None [] [] B); try done; try by rewrite app_nil_r.
        by rewrite H4.
      - split; try done. eapply inflight_kept; [exact F| | | | |]; try done.
        + by rewrite H4.
        + exists []. by rewrite app_nil_r.
        + exists []. by rewrite app_nil_r.
        + exists []. by rewrite app_nil_r. }
    destruct Hj as [[Hmi Hma]|[Hmi Hma]]; rewrite Hmi, ?Hma;
      apply run_job_keeps; simpl; apply Hgo; simpl; try done.
  - rewrite Hmi, Hma. exists m, None. split; [done|]. split; [|done]. by apply PStalled.
  - rewrite Hmi. apply run_job_keeps. simpl.
    destruct (finish (set_store (Some tok) (set_microtasks [] w)) m t tok
                (EvResolve (callback t) v) v) as (w' & m' & -> & B' & P' & _); simpl; try done.
    + apply (base_silent w _ m _ [] [] B); simpl; try done; by rewrite app_nil_r.
    + eapply inflight_kept; [exact F| | | | |]; simpl; try done;
        exists []; by rewrite app_nil_r.
    + by exists m', None.
Qed.

Lemma init_inv uuids : Inv (init uuids).
Proof.
  exists mon0, None. split; [|split; [|done]].
  - split; simpl; try done; intros; exfalso; eapply elem_of_nil; eassumption.
  - by apply PIdle.
Qed.

Lemma exec_op_inv o w : Inv w -> Inv (exec_op o w).
Proof.
  destruct o; simpl.
  - apply defineSourceEvent_inv.
  - apply assign_type_inv.
  - apply assign_plugin_inv.
  - apply call_inv.
  - apply runEvent_inv.
  - apply tick_inv.
Qed.

Lemma exec_inv ops w : Inv w -> Inv (exec ops w).
Proof.
  revert w. induction ops as [|o ops IH]; intros w I; simpl; [done|].
  apply IH. by apply exec_op_inv.
Qed.

Lemma reachable_inv w : reachable w -> Inv w.
Proof.
  intros (uuids & ops & ->). apply exec_inv, init_inv.
Qed.

(** ** Serial execution in the order of the pushes *)

Lemma monitor_take tr m a :
  monitor tr = Some m -> exists m0, monitor (take a tr) = Some m0.
Proof.
  intros H. rewrite <- (take_drop a tr) in H. by eapply monitor_prefix.
Qed.

(** On an accepted trace the handlers begun are the completed ones and at
    most one more. *)
Lemma accepted_one_open tr m :
  monitor tr = Some m ->
  begins tr = completions tr \/ exists p, begins tr = completions tr ++ [p].
Proof.
  intros H. destruct (monitor_accepted _ _ H) as [Hp Hn Hb Hw Hbe Hc].
  rewrite Hbe, Hc. unfold opened, started in *.
  destruct (m_stage m); auto. right.
  destruct (lookup_lt_is_Some_2 (pushes tr) (m_done m)) as [p Hl]; [lia|].
  exists p. by apply take_S_r.
Qed.

(** On an accepted trace a handler begins only after every task pushed
    before its own has completed. *)
Lemma accepted_order tr m i j p q a ev :
  monitor tr = Some m -> i < j ->
  pushes tr !! i = Some p -> pushes tr !! j = Some q ->
  tr !! a = Some ev -> handed ev = Some q ->
  exists b e, b < a /\ tr !! b = Some e /\ completed e = Some p.
Proof.
  intros Hm Hij Hi Hj Ha Hev.
  pose proof (monitor_accepted _ _ Hm) as A.
  pose proof (take_drop_middle _ _ _ Ha) as Hsplit.
  assert (Hm1 : exists m1, monitor (take a tr ++ [ev]) = Some m1).
  { apply (monitor_prefix _ (drop (S a) tr) m). rewrite <- app_assoc. simpl.
    by rewrite Hsplit. }
  destruct Hm1 as [m1 Hm1]. rewrite monitor_snoc in Hm1.
  destruct (monitor (take a tr)) as [m0|] eqn:Hm0; [simpl in Hm1|done].
  assert (Hq : m_pushes m0 !! m_done m0 = Some q /\ m_stage m0 <> Open).
  { destruct ev; simplify_eq/=; apply mon_next_Some in Hm1 as (Hst & Hq & _);
      rewrite Hst; done. }
  destruct Hq as [Hq Hst].
  destruct (monitor_accepted _ _ Hm0) as [Hp0 Hn0 Hb0 _ _ Hc0].
  assert (Hpre : pushes (take a tr) `prefix_of` pushes tr).
  { exists (pushes (ev :: drop (S a) tr)).
    rewrite <- Hsplit at 1. unfold pushes. by rewrite omap_app. }
  rewrite Hp0 in Hq.
  assert (j = m_done m0) as ->.
  { eapply NoDup_lookup; [apply (acc_nodup _ _ A)|exact Hj|].
    by eapply prefix_lookup_Some. }
  assert (Hi0 : pushes (take a tr) !! i = Some p).
  { destruct (lookup_lt_is_Some_2 (pushes (take a tr)) i) as [p' Hp'].
    - apply lookup_lt_Some in Hq. lia.
    - pose proof (prefix_lookup_Some _ _ _ _ Hp' Hpre) as H. by simplify_eq. }
  assert (Hin : p ∈ completions (take a tr)).
  { rewrite Hc0. apply list_elem_of_lookup. exists i. by rewrite lookup_take_lt. }
  apply list_elem_of_omap in Hin as (e & He & Hce).
  apply list_elem_of_lookup in He as [b Hb].
  apply lookup_take_Some in Hb as [Hb Hlt]. eauto.
Qed.

(** Once the loop has nothing left to run and no handler is open, every
    task pushed has completed: the queue loses no task. *)
Lemma quiescent_done w m owed :
  Base w m owed -> Phase w m owed -> next_job w = None ->
  begins (trace w) = completions (trace w) ->
  completions (trace w) = pushes (trace w).
Proof.
  intros B P Hn Hbc.
  pose proof (monitor_accepted _ _ (base_monitor _ _ _ B)) as A.
  unfold next_job in Hn.
  destruct P as [Hr Hw Hst -> Hmi Hma|t tok F Hst -> Hmi Hma|t tok k F Hst -> Hj
                |Hr Hst -> Hmi Hma|t tok v F Hst -> Hmi Hma].
  - pose proof (base_waiting _ _ _ B) as Hd. rewrite Hw in Hd. simpl in Hd.
    apply (f_equal length) in Hd. rewrite length_drop in Hd. simpl in Hd.
    rewrite (acc_completions _ _ A). apply take_ge.
    rewrite pushes_fst, length_fmap. unfold started in Hd. rewrite Hst in Hd. lia.
  - by rewrite Hmi, Hma in Hn.
  - destruct Hj as [[Hmi Hma]|[Hmi Hma]]; by rewrite Hmi, ?Hma in Hn.
  - pose proof (acc_bound _ _ A) as Hb. unfold started in Hb. rewrite Hst in Hb.
    apply (f_equal length) in Hbc.
    rewrite (acc_begins _ _ A), (acc_completions _ _ A), !length_take in Hbc.
    unfold opened in Hbc. rewrite Hst in Hbc. lia.
  - by rewrite Hmi in Hn.
Qed.

(** C1. Whatever the clients do, the queue keeps its concurrency of 1 and
    runs the tasks one at a time in the order they were pushed: at every
    point of the trace the handlers begun are the completed ones and at most
    one more, handlers begin in push order, and the handler of a task begins
    only after the handler of every task pushed earlier has completed, its
    asynchronous tail included.  No task is lost: when the loop has nothing
    left to run and no handler is open, every task pushed has completed. *)
Theorem C1_serial_fifo w :
  reachable w ->
  concurrency (the_queue w) = 1%Z
  /\ (running (the_queue w) = 0 \/ running (the_queue w) = 1)%Z
  /\ begins (trace w) `prefix_of` pushes (trace w)
  /\ NoDup (pushes (trace w))
  /\ (forall a, begins (take a (trace w)) = completions (take a (trace w))
        \/ exists p, begins (take a (trace w)) = completions (take a (trace w)) ++ [p])
  /\ (forall i j p q a s, i < j ->
        pushes (trace w) !! i = Some p -> pushes (trace w) !! j = Some q ->
        trace w !! a = Some (EvBegin q s) ->
        exists b e, b < a /\ trace w !! b = Some e /\ completed e = Some p)
  /\ (next_job w = None -> begins (trace w) = completions (trace w) ->
        completions (trace w) = pushes (trace w)).
Proof.
  intros (m & owed & B & P & _)%reachable_inv.
  pose proof (base_monitor _ _ _ B) as Hm.
  pose proof (monitor_accepted _ _ Hm) as A.
  split; [apply B|]. split; [|split; [|split; [|split; [|split]]]].
  - destruct P as [Hr|t tok F|t tok k F|Hr|t tok v F]; auto; right; apply F.
  - rewrite (acc_begins _ _ A). apply prefix_take.
  - apply A.
  - intros a. destruct (monitor_take _ _ a Hm) as [m0 Hm0].
    by eapply accepted_one_open.
  - intros i j p q a s Hij Hi Hj Ha. by eapply (accepted_order _ _ i j p q a (EvBegin q s)).
  - by apply (quiescent_done w m owed).
Qed.

(** ** What no step undoes *)

Lemma as_defined_same ty h w w' :
  sourceEvents w' = sourceEvents w -> as_defined ty h w -> as_defined ty h w'.
Proof. intros H (fn & H1 & H2). exists fn. by rewrite H.
Qed.

(** An assignment to the [type] property of any handler object leaves a
    handler object as it was defined. *)
Lemma as_defined_assign_type ty h event v w :
  as_defined ty h w -> as_defined ty h (assign_type event v w).1.
Proof.
  intros D. pose proof D as (fn & Hfn & Hty & Hcl & Hwr).
  unfold assign_type. destruct (sourceEvents w !! event) as [fn'|] eqn:Hev; [|done].
  destruct (decide (event = h)) as [->|Hne].
  - assert (fn' = fn) as -> by congruence. unfold assign. by rewrite Hty.
  - destruct (assign v (prop_type fn')); [|done]. simpl. exists fn.
    split; [|done]. simpl. by rewrite list_lookup_insert_ne.
Qed.

(** An assignment to the [plugin] property changes that property only. *)
Lemma as_defined_assign_plugin ty h event v w :
  as_defined ty h w -> as_defined ty h (assign_plugin event v w).1.
Proof.
  intros D. pose proof D as (fn & Hfn & Hty & Hcl & Hwr).
  unfold assign_plugin. destruct (sourceEvents w !! event) as [fn'|] eqn:Hev; [|done].
  destruct (decide (event = h)) as [->|Hne].
  - assert (fn' = fn) as -> by congruence. unfold assign. rewrite Hwr. simpl.
    eexists. split; [simpl; apply list_lookup_insert_eq; by eapply lookup_lt_Some|]. done.
  - destruct (assign v (prop_plugin fn')); [|done]. simpl. exists fn.
    split; [|done]. simpl. by rewrite list_lookup_insert_ne.
Qed.

Lemma frame_refl w : Frame w w.
Proof.
  split; try done. exists []. by rewrite app_nil_r.
Qed.

Lemma frame_trans w1 w2 w3 : Frame w1 w2 -> Frame w2 w3 -> Frame w1 w3.
Proof.
  intros [A1 A2 A3 A4 (n1 & A5 & A6)] [C1 C2 C3 C4 (n2 & C5 & C6)].
  split; try congruence.
  - intros ty h D. by apply C2, A2.
  - intros p st H1 H2. apply C4; [|done]. by apply A4.
  - exists (n1 ++ n2). rewrite C5, A5, app_assoc. split; [done|].
    apply Forall_app. split; [done|]. by rewrite <- A1.
Qed.

Lemma frame_fields w w' ps new :
  store w' = store w -> sourceEvents w' = sourceEvents w -> uuid_v4 w' = uuid_v4 w ->
  promises w' = promises w ++ ps ->
  trace w' = trace w ++ new -> Forall (parent_is (store w)) new ->
  Frame w w'.
Proof.
  intros H1 H2 H3 H4 H5 H6. split; try done.
  - intros ty h. by apply as_defined_same.
  - intros p st Hp _. rewrite H4. by apply lookup_app_l_Some.
  - by exists new.
Qed.

Lemma frame_settle p st w : Frame w (settle p st w).
Proof.
  unfold settle. destruct (promises w !! p) as [[]|] eqn:E; try apply frame_refl.
  split; simpl; try done.
  - intros p' st' Hp Hst. rewrite list_lookup_insert_ne; [done|]. intros ?. subst.
    assert (Some Pending = Some st') by (etrans; [symmetry; exact E|exact Hp]).
    by simplify_eq.
  - exists []. by rewrite app_nil_r.
Qed.

Lemma frame_assign_type h v w : Frame w (assign_type h v w).1.
Proof.
  split.
  - unfold assign_type. destruct (sourceEvents w !! h); [|done]. by destruct (assign _ _).
  - intros ty h'. apply as_defined_assign_type.
  - unfold assign_type. destruct (sourceEvents w !! h); [|done]. by destruct (assign _ _).
  - unfold assign_type. destruct (sourceEvents w !! h); [|done]. by destruct (assign _ _).
  - exists []. rewrite app_nil_r. split; [|done].
    unfold assign_type. destruct (sourceEvents w !! h); [|done]. by destruct (assign _ _).
Qed.

Lemma frame_assign_plugin h v w : Frame w (assign_plugin h v w).1.
Proof.
  split.
  - unfold assign_plugin. destruct (sourceEvents w !! h); [|done]. by destruct (assign _ _).
  - intros ty h'. apply as_defined_assign_plugin.
  - unfold assign_plugin. destruct (sourceEvents w !! h); [|done]. by destruct (assign _ _).
  - unfold assign_plugin. destruct (sourceEvents w !! h); [|done]. by destruct (assign _ _).
  - exists []. rewrite app_nil_r. split; [|done].
    unfold assign_plugin. destruct (sourceEvents w !! h); [|done]. by destruct (assign _ _).
Qed.

Lemma frame_call h a w : Frame w (call h a w).1.
Proof.
  destruct (sourceEvents w !! h) as [fn|] eqn:Hfn;
    [|rewrite call_not_a_function by done; apply frame_refl].
  destruct (plugin_of h w) as [plugin|] eqn:Hpl.
  2:{ rewrite (call_unregistered _ _ _ _ Hfn Hpl).
      eapply frame_fields; simpl; try done. by repeat constructor. }
  destruct (decide (concurrency (the_queue w) <= running (the_queue w))%Z).
  - rewrite (call_busy _ _ _ _ _ Hfn Hpl) by done.
    eapply frame_fields; simpl; try done. by repeat constructor.
  - rewrite (call_idle _ _ _ _ _ Hfn Hpl) by lia.
    eapply frame_fields; simpl; try done. by repeat constructor.
Qed.

Lemma frame_new_promise st w : Frame w (new_promise st w).1.
Proof.
  apply (frame_fields _ _ [st] []); simpl; try done. by rewrite app_nil_r.
Qed.

Lemma frame_for_of {A} (f : A -> World -> World * Completion unit) l w :
  (forall x w, Frame w (f x w).1) -> Frame w (for_of f l w).1.
Proof.
  intros Hf. revert w. induction l as [|x l IH]; intros w; simpl; [apply frame_refl|].
  pose proof (Hf x w) as F. destruct (f x w) as [w1 [r|e]]; simpl in *; [|done].
  eapply frame_trans; [exact F|apply IH].
Qed.

Lemma frame_discard r w : Frame w (discard r w).
Proof.
  destruct (discard_cases r w) as [->|[e ->]]; [apply frame_refl|].
  apply (frame_fields _ _ [] []); simpl; try done; by rewrite app_nil_r.
Qed.

Lemma frame_runEvent_step name a h w : Frame w (runEvent_step name a h w).1.
Proof.
  unfold runEvent_step. destruct (sourceEvents w !! h) as [fn|]; [|apply frame_refl].
  case_decide; [|apply frame_refl].
  pose proof (frame_call h a w) as F. destruct (call h a w) as [w1 [r|e]]; [|done].
  eapply frame_trans; [exact F|apply frame_discard].
Qed.

Lemma frame_runEvent hs name a w : Frame w (runEvent hs name a w).1.
Proof.
  unfold runEvent, async_function.
  pose proof (frame_for_of (runEvent_step name a) hs w (frame_runEvent_step name a)) as F.
  destruct (for_of _ hs w) as [w1 [r|e]]; simpl in *;
    (eapply frame_trans; [exact F|apply frame_new_promise]).
Qed.

Lemma frame_run_code c w : Frame w (run_code c w).1.
Proof.
  revert w. induction c as [v|e|h a k IH|hs name a k IH|h v k IH|h v k IH|q k _|];
    intros w; simpl; try apply frame_refl.
  - pose proof (frame_call h a w) as F.
    destruct (call h a w) as [w1 [r|e]]; simpl in *; [|done].
    eapply frame_trans; [exact F|]. eapply frame_trans; [apply frame_discard|apply IH].
  - pose proof (frame_runEvent hs name a w) as F.
    destruct (runEvent hs name a w) as [w1 p]. simpl in *.
    eapply frame_trans; [exact F|].
    eapply frame_trans; [apply (frame_discard (RPromise p))|apply IH].
  - pose proof (frame_assign_plugin h v w) as F.
    destruct (assign_plugin h v w) as [w1 [r|e]]; simpl in *; [|done].
    eapply frame_trans; [exact F|apply IH].
  - pose proof (frame_assign_type h v w) as F.
    destruct (assign_type h v w) as [w1 [r|e]]; simpl in *; [|done].
    eapply frame_trans; [exact F|apply IH].
Qed.

Lemma frame_worker t w : Frame w (worker t w).1.
Proof.
  unfold worker. destruct (asyncStorage w); [|apply frame_refl].
  unfold als_run, draw_uuid. simpl.
  eapply frame_fields; simpl; try done.
  - by instantiate (1 := []); rewrite app_nil_r.
  - by repeat constructor.
Qed.

Lemma frame_release w : Frame w (release worker w).1.
Proof.
  unfold release. destruct (eventSystemQueue w) as [q|]; [|apply frame_refl].
  destruct (waiting q) as [|next rest].
  - simpl. apply (frame_fields _ _ [] []); simpl; try done; by rewrite app_nil_r.
  - eapply frame_trans; [|apply frame_worker].
    apply (frame_fields _ _ [] []); simpl; try done; by rewrite app_nil_r.
Qed.

Lemma frame_worked t err v w : Frame w (worked worker push_callback t err v w).1.
Proof.
  unfold worked. eapply frame_trans; [|apply frame_release].
  unfold push_callback. destruct err; apply frame_settle.
Qed.

Lemma frame_log e w : parent_is (store w) e -> Frame w (log e w).
Proof.
  intros H. apply (frame_fields _ _ [] [e]); simpl; try done.
  - by rewrite app_nil_r.
  - by constructor.
Qed.

Lemma frame_jobs w w' :
  store w' = store w -> sourceEvents w' = sourceEvents w -> uuid_v4 w' = uuid_v4 w ->
  promises w' = promises w -> trace w' = trace w -> Frame w w'.
Proof.
  intros. apply (frame_fields _ _ [] []); try done; by rewrite app_nil_r.
Qed.

Lemma frame_promise_settles t o w : Frame w (promise_settles t o w).
Proof.
  destruct o as [v|e]; unfold promise_settles.
  - eapply frame_trans; [apply (frame_log (EvResolve (callback t) v)); done|].
    by apply frame_jobs.
  - eapply frame_trans; [apply (frame_log (EvFail (callback t) e)); done|].
    by apply frame_jobs.
Qed.

Lemma frame_schedule q cb w : Frame w (schedule q cb w).
Proof. destruct q; by apply frame_jobs.
Qed.

Lemma frame_resume_handler t k w : Frame w (resume_handler t k w).1.
Proof.
  unfold resume_handler. pose proof (frame_run_code k w) as F.
  destruct (run_code k w) as [w1 [v|e|q k'|]]; simpl in *; try done;
    (eapply frame_trans; [exact F|]). 
  all: first [apply frame_promise_settles | apply frame_schedule | apply frame_refl].
Qed.

Lemma frame_run_handler t w : Frame w (run_handler t w).1.
Proof.
  unfold run_handler.
  eapply frame_trans; [apply (frame_log (EvBegin (callback t) (store w))); done|].
  set (wb := log _ w).
  pose proof (frame_run_code (body (task_handler (value t)) (task_args (value t))
                                (actions_of (task_plugin (value t)))) wb) as F.
  destruct (run_code _ wb) as [w1 [v|e|q k'|]]; simpl in *; try done;
    (eapply frame_trans; [exact F|]).
  - destruct (is_async _); simpl; [apply frame_promise_settles|].
    destruct (truthy (get "then" v)); simpl; [apply frame_refl|].
    eapply frame_trans; [apply (frame_log (EvReturn (callback t) v)); done|].
    apply frame_worked.
  - destruct (is_async _); simpl; [apply frame_promise_settles|].
    apply (frame_log (EvFail (callback t) e)). done.
  - apply frame_schedule.
Qed.

Lemma frame_run_callback cb w : Frame w (run_callback cb w).1.
Proof.
  destruct cb; simpl.
  - apply frame_run_handler.
  - apply frame_resume_handler.
  - apply frame_worked.
Qed.

Lemma tick_none w : next_job w = None -> tick w = w.
Proof.
  unfold next_job, tick. destruct (microtasks w); [|done].
  by destruct (macrotasks w).
Qed.

(** One turn of the loop runs the next job in the async context the job was
    created in: settled promises stay as they are, handler objects stay as
    they were defined, and every task pushed during the turn has the store of the
    job as its parent. *)
Lemma tick_turn w j :
  next_job w = Some j ->
  (forall ty h, as_defined ty h w -> as_defined ty h (tick w))
  /\ uuid_v4 (tick w) = uuid_v4 w
  /\ store (tick w) = None
  /\ (forall p st, promises w !! p = Some st -> st <> Pending ->
        promises (tick w) !! p = Some st)
  /\ exists new, trace (tick w) = trace w ++ new /\ Forall (parent_is (job_store j)) new.
Proof.
  intros Hj.
  assert (H : exists w0, tick w = run_job j w0 /\ sourceEvents w0 = sourceEvents w
            /\ uuid_v4 w0 = uuid_v4 w /\ promises w0 = promises w /\ trace w0 = trace w).
  { unfold next_job, tick in *. destruct (microtasks w) as [|j' mi].
    - destruct (macrotasks w) as [|j' ma]; simplify_eq/=. by eexists.
    - simplify_eq. by eexists. }
  destruct H as (w0 & -> & H1 & H2 & H3 & H4). unfold run_job.
  pose proof (frame_run_callback (job_run j) (set_store (job_store j) w0)) as F.
  destruct (run_callback _ _) as [w1 c]. simpl in F.
  destruct F as [F1 F2 F3 F4 (new & F5 & F6)]. simpl in *.
  assert (Hd : forall ty h, as_defined ty h w -> as_defined ty h w1).
  { intros ty h D. apply F2. by apply (as_defined_same ty h w). }
  rewrite <- H2, <- H3, <- H4.
  destruct c as [[]|e]; simpl; repeat split; try done; by exists new.
Qed.

(** ** The parent of a task *)

(** A registered handler, called in any context: the call answers with a
    new pending promise, and the task it hands to the queue carries the
    arguments, the plugin and, as parent, the store of the caller. *)
Lemma call_registered h a w fn plugin :
  sourceEvents w !! h = Some fn -> plugin_of h w = Some plugin ->
  exists w' p e,
    call h a w = (w', Normal (RPromise p))
    /\ value e = {| task_type := closure_type fn; task_handler := closure_handler fn;
                    task_args := a; task_parent := store w; task_plugin := plugin |}
    /\ callback e = p
    /\ promises w !! p = None /\ promises w' !! p = Some Pending
    /\ (waiting (the_queue w') = waiting (the_queue w) ++ [e]
        \/ exists tok, macrotasks w' = macrotasks w ++
                         [{| job_store := Some tok; job_run := RunHandler e |}])
    /\ EvPush p (closure_type fn) (store w) ∈ trace w'.
Proof.
  intros Hfn Hpl. exists (call h a w).1, (length (promises w)), (entry_of fn a plugin w).
  destruct (decide (concurrency (the_queue w) <= running (the_queue w))%Z).
  - rewrite (call_busy _ _ _ _ _ Hfn Hpl) by done. simpl.
    repeat split; try done.
    + by apply lookup_ge_None_2.
    + by apply list_lookup_middle.
    + by left.
    + apply elem_of_app. right. by left.
  - rewrite (call_idle _ _ _ _ _ Hfn Hpl) by lia. simpl.
    repeat split; try done.
    + by apply lookup_ge_None_2.
    + by apply list_lookup_middle.
    + right. by eexists.
    + apply elem_of_app. right. by left.
Qed.

Lemma phase_next_job w m owed j :
  Phase w m owed -> next_job w = Some j ->
  exists tok, job_store j = Some tok /\ InFlight w m (job_entry j) tok.
Proof.
  unfold next_job.
  intros [Hr Hw Hst -> Hmi Hma|t tok F Hst -> Hmi Hma|t tok k F Hst -> Hj
         |Hr Hst -> Hmi Hma|t tok v F Hst -> Hmi Hma] Hn.
  - by rewrite Hmi, Hma in Hn.
  - rewrite Hmi, Hma in Hn. simplify_eq/=. by exists tok.
  - destruct Hj as [[Hmi Hma]|[Hmi Hma]]; rewrite Hmi, ?Hma in Hn; simplify_eq/=;
      by exists tok.
  - by rewrite Hmi, Hma in Hn.
  - rewrite Hmi in Hn. simplify_eq/=. by exists tok.
Qed.

(** C3. The parent recorded on a task is the store of the async context the
    handler was called in.  Clients call from the top level, where no store
    is set.  Code of a handler runs in jobs that carry the token the worker
    made for its task, on the first turn and after every suspension point;
    every task pushed during such a turn has that token as its parent. *)
Theorem C3_parent_token w :
  (forall h a fn plugin,
     sourceEvents w !! h = Some fn -> plugin_of h w = Some plugin ->
     exists w' p e,
       call h a w = (w', Normal (RPromise p))
       /\ value e = {| task_type := closure_type fn; task_handler := closure_handler fn;
                       task_args := a; task_parent := store w; task_plugin := plugin |}
       /\ callback e = p
       /\ (waiting (the_queue w') = waiting (the_queue w) ++ [e]
           \/ exists tok, macrotasks w' = macrotasks w ++
                            [{| job_store := Some tok; job_run := RunHandler e |}])
       /\ EvPush p (closure_type fn) (store w) ∈ trace w')
  /\ (reachable w ->
      store w = None
      /\ forall j, next_job w = Some j ->
         exists tok,
           job_store j = Some tok
           /\ EvWorker (callback (job_entry j)) tok ∈ trace w
           /\ exists new, trace (tick w) = trace w ++ new
              /\ forall p ty par, EvPush p ty par ∈ new -> par = Some tok).
Proof.
  split.
  - intros h a fn plugin Hfn Hpl.
    destruct (call_registered h a w fn plugin Hfn Hpl)
      as (w' & p & e & H1 & H2 & H3 & _ & _ & H4 & H5).
    by exists w', p, e.
  - intros (m & owed & B & P & Hs)%reachable_inv. split; [done|].
    intros j Hj. destruct (phase_next_job _ _ _ _ P Hj) as (tok & Htok & F).
    exists tok. split; [done|]. split; [apply F|].
    destruct (tick_turn w j Hj) as (_ & _ & _ & _ & new & Hnew & Hall).
    exists new. split; [done|]. intros p ty par Hin.
    rewrite list.Forall_forall in Hall. specialize (Hall _ Hin). simpl in Hall.
    by rewrite Hall.
Qed.

(** ** The result of a handler *)

Lemma tick_dequeue w j : next_job w = Some j -> tick w = run_job j (dequeue w).
Proof.
  unfold next_job, tick, dequeue. destruct (microtasks w) as [|j' mi].
  - destruct (macrotasks w) as [|j' ma]; by intros [= ->].
  - by intros [= ->].
Qed.





Lemma phase_owed w m owed :
  Phase w m owed ->
  owed = None
  \/ exists t tok v, owed = Some (EvResolve (callback t) v)
       /\ InFlight w m t tok /\ m_stage m = Quiet
       /\ microtasks w = [{| job_store := Some tok; job_run := ThenCb t v |}]
       /\ macrotasks w = [].
Proof.
  intros [Hr Hw Hst -> Hmi Hma|t tok F Hst -> Hmi Hma|t tok k F Hst -> Hj
         |Hr Hst -> Hmi Hma|t tok v F Hst -> Hmi Hma]; auto.
  right. by exists t, tok, v.
Qed.

Lemma tick_stable w p st :
  promises w !! p = Some st -> st <> Pending -> promises (tick w) !! p = Some st.
Proof.
  intros Hp Hst. destruct (next_job w) as [j|] eqn:Hj.
  - destruct (tick_turn w j Hj) as (_ & _ & _ & H & _). by apply H.
  - by rewrite tick_none.
Qed.



(** ** Context tokens *)

Lemma append_length s u : String.length (s +:+ u) = String.length s + String.length u.
Proof.
  induction s as [|c s IH]; simpl; [done|]. by rewrite IH.
Qed.

Lemma append_assoc s1 s2 s3 : (s1 +:+ s2) +:+ s3 = s1 +:+ (s2 +:+ s3).
Proof.
  induction s1 as [|c s1 IH]; [done|].
  change (String c ((s1 +:+ s2) +:+ s3) = String c (s1 +:+ (s2 +:+ s3))).
  by rewrite IH.
Qed.

(** Two strings that end in tails of the same length end in the same tail. *)
Lemma append_tail_inj s1 s2 u1 u2 :
  s1 +:+ u1 = s2 +:+ u2 -> String.length u1 = String.length u2 -> u1 = u2.
Proof.
  revert s2. induction s1 as [|c s1 IH]; intros [|c' s2]; simpl; intros H Hlen.
  - done.
  - apply (f_equal String.length) in H. rewrite !append_length in H. simpl in H.
    rewrite ?append_length in H. lia.
  - apply (f_equal String.length) in H. rewrite !append_length in H. simpl in H.
    rewrite ?append_length in H. lia.
  - injection H as _ H. by eapply IH.
Qed.

Lemma token_uuid_inj ty1 ty2 u1 u2 :
  token ty1 u1 = token ty2 u2 -> String.length u1 = String.length u2 -> u1 = u2.
Proof.
  unfold token. intros H Hlen.
  apply (append_tail_inj (ty1 +:+ "-") (ty2 +:+ "-")); [|done].
  by rewrite !append_assoc.
Qed.

Lemma drawn_lookup w k :
  k < uuid_drawn w -> drawn_uuids w !! k = Some (uuid_v4 w k).
Proof.
  intros H. unfold drawn_uuids. rewrite list_lookup_fmap, lookup_seq_lt by done. done.
Qed.

(** C8, as the code has it.  The worker makes the token when the queue
    hands it the task, which is before the handler body runs and, on an idle
    queue, inside the call that enqueues the task: such a call draws a uuid
    and hands the task over before it answers, while a call made when the
    queue is busy draws none and leaves the task waiting.  Every task pushed
    is either waiting or has been handed over with a token; one uuid is
    drawn per task handed over; the k-th task handed over is the k-th task
    pushed and its token is its type, a dash and the k-th uuid; a task that
    had to wait is handed over only after every task pushed earlier has
    completed; the handler body starts in the scope of the token made for
    its task; and as long as the uuids drawn are distinct strings of 36
    characters, so are the tokens. *)
Theorem C8_context_token w :
  reachable w ->
  uuid_drawn w = length (workers (trace w))
  /\ length (workers (trace w)) <= length (pushes (trace w))
  /\ (workers (trace w)).*1 ++ (callback <$> waiting (the_queue w)) = pushes (trace w)
  /\ (forall h a fn plugin,
        sourceEvents w !! h = Some fn -> plugin_of h w = Some plugin ->
        if decide (running (the_queue w) = 0%Z)
        then uuid_drawn (call h a w).1 = S (uuid_drawn w)
             /\ workers (trace (call h a w).1)
                = workers (trace w)
                    ++ [(length (promises w),
                         token (closure_type fn) (uuid_v4 w (uuid_drawn w)))]
             /\ begins (trace (call h a w).1) = begins (trace w)
        else uuid_drawn (call h a w).1 = uuid_drawn w
             /\ workers (trace (call h a w).1) = workers (trace w)
             /\ exists e, waiting (the_queue (call h a w).1) = waiting (the_queue w) ++ [e]
                  /\ callback e = length (promises w))
  /\ (forall k p tok, workers (trace w) !! k = Some (p, tok) ->
        exists ty, pushes_ty (trace w) !! k = Some (p, ty)
                   /\ tok = ty +:+ "-" +:+ uuid_v4 w k)
  /\ (forall i j p q a tok, i < j ->
        pushes (trace w) !! i = Some p -> pushes (trace w) !! j = Some q ->
        trace w !! a = Some (EvWorker q tok) ->
        exists b e, b < a /\ trace w !! b = Some e /\ completed e = Some p)
  /\ (forall p s, EvBegin p s ∈ trace w ->
        exists tok, s = Some tok /\ EvWorker p tok ∈ trace w)
  /\ (NoDup (drawn_uuids w) ->
      Forall (fun u => String.length u = 36) (drawn_uuids w) ->
      NoDup (workers (trace w)).*2).
Proof.
  intros (m & owed & B & P & _)%reachable_inv.
  pose proof (base_monitor _ _ _ B) as Hm.
  pose proof (monitor_accepted _ _ Hm) as A.
  pose proof (accepted_workers_length _ _ A) as Hlen.
  split; [by rewrite Hlen, (base_drawn _ _ _ B)|].
  split; [rewrite Hlen; apply A|].
  split.
  { rewrite (acc_workers _ _ A).
    assert (Hw : callback <$> waiting (the_queue w) = drop (started m) (pushes (trace w))).
    { rewrite pushes_fst, <- fmap_drop, (base_waiting _ _ _ B).
      unfold fmap at 2. by rewrite <- list_fmap_compose. }
    rewrite Hw. apply take_drop. }
  split.
  { intros h a fn plugin Hfn Hpl. pose proof (base_concurrency _ _ _ B) as Hc.
    assert (Hr : (running (the_queue w) = 0 \/ running (the_queue w) = 1)%Z).
    { destruct P as [Hr|t tok F|t tok k F|Hr|t tok v F]; auto; right; apply F. }
    unfold workers, begins. case_decide as Hidle.
    - rewrite (call_idle _ _ _ _ _ Hfn Hpl) by lia. simpl.
      rewrite !omap_app. simpl. by rewrite app_nil_r.
    - rewrite (call_busy _ _ _ _ _ Hfn Hpl) by lia. simpl.
      rewrite !omap_app. simpl. rewrite app_nil_r.
      split; [done|]. split; [done|]. by eexists. }
  split; [apply B|].
  split; [intros i j p q a tok Hij Hi Hj Ha;
          by eapply (accepted_order _ _ i j p q a (EvWorker q tok))|].
  split; [apply B|].
  intros Hnd Hall. apply NoDup_alt. intros k1 k2 tok H1 H2.
  apply list_lookup_fmap_Some in H1 as ([p1 tok1] & -> & H1).
  apply list_lookup_fmap_Some in H2 as ([p2 tok2] & Heq & H2). simpl in *. subst tok2.
  pose proof (lookup_lt_Some _ _ _ H1) as L1. pose proof (lookup_lt_Some _ _ _ H2) as L2.
  rewrite Hlen, <- (base_drawn _ _ _ B) in L1, L2.
  destruct (base_tokens _ _ _ B _ _ _ H1) as (ty1 & _ & E1).
  destruct (base_tokens _ _ _ B _ _ _ H2) as (ty2 & _ & E2).
  pose proof (drawn_lookup w k1 L1) as D1. pose proof (drawn_lookup w k2 L2) as D2.
  rewrite list.Forall_forall in Hall.
  assert (uuid_v4 w k1 = uuid_v4 w k2) as Hu.
  { apply (token_uuid_inj ty1 ty2); [congruence|].
    rewrite (Hall (uuid_v4 w k1)), (Hall (uuid_v4 w k2)); try done;
      apply list_elem_of_lookup; eauto. }
  rewrite Hu in D1. by eapply NoDup_lookup.
Qed.

(** ** Defining a source event *)

Lemma falsy_spec s : falsy s = true <-> absent_or_empty s.
Proof.
  unfold falsy, absent_or_empty. destruct s as [s|].
  - rewrite bool_decide_eq_true. split; [intros ->; by right|].
    intros [?|?]; by simplify_eq.
  - split; auto.
Qed.

Lemma falsy_false s : ~ absent_or_empty s -> falsy s = false.
Proof.
  intros H. destruct (falsy s) eqn:E; [|done]. by apply falsy_spec in E.
Qed.

(** C5. [defineSourceEvent] checks the type, then the description, then the
    handler, and fails with the error of the first one that is missing; a
    string counts as missing when it is absent or empty.  Otherwise it
    answers with a new handler object that shows the type of the definition
    and a plugin slot holding null. *)
Theorem C5_define_validation d w :
  (absent_or_empty (def_type d) ->
     defineSourceEvent d w = (w, Abrupt (Err "Your event is missing a type name.")))
  /\ (~ absent_or_empty (def_type d) -> absent_or_empty (def_description d) ->
     defineSourceEvent d w = (w, Abrupt (Err "Please add a description to your event")))
  /\ (~ absent_or_empty (def_type d) -> ~ absent_or_empty (def_description d) ->
     def_handler d = None ->
     defineSourceEvent d w = (w, Abrupt (Err "Please add a handler to your event")))
  /\ (~ absent_or_empty (def_type d) -> ~ absent_or_empty (def_description d) ->
     forall handler, def_handler d = Some handler ->
     exists ty w' event fn,
       def_type d = Some ty
       /\ defineSourceEvent d w = (w', Normal event)
       /\ sourceEvents w !! event = None
       /\ sourceEvents w' !! event = Some fn
       /\ (forall other, other <> event -> sourceEvents w' !! other = sourceEvents w !! other)
       /\ type_of w' event = Some ty
       /\ plugin_of event w' = None
       /\ closure_type fn = ty /\ closure_handler fn = handler).
Proof.
  unfold defineSourceEvent. repeat split.
  - intros H%falsy_spec. by rewrite H.
  - intros H1%falsy_false H2%falsy_spec. by rewrite H1, H2.
  - intros H1%falsy_false H2%falsy_false H3. by rewrite H1, H2, H3.
  - intros H1 H2 handler H3.
    destruct (def_type d) as [ty|] eqn:Hty; [|destruct H1; by left].
    rewrite (falsy_false _ H1), (falsy_false _ H2), H3. simpl.
    eexists ty, _, _, _. repeat split.
    + by apply lookup_ge_None_2.
    + by apply list_lookup_middle.
    + intros other Hne. simpl. destruct (decide (other < length (sourceEvents w))).
      * by rewrite lookup_app_l.
      * rewrite !lookup_ge_None_2; [done|lia|]. rewrite length_app. simpl. lia.
    + unfold type_of. simpl. by rewrite list_lookup_middle.
    + unfold plugin_of. simpl. by rewrite list_lookup_middle.
    + done.
    + done.
Qed.

(** ** Running an event *)

(** A call of a handler object, registered or not: it answers with a new
    promise, records one call, starts no handler and changes no handler
    object. *)
Lemma call_events h a w fn :
  sourceEvents w !! h = Some fn ->
  exists w' new,
    call h a w = (w', Normal (RPromise (length (promises w))))
    /\ trace w' = trace w ++ new
    /\ calls new = [(h, a)] /\ futures new = [length (promises w)]
    /\ begins new = [] /\ completions new = []
    /\ length (promises w') = S (length (promises w))
    /\ sourceEvents w' = sourceEvents w.
Proof.
  intros Hfn. destruct (plugin_of h w) as [plugin|] eqn:Hpl.
  - destruct (decide (concurrency (the_queue w) <= running (the_queue w))%Z).
    + rewrite (call_busy _ _ _ _ _ Hfn Hpl) by done. eexists _, _.
      split; [done|]. simpl. split; [done|]. rewrite length_app. simpl.
      repeat split; try done. lia.
    + rewrite (call_idle _ _ _ _ _ Hfn Hpl) by lia. eexists _, _.
      split; [done|]. simpl. split; [done|]. rewrite length_app. simpl.
      repeat split; try done. lia.
  - rewrite (call_unregistered _ _ _ _ Hfn Hpl). eexists _, _.
    split; [done|]. simpl. split; [done|]. rewrite length_app. simpl.
    repeat split; try done. lia.
Qed.

Lemma discard_fields r w :
  trace (discard r w) = trace w /\ promises (discard r w) = promises w
  /\ sourceEvents (discard r w) = sourceEvents w.
Proof. by destruct (discard_cases r w) as [->|[e ->]].
Qed.

Lemma type_of_frame w w' h : sourceEvents w' = sourceEvents w -> type_of w' h = type_of w h.
Proof. intros H. unfold type_of. by rewrite H.
Qed.

(** The loop of [runEvent] over handler objects. *)
Lemma runEvent_loop name a hs w :
  Forall (fun h => is_Some (sourceEvents w !! h)) hs ->
  exists w' new,
    for_of (runEvent_step name a) hs w = (w', Normal tt)
    /\ trace w' = trace w ++ new
    /\ calls new = (fun h => (h, a)) <$> filter (fun h => type_of w h = Some name) hs
    /\ Forall (fun f => f < length (promises w')) (futures new)
    /\ begins new = [] /\ completions new = []
    /\ length (promises w) <= length (promises w')
    /\ sourceEvents w' = sourceEvents w.
Proof.
  revert w. induction hs as [|h hs IH]; intros w Hall.
  - exists w, []. simpl. rewrite app_nil_r. repeat split; try done.
  - apply list.Forall_cons in Hall as [[fn Hfn] Hall]. simpl.
    unfold runEvent_step at 1. rewrite Hfn.
    assert (Hty : type_of w h = Some (pd_value (prop_type fn))).
    { unfold type_of. by rewrite Hfn. }
    destruct (decide (pd_value (prop_type fn) = name)) as [Heq|Hne].
    + destruct (call_events h a w fn Hfn)
        as (w0 & new1 & -> & Ht0 & Hc1 & Hf1 & Hb1 & Hd1 & Hl0 & Hs0).
      destruct (discard_fields (RPromise (length (promises w))) w0) as (Dt & Dp & Ds).
      set (w1 := discard (RPromise (length (promises w))) w0) in *.
      assert (Ht1 : trace w1 = trace w ++ new1) by congruence.
      assert (Hl1 : length (promises w1) = S (length (promises w))) by congruence.
      assert (Hs1 : sourceEvents w1 = sourceEvents w) by congruence.
      destruct (IH w1) as (w' & new & -> & Ht & Hc & Hf & Hb & Hd & Hl & Hs).
      { by rewrite Hs1. }
      exists w', (new1 ++ new). split; [done|].
      split; [by rewrite Ht, Ht1, app_assoc|].
      unfold calls, futures, begins, completions in *. rewrite !omap_app.
      rewrite Hc1, Hf1, Hb1, Hd1, Hb, Hd. repeat split; try done.
      * rewrite filter_cons_True by (by rewrite Hty, Heq). rewrite fmap_cons. simpl.
        rewrite Hc. f_equal. f_equal. apply list_filter_iff. intros h'.
        by rewrite (type_of_frame _ _ _ Hs1).
      * apply Forall_app. split; [|done]. apply Forall_singleton. lia.
      * lia.
      * congruence.
    + destruct (IH w Hall) as (w' & new & -> & Ht & Hc & Hf & Hb & Hd & Hl & Hs).
      exists w', new. repeat split; try done.
      rewrite filter_cons_False; [done|]. rewrite Hty. intros [= ?]. done.
Qed.

(** C6. [runEvent] calls exactly the handlers whose type is the event name,
    in the order of the list and each with the given arguments.  It waits
    for none of them: when it answers no handler has begun, and the promise
    it answers with, already fulfilled with undefined, is none of the
    promises the calls answered with. *)
Theorem C6_run_event hs name a w :
  Forall (fun h => is_Some (sourceEvents w !! h)) hs ->
  exists w' p new,
    runEvent hs name a w = (w', p)
    /\ trace w' = trace w ++ new
    /\ calls new = (fun h => (h, a)) <$> filter (fun h => type_of w h = Some name) hs
    /\ begins new = [] /\ completions new = []
    /\ (p ∉ futures new)
    /\ promises w !! p = None
    /\ promises w' !! p = Some (Fulfilled JUndefined).
Proof.
  intros Hall. unfold runEvent, async_function.
  destruct (runEvent_loop name a hs w Hall)
    as (w1 & new & -> & Ht & Hc & Hf & Hb & Hd & Hl & Hs).
  unfold new_promise. eexists _, _, new. split; [done|]. simpl.
  repeat split; try done.
  - intros Hin. rewrite list.Forall_forall in Hf. specialize (Hf _ Hin). lia.
  - apply lookup_ge_None_2. lia.
  - by apply list_lookup_middle.
Qed.

(** A promise once settled keeps its state whatever the clients do. *)
Lemma exec_op_stable o w p st :
  promises w !! p = Some st -> st <> Pending -> promises (exec_op o w) !! p = Some st.
Proof.
  intros Hp Hst. destruct o; simpl.
  - unfold defineSourceEvent. destruct (falsy _); [done|]. destruct (falsy _); [done|].
    by destruct (def_handler _).
  - unfold assign_type. destruct (sourceEvents w !! event); [|done].
    by destruct (assign _ _).
  - unfold assign_plugin. destruct (sourceEvents w !! event); [|done].
    by destruct (assign _ _).
  - by apply (fr_promises _ _ (frame_call event args w)).
  - by apply (fr_promises _ _ (frame_runEvent events eventName args w)).
  - by apply tick_stable.
Qed.

Lemma exec_stable ops w p st :
  promises w !! p = Some st -> st <> Pending -> promises (exec ops w) !! p = Some st.
Proof.
  revert w. induction ops as [|o ops IH]; intros w Hp Hst; simpl; [done|].
  apply IH; [|done]. by apply exec_op_stable.
Qed.

Lemma runEvent_fulfilled hs name a w :
  Forall (fun h => is_Some (sourceEvents w !! h)) hs ->
  exists w' p,
    runEvent hs name a w = (w', p)
    /\ promises w !! p = None
    /\ promises w' !! p = Some (Fulfilled JUndefined).
Proof.
  intros Hall. unfold runEvent, async_function.
  destruct (runEvent_loop name a hs w Hall)
    as (w1 & new & -> & Ht & Hc & Hf & Hb & Hd & Hl & Hs).
  unfold new_promise. eexists _, _. split; [done|]. simpl. split.
  - apply lookup_ge_None_2. lia.
  - by apply list_lookup_middle.
Qed.

(** C10. The promise of [runEvent] is fulfilled when [runEvent] answers and
    stays so whatever happens afterwards to the handlers it called: no call
    of a handler object throws to the loop, and the promises the calls
    answer with are dropped. *)
Theorem C10_run_event_resolves hs name a w :
  Forall (fun h => is_Some (sourceEvents w !! h)) hs ->
  exists w' p,
    runEvent hs name a w = (w', p)
    /\ promises w !! p = None
    /\ promises w' !! p = Some (Fulfilled JUndefined)
    /\ forall ops, promises (exec ops w') !! p = Some (Fulfilled JUndefined).
Proof.
  intros Hall.
  destruct (runEvent_fulfilled hs name a w Hall) as (w' & p & H1 & H2 & H3).
  exists w', p. repeat split; try done.
  intros ops. by apply exec_stable.
Qed.

(** ** A call before registration *)

(** C4, as the code has it.  Calling a handler whose plugin slot holds null
    throws nothing to the caller: the call answers with a promise that is
    already rejected with the error "Please make sure you registered the
    function" and stays rejected.  No task is pushed: the queue, its list,
    the pending callbacks and the uuid source are as before. *)
Theorem C4_unregistered_rejects h a w fn :
  sourceEvents w !! h = Some fn -> plugin_of h w = None ->
  exists w' p,
    call h a w = (w', Normal (RPromise p))
    /\ promises w !! p = None
    /\ promises w' !! p = Some (Rejected (Err "Please make sure you registered the function"))
    /\ (forall ops, promises (exec ops w') !! p
          = Some (Rejected (Err "Please make sure you registered the function")))
    /\ eventSystemQueue w' = eventSystemQueue w
    /\ microtasks w' = microtasks w /\ macrotasks w' = macrotasks w
    /\ uuid_drawn w' = uuid_drawn w
    /\ pushes (trace w') = pushes (trace w).
Proof.
  intros Hfn Hpl. rewrite (call_unregistered _ _ _ _ Hfn Hpl). eexists _, _.
  split; [done|]. simpl.
  assert (Hrej : (promises w ++ [Rejected not_registered]) !! length (promises w)
                 = Some (Rejected not_registered)) by by apply list_lookup_middle.
  repeat split; try done.
  - by apply lookup_ge_None_2.
  - intros ops. by apply exec_stable.
  - unfold pushes. by rewrite omap_app, app_nil_r.
Qed.

(** ** The properties of a handler object *)

Lemma tick_defined ty h w : as_defined ty h w -> as_defined ty h (tick w).
Proof.
  destruct (next_job w) as [j|] eqn:Hj.
  - destruct (tick_turn w j Hj) as (H & _). apply H.
  - by rewrite tick_none.
Qed.

(** No operation of a client changes the [type] property of a handler
    object, its attributes, or the writability of its [plugin] property. *)
Lemma as_defined_exec_op ty h o w : as_defined ty h w -> as_defined ty h (exec_op o w).
Proof.
  intros D. destruct o; simpl.
  - destruct D as (fn & Hfn & Hrest).
    unfold defineSourceEvent. destruct (falsy _); [by exists fn|].
    destruct (falsy _); [by exists fn|].
    destruct (def_handler _); [|by exists fn]. simpl. exists fn. split; [|done].
    simpl. by apply lookup_app_l_Some.
  - by apply as_defined_assign_type.
  - by apply as_defined_assign_plugin.
  - by apply (fr_defined _ _ (frame_call event args w)).
  - by apply (fr_defined _ _ (frame_runEvent events eventName args w)).
  - by apply tick_defined.
Qed.

Lemma as_defined_exec ty h ops w : as_defined ty h w -> as_defined ty h (exec ops w).
Proof.
  revert w. induction ops as [|o ops IH]; intros w D; simpl; [done|].
  by apply IH, as_defined_exec_op.
Qed.

(** C9. The [type] property of a handler object is created read-only with
    the type of the definition.  Whatever the clients do afterwards -
    assignments to either property, registrations, calls, events, turns of
    the loop in which handlers run and call one another - the property still
    shows that type and is still read-only: an assignment to it throws and
    changes nothing.  The [plugin] property stays writable; registering a
    plugin stores it there and touches nothing else. *)
Theorem C9_type_read_only d w w' h :
  defineSourceEvent d w = (w', Normal h) ->
  exists ty, def_type d = Some ty /\
    forall ops,
      type_of (exec ops w') h = Some ty
      /\ (exists fn, sourceEvents (exec ops w') !! h = Some fn
            /\ pd_writable (prop_type fn) = false
            /\ pd_configurable (prop_type fn) = false
            /\ pd_writable (prop_plugin fn) = true)
      /\ (forall v, assign_type h v (exec ops w')
            = (exec ops w', Abrupt (TypeErr "Cannot assign to read only property")))
      /\ (forall plugin, exists w3,
            register h plugin (exec ops w') = (w3, Normal tt)
            /\ plugin_of h w3 = Some plugin
            /\ type_of w3 h = Some ty
            /\ forall other, other <> h ->
                 sourceEvents w3 !! other = sourceEvents (exec ops w') !! other).
Proof.
  intros Hdef.
  assert (Hty : exists ty, def_type d = Some ty /\ as_defined ty h w').
  { unfold defineSourceEvent in Hdef.
    destruct (falsy (def_type d)) eqn:E1; [done|].
    destruct (falsy (def_description d)); [done|].
    destruct (def_handler d) as [handler|]; [|done].
    destruct (def_type d) as [ty|]; [|done]. simplify_eq/=.
    exists ty. split; [done|]. eexists. split; [by apply list_lookup_middle|]. done. }
  destruct Hty as (ty & Hty & D). exists ty. split; [done|]. intros ops.
  destruct (as_defined_exec ty h ops w' D) as (fn & Hfn & Hpt & Hcl & Hwr).
  split; [|split; [|split]].
  - unfold type_of. rewrite Hfn. simpl. by rewrite Hpt.
  - exists fn. by rewrite Hpt.
  - intros v. unfold assign_type, assign. rewrite Hfn. simpl. by rewrite Hpt.
  - intros plugin. unfold register, assign_plugin, assign. rewrite Hfn, Hwr.
    eexists. split; [done|]. simpl.
    assert (Hlt : h < length (sourceEvents (exec ops w'))) by by eapply lookup_lt_Some.
    unfold plugin_of, type_of. simpl. rewrite list_lookup_insert_eq by done. simpl.
    repeat split; [by rewrite Hpt|].
    intros other Hne. by rewrite list_lookup_insert_ne.
Qed.

(** ** A handler that throws or rejects *)

Lemma begin_body w m t tok :
  Base w m None -> InFlight w m t tok -> m_stage m = Handed ->
  microtasks w = [] -> macrotasks w = [] -> store w = Some tok ->
  Base (log (EvBegin (callback t) (store w)) w)
       {| m_pushes := m_pushes m; m_done := m_done m; m_stage := Open |} None
  /\ Body (log (EvBegin (callback t) (store w)) w)
       {| m_pushes := m_pushes m; m_done := m_done m; m_stage := Open |} t tok.
Proof.
  intros B F Hst Hmi Hma Hs.
  assert (Hnext : m_pushes m !! m_done m = Some (callback t)).
  { destruct F as [_ (n & Hn & Hp) _ _]. unfold started in Hn. rewrite Hst in Hn.
    by simplify_eq. }
  split.
  - apply (base_begun w _ m None (callback t) tok B); simpl; try done.
    + apply F.
    + by rewrite Hs.
  - split; simpl; try done.
    eapply inflight_kept; [exact F| | | | |]; simpl; try done.
    + exists []. by rewrite app_nil_r.
    + eauto.
    + unfold started. simpl. by rewrite Hst.
    + exists []. by rewrite app_nil_r.
Qed.

Lemma code_body c w m t tok :
  Base w m None -> Body w m t tok ->
  exists m', Base (run_code c w).1 m' None /\ Body (run_code c w).1 m' t tok.
Proof.
  intros B Bd.
  destruct (run_code_quiet c w m None B (body_busy _ _ _ _ B Bd)) as (m1 & B1 & Q1).
  exists m1. split; [done|]. by eapply body_quietly.
Qed.

Lemma body_halted w m t tok w' :
  Base w m None -> Body w m t tok ->
  the_queue w' = the_queue w -> microtasks w' = microtasks w ->
  macrotasks w' = macrotasks w -> promises w' = promises w ->
  halted (callback t) w'.
Proof.
  intros B [[Hr _ Hp _] _ Hmi Hma _] Hq Hmi' Hma' Hp'. unfold halted.
  rewrite Hq, Hmi', Hma', Hp'. repeat split; try done. apply B.
Qed.

Lemma job_world_base w m owed j rest :
  Base w m owed ->
  (microtasks w = j :: rest \/ microtasks w = [] /\ macrotasks w = j :: rest) ->
  Base (job_world j w) m owed
  /\ the_queue (job_world j w) = the_queue w
  /\ promises (job_world j w) = promises w
  /\ trace (job_world j w) = trace w
  /\ store (job_world j w) = job_store j.
Proof.
  intros B Hj. unfold job_world, dequeue.
  destruct Hj as [Hmi|[Hmi Hma]]; rewrite Hmi; simpl; repeat split; try done;
    apply (base_silent w _ m owed [] [] B); simpl; try done; by rewrite app_nil_r.
Qed.

(** A handler fails: it throws, or the promise it answered with is rejected.
    Nothing calls [cb]: the error ends up uncaught, the promise of the task
    stays pending and the queue keeps its only slot taken. *)
Lemma tick_raised w j e :
  Inv w -> next_job w = Some j -> handler_stop j w = Some (Raised e) ->
  halted (callback (job_entry j)) (tick w) /\ e ∈ uncaught (tick w).
Proof.
  intros (m & owed & B & P & Hs) Hj Hstop.
  rewrite (tick_dequeue _ _ Hj). unfold run_job.
  change (set_store (job_store j) (dequeue w)) with (job_world j w).
  unfold next_job in Hj. unfold handler_stop, job_entry in *.
  destruct P as [Hr Hw Hst -> Hmi Hma|t tok F Hst -> Hmi Hma|t tok k F Hst -> Hjob
                |Hr Hst -> Hmi Hma|t tok v F Hst -> Hmi Hma].
  - by rewrite Hmi, Hma in Hj.
  - rewrite Hmi, Hma in Hj. simplify_eq/=.
    destruct (job_world_base w m None {| job_store := Some tok; job_run := RunHandler t |} []
                B) as (B0 & Hq0 & Hp0 & Ht0 & Hs0); [by right|].
    set (ws := job_world _ w) in *. change (store ws = Some tok) in Hs0.
    assert (F0 : InFlight ws m t tok).
    { eapply inflight_kept; [exact F| | | | |]; try done.
      - by rewrite Hq0.
      - exists []. by rewrite app_nil_r.
      - exists []. by rewrite app_nil_r, Ht0.
      - exists []. by rewrite app_nil_r. }
    destruct (begin_body ws m t tok B0 F0 Hst) as [Bb Bdb]; try done.
    { unfold ws, job_world, dequeue. by rewrite Hmi. }
    { unfold ws, job_world, dequeue. rewrite Hmi. simpl. by rewrite Hma. }
    unfold run_handler. rewrite Hs0 in *.
    destruct (code_body (body (task_handler (value t)) (task_args (value t))
                (actions_of (task_plugin (value t))))
                (log (EvBegin (callback t) (Some tok)) ws) _ t tok Bb Bdb)
      as (m1 & B1 & Bd1).
    destruct (run_code _ _) as [w1 stop]. simpl in *. simplify_eq. simpl.
    destruct (is_async (task_handler (value t))); simpl; split.
    + eapply body_halted; [exact B1|exact Bd1| | | |]; done.
    + unfold promise_settles. simpl. apply elem_of_app. right. by left.
    + eapply body_halted; [exact B1|exact Bd1| | | |]; done.
    + apply elem_of_app. right. by left.
  - assert (Hj' : j = {| job_store := Some tok; job_run := ResumeHandler t k |}).
    { destruct Hjob as [[Hmi Hma]|[Hmi Hma]]; rewrite Hmi, ?Hma in Hj; by simplify_eq/=. }
    subst j. simpl in *.
    destruct (job_world_base w m None {| job_store := Some tok; job_run := ResumeHandler t k |} []
                B) as (B0 & Hq0 & Hp0 & Ht0 & Hs0); [tauto|].
    set (ws := job_world _ w) in *. change (store ws = Some tok) in Hs0.
    assert (Bd0 : Body ws m t tok).
    { split; try done.
      - eapply inflight_kept; [exact F| | | | |]; try done.
        + by rewrite Hq0.
        + exists []. by rewrite app_nil_r.
        + exists []. by rewrite app_nil_r, Ht0.
        + exists []. by rewrite app_nil_r.
      - unfold ws, job_world, dequeue.
        destruct Hjob as [[Hmi Hma]|[Hmi Hma]]; by rewrite Hmi.
      - unfold ws, job_world, dequeue.
        destruct Hjob as [[Hmi Hma]|[Hmi Hma]]; rewrite Hmi; simpl; by rewrite Hma. }
    unfold resume_handler.
    destruct (code_body k ws m t tok B0 Bd0) as (m1 & B1 & Bd1).
    destruct (run_code _ _) as [w1 stop]. simpl in *. simplify_eq. split.
    + eapply body_halted; [exact B1|exact Bd1| | | |]; done.
    + unfold promise_settles. simpl. apply elem_of_app. right. by left.
  - by rewrite Hmi, Hma in Hj.
  - rewrite Hmi in Hj. by simplify_eq/=.
Qed.

Lemma for_of_keeps {A} (P : World -> Prop) (f : A -> World -> World * Completion unit) l w :
  (forall x w, P w -> P (f x w).1) -> P w -> P (for_of f l w).1.
Proof.
  intros Hf. revert w. induction l as [|x l IH]; intros w I; simpl; [done|].
  pose proof (Hf x w I) as I'. destruct (f x w) as [w1 [r|e]]; simpl in *; auto.
Qed.

Lemma halted_call p b c h a w :
  halted p w /\ begins (trace w) = b /\ completions (trace w) = c ->
  halted p (call h a w).1 /\ begins (trace (call h a w).1) = b
  /\ completions (trace (call h a w).1) = c.
Proof.
  intros ((Hc & Hr & Hmi & Hma & Hp) & Hb & Hd).
  destruct (sourceEvents w !! h) as [fn|] eqn:Hfn;
    [|rewrite call_not_a_function by done; by repeat split].
  destruct (plugin_of h w) as [plugin|] eqn:Hpl.
  - rewrite (call_busy _ _ _ _ _ Hfn Hpl) by (rewrite Hc, Hr; lia).
    unfold halted, begins, completions in *. simpl. rewrite !omap_app. simpl.
    rewrite !app_nil_r. repeat split; try done. by apply lookup_app_l_Some.
  - rewrite (call_unregistered _ _ _ _ Hfn Hpl).
    unfold halted, begins, completions in *. simpl. rewrite !omap_app. simpl.
    rewrite !app_nil_r. repeat split; try done. by apply lookup_app_l_Some.
Qed.

(** Once the queue is stuck nothing a client does gets it going: no handler
    begins or completes any more and the promise stays pending. *)
Lemma halted_exec_op p b c o w :
  halted p w /\ begins (trace w) = b /\ completions (trace w) = c ->
  halted p (exec_op o w) /\ begins (trace (exec_op o w)) = b
  /\ completions (trace (exec_op o w)) = c.
Proof.
  intros H. destruct o; simpl.
  - unfold defineSourceEvent. destruct (falsy _); [done|]. destruct (falsy _); [done|].
    by destruct (def_handler _).
  - unfold assign_type. destruct (sourceEvents w !! event) as [fn|]; [|done].
    by destruct (assign _ _).
  - unfold assign_plugin. destruct (sourceEvents w !! event) as [fn|]; [|done].
    by destruct (assign _ _).
  - by apply halted_call.
  - unfold runEvent, async_function.
    pose proof (for_of_keeps
      (fun w => halted p w /\ begins (trace w) = b /\ completions (trace w) = c)
      (runEvent_step eventName args) events w) as Hloop.
    destruct (for_of _ events w) as [w1 r]. simpl in Hloop.
    assert (Hw1 : halted p w1 /\ begins (trace w1) = b /\ completions (trace w1) = c).
    { apply Hloop; [|done]. intros x w0 H0. unfold runEvent_step.
      destruct (sourceEvents w0 !! x) as [fn|]; [|done]. case_decide; [|done].
      pose proof (halted_call p b c x args w0 H0) as Hcall.
      destruct (call x args w0) as [w2 [r'|e']]; [|done]. simpl in *.
      by destruct (discard_cases r' w2) as [->|[e' ->]]. }
    destruct Hw1 as ((Hc & Hr & Hmi & Hma & Hp) & Hb & Hd).
    destruct r as [[]|e]; simpl; unfold halted; simpl; repeat split; try done;
      by apply lookup_app_l_Some.
  - destruct H as ((Hc & Hr & Hmi & Hma & Hp) & Hb & Hd).
    rewrite tick_none; [done|]. unfold next_job. by rewrite Hmi, Hma.
Qed.

Lemma halted_exec p b c ops w :
  halted p w /\ begins (trace w) = b /\ completions (trace w) = c ->
  halted p (exec ops w) /\ begins (trace (exec ops w)) = b
  /\ completions (trace (exec ops w)) = c.
Proof.
  revert w. induction ops as [|o ops IH]; intros w H; simpl; [done|].
  by apply IH, halted_exec_op.
Qed.



(** C2, as the code has it.  When the code of a handler throws, in its first
    stretch or after a suspension point, the worker never calls back: the
    error is reported as uncaught and from then on, whatever the clients
    do, the promise of the task is still pending (never rejected) and no
    handler of any task begins or completes. *)
Theorem C2_error_halts_queue w j e :
  reachable w -> next_job w = Some j -> handler_stop j w = Some (Raised e) ->
  e ∈ uncaught (tick w)
  /\ forall ops,
       promises (exec ops (tick w)) !! callback (job_entry j) = Some Pending
       /\ running (the_queue (exec ops (tick w))) = 1%Z
       /\ begins (trace (exec ops (tick w))) = begins (trace (tick w))
       /\ completions (trace (exec ops (tick w))) = completions (trace (tick w)).
Proof.
  intros R%reachable_inv Hj Hstop.
  destruct (tick_raised w j e R Hj Hstop) as [Hh He]. split; [done|]. intros ops.
  destruct (halted_exec (callback (job_entry j)) (begins (trace (tick w)))
              (completions (trace (tick w))) ops (tick w))
    as ((_ & Hr & _ & _ & Hp) & Hb & Hc); [done|]. done.
Qed.

(** ** The theorems on the example clients *)

Lemma C2_witness :
  reachable w_boom
  /\ next_job w_boom = Some j_boom
  /\ handler_stop j_boom w_boom = Some (Raised (Err "boom"))
  /\ Err "boom" ∈ uncaught (tick w_boom)
  /\ forall ops,
       promises (exec ops (tick w_boom)) !! callback (job_entry j_boom) = Some Pending
       /\ running (the_queue (exec ops (tick w_boom))) = 1%Z
       /\ begins (trace (exec ops (tick w_boom))) = begins (trace (tick w_boom))
       /\ completions (trace (exec ops (tick w_boom))) = completions (trace (tick w_boom)).
Proof.
  assert (R : reachable w_boom) by (exists uuid0, ops_boom; reflexivity).
  assert (Hj : next_job w_boom = Some j_boom) by (vm_compute; reflexivity).
  assert (Hstop : handler_stop j_boom w_boom = Some (Raised (Err "boom")))
    by (vm_compute; reflexivity).
  split; [exact R|]. split; [exact Hj|]. split; [exact Hstop|].
  exact (C2_error_halts_queue w_boom j_boom (Err "boom") R Hj Hstop).
Defined.

Lemma C3_witness :
  (sourceEvents w_nested !! 1 = Some fn_echo
   /\ plugin_of 1 w_nested = Some plugin0
   /\ exists w' p e,
        call 1 (JNum 5) w_nested = (w', Normal (RPromise p))
        /\ value e = {| task_type := closure_type fn_echo;
                        task_handler := closure_handler fn_echo;
                        task_args := JNum 5; task_parent := store w_nested;
                        task_plugin := plugin0 |}
        /\ callback e = p
        /\ (waiting (the_queue w') = waiting (the_queue w_nested) ++ [e]
            \/ exists tok, macrotasks w' = macrotasks w_nested ++
                             [{| job_store := Some tok; job_run := RunHandler e |}])
        /\ EvPush p (closure_type fn_echo) (store w_nested) ∈ trace w')
  /\ reachable w_nested
  /\ store w_nested = None
  /\ forall j, next_job w_nested = Some j ->
       exists tok,
         job_store j = Some tok
         /\ EvWorker (callback (job_entry j)) tok ∈ trace w_nested
         /\ exists new, trace (tick w_nested) = trace w_nested ++ new
            /\ forall p ty par, EvPush p ty par ∈ new -> par = Some tok.
Proof.
  assert (R : reachable w_nested) by (exists uuid0, ops_nested; reflexivity).
  assert (Hfn : sourceEvents w_nested !! 1 = Some fn_echo) by (vm_compute; reflexivity).
  assert (Hpl : plugin_of 1 w_nested = Some plugin0) by (vm_compute; reflexivity).
  destruct (C3_parent_token w_nested) as [H1 H2].
  split; [|split; [exact R|exact (H2 R)]].
  split; [exact Hfn|]. split; [exact Hpl|].
  exact (H1 1 (JNum 5) fn_echo plugin0 Hfn Hpl).
Defined.

Lemma C4_witness :
  sourceEvents w_setup !! 3 = Some (wrapHandlerWithEventTracking "A" h_late)
  /\ plugin_of 3 w_setup = None
  /\ exists w' p,
       call 3 JNull w_setup = (w', Normal (RPromise p))
       /\ promises w_setup !! p = None
       /\ promises w' !! p = Some (Rejected (Err "Please make sure you registered the function"))
       /\ (forall ops, promises (exec ops w') !! p
             = Some (Rejected (Err "Please make sure you registered the function")))
       /\ eventSystemQueue w' = eventSystemQueue w_setup
       /\ microtasks w' = microtasks w_setup /\ macrotasks w' = macrotasks w_setup
       /\ uuid_drawn w' = uuid_drawn w_setup
       /\ pushes (trace w') = pushes (trace w_setup).
Proof.
  assert (Hfn : sourceEvents w_setup !! 3 = Some (wrapHandlerWithEventTracking "A" h_late))
    by (vm_compute; reflexivity).
  assert (Hpl : plugin_of 3 w_setup = None) by (vm_compute; reflexivity).
  split; [exact Hfn|]. split; [exact Hpl|].
  exact (C4_unregistered_rejects 3 JNull w_setup _ Hfn Hpl).
Defined.

(** C4, as it is written, fails: the handler object 3 is defined and not
    registered, and calling it throws nothing to the caller. *)
Lemma C4_counterexample :
  sourceEvents w_setup !! 3 = Some (wrapHandlerWithEventTracking "A" h_late)
  /\ plugin_of 3 w_setup = None
  /\ ~ throws_to_caller 3 JNull w_setup.
Proof.
  assert (Hfn : sourceEvents w_setup !! 3 = Some (wrapHandlerWithEventTracking "A" h_late))
    by (vm_compute; reflexivity).
  assert (Hpl : plugin_of 3 w_setup = None) by (vm_compute; reflexivity).
  split; [exact Hfn|]. split; [exact Hpl|].
  intros (w' & e & H). rewrite (call_unregistered _ _ _ _ Hfn Hpl) in H. discriminate.
Qed.

Lemma C5_witness :
  absent_or_empty (def_type definition_untyped)
  /\ defineSourceEvent definition_untyped (init uuid0)
     = (init uuid0, Abrupt (Err "Your event is missing a type name."))
  /\ ~ absent_or_empty (def_type (definition_of "A" h_boom))
  /\ ~ absent_or_empty (def_description (definition_of "A" h_boom))
  /\ def_handler (definition_of "A" h_boom) = Some h_boom
  /\ exists ty w' event fn,
       def_type (definition_of "A" h_boom) = Some ty
       /\ defineSourceEvent (definition_of "A" h_boom) (init uuid0) = (w', Normal event)
       /\ sourceEvents (init uuid0) !! event = None
       /\ sourceEvents w' !! event = Some fn
       /\ (forall other, other <> event ->
             sourceEvents w' !! other = sourceEvents (init uuid0) !! other)
       /\ type_of w' event = Some ty
       /\ plugin_of event w' = None
       /\ closure_type fn = ty /\ closure_handler fn = h_boom.
Proof.
  assert (H : absent_or_empty (def_type definition_untyped)) by (right; reflexivity).
  assert (T : ~ absent_or_empty (def_type (definition_of "A" h_boom)))
    by (intros [E|E]; discriminate E).
  assert (D : ~ absent_or_empty (def_description (definition_of "A" h_boom)))
    by (intros [E|E]; discriminate E).
  split; [exact H|].
  split; [exact (proj1 (C5_define_validation definition_untyped (init uuid0)) H)|].
  split; [exact T|]. split; [exact D|]. split; [reflexivity|].
  exact (proj2 (proj2 (proj2 (C5_define_validation (definition_of "A" h_boom) (init uuid0))))
           T D h_boom eq_refl).
Defined.

Lemma C6_witness :
  Forall (fun h => is_Some (sourceEvents w_setup !! h)) [0; 1; 3]
  /\ exists w' p new,
       runEvent [0; 1; 3] "A" (JNum 2) w_setup = (w', p)
       /\ trace w' = trace w_setup ++ new
       /\ calls new = (fun h => (h, JNum 2)) <$>
            filter (fun h => type_of w_setup h = Some "A") [0; 1; 3]
       /\ begins new = [] /\ completions new = []
       /\ (p ∉ futures new)
       /\ promises w_setup !! p = None
       /\ promises w' !! p = Some (Fulfilled JUndefined).
Proof.
  assert (H : Forall (fun h => is_Some (sourceEvents w_setup !! h)) [0; 1; 3]).
  { repeat constructor; vm_compute; eexists; reflexivity. }
  split; [exact H|]. exact (C6_run_event [0; 1; 3] "A" (JNum 2) w_setup H).
Defined.



Lemma C8_witness :
  reachable w_plain
  /\ NoDup (drawn_uuids w_plain)
  /\ Forall (fun u => String.length u = 36) (drawn_uuids w_plain)
  /\ uuid_drawn w_plain = length (workers (trace w_plain))
  /\ length (workers (trace w_plain)) <= length (pushes (trace w_plain))
  /\ (workers (trace w_plain)).*1 ++ (callback <$> waiting (the_queue w_plain))
     = pushes (trace w_plain)
  /\ (uuid_drawn (call 1 (JNum 9) w_plain).1 = uuid_drawn w_plain
      /\ workers (trace (call 1 (JNum 9) w_plain).1) = workers (trace w_plain)
      /\ exists e, waiting (the_queue (call 1 (JNum 9) w_plain).1)
                   = waiting (the_queue w_plain) ++ [e]
           /\ callback e = length (promises w_plain))
  /\ (forall k p tok, workers (trace w_plain) !! k = Some (p, tok) ->
        exists ty, pushes_ty (trace w_plain) !! k = Some (p, ty)
                   /\ tok = ty +:+ "-" +:+ uuid_v4 w_plain k)
  /\ (forall i j p q a tok, i < j ->
        pushes (trace w_plain) !! i = Some p -> pushes (trace w_plain) !! j = Some q ->
        trace w_plain !! a = Some (EvWorker q tok) ->
        exists b e, b < a /\ trace w_plain !! b = Some e /\ completed e = Some p)
  /\ (forall p s, EvBegin p s ∈ trace w_plain ->
        exists tok, s = Some tok /\ EvWorker p tok ∈ trace w_plain)
  /\ NoDup (workers (trace w_plain)).*2
  /\ reachable w_run
  /\ uuid_drawn (call 1 (JNum 9) w_run).1 = S (uuid_drawn w_run)
  /\ workers (trace (call 1 (JNum 9) w_run).1)
     = workers (trace w_run)
         ++ [(length (promises w_run), token "B" (uuid_v4 w_run (uuid_drawn w_run)))]
  /\ begins (trace (call 1 (JNum 9) w_run).1) = begins (trace w_run).
Proof.
  assert (R : reachable w_plain) by (exists uuid0, ops_plain; reflexivity).
  assert (N : NoDup (drawn_uuids w_plain)).
  { apply (bool_decide_unpack _). vm_compute. exact I. }
  assert (L : Forall (fun u => String.length u = 36) (drawn_uuids w_plain)).
  { apply (bool_decide_unpack _). vm_compute. exact I. }
  assert (Hfn : sourceEvents w_plain !! 1 = Some fn_echo) by (vm_compute; reflexivity).
  assert (Hpl : plugin_of 1 w_plain = Some plugin0) by (vm_compute; reflexivity).
  assert (R' : reachable w_run) by (exists uuid0, ops_run; reflexivity).
  assert (Hfn' : sourceEvents w_run !! 1 = Some fn_echo) by (vm_compute; reflexivity).
  assert (Hpl' : plugin_of 1 w_run = Some plugin0) by (vm_compute; reflexivity).
  destruct (C8_context_token w_plain R) as (H1 & H2 & H3 & H4 & H5 & H6 & H7 & H8).
  destruct (C8_context_token w_run R') as (_ & _ & _ & H4' & _).
  split; [exact R|]. split; [exact N|]. split; [exact L|].
  split; [exact H1|]. split; [exact H2|]. split; [exact H3|].
  split; [exact (H4 1 (JNum 9) fn_echo plugin0 Hfn Hpl)|].
  split; [exact H5|]. split; [exact H6|]. split; [exact H7|]. split; [exact (H8 N L)|].
  split; [exact R'|]. exact (H4' 1 (JNum 9) fn_echo plugin0 Hfn' Hpl').
Defined.

Lemma C8_counterexample :
  reachable w_setup
  /\ sourceEvents w_setup !! 1 = Some fn_echo
  /\ plugin_of 1 w_setup = Some plugin0
  /\ ~ no_token_at_enqueue 1 (JNum 1) w_setup.
Proof.
  assert (R : reachable w_setup) by (exists uuid0, ops_setup; reflexivity).
  split; [exact R|]. split; [vm_compute; reflexivity|]. split; [vm_compute; reflexivity|].
  intros [H _]. vm_compute in H. discriminate.
Qed.

Lemma C9_witness :
  defineSourceEvent (definition_of "A" h_boom) (init uuid0) = (w_defined, Normal 0)
  /\ exists ty, def_type (definition_of "A" h_boom) = Some ty /\
       forall ops,
         type_of (exec ops w_defined) 0 = Some ty
         /\ (exists fn, sourceEvents (exec ops w_defined) !! 0 = Some fn
               /\ pd_writable (prop_type fn) = false
               /\ pd_configurable (prop_type fn) = false
               /\ pd_writable (prop_plugin fn) = true)
         /\ (forall v, assign_type 0 v (exec ops w_defined)
               = (exec ops w_defined, Abrupt (TypeErr "Cannot assign to read only property")))
         /\ (forall plugin, exists w3,
               register 0 plugin (exec ops w_defined) = (w3, Normal tt)
               /\ plugin_of 0 w3 = Some plugin
               /\ type_of w3 0 = Some ty
               /\ forall other, other <> 0 ->
                    sourceEvents w3 !! other = sourceEvents (exec ops w_defined) !! other).
Proof.
  assert (H : defineSourceEvent (definition_of "A" h_boom) (init uuid0)
              = (w_defined, Normal 0)) by reflexivity.
  split; [exact H|].
  exact (C9_type_read_only (definition_of "A" h_boom) (init uuid0) w_defined 0 H).
Defined.

(** A handler that registers another handler object and then assigns to its
    [type]: the registration takes effect, the assignment throws inside the
    handler, and the type is the one of the definition. *)
Example meddling_handler :
  plugin_of 0 w_defined = None
  /\ plugin_of 0 (exec ops_meddle w_defined) = Some plugin0
  /\ type_of (exec ops_meddle w_defined) 0 = Some "A"
  /\ uncaught (exec ops_meddle w_defined) = [TypeErr "Cannot assign to read only property"].
Proof. vm_compute. repeat split. Qed.

Lemma C10_witness :
  Forall (fun h => is_Some (sourceEvents w_setup !! h)) [0; 1; 3]
  /\ exists w' p,
       runEvent [0; 1; 3] "A" JNull w_setup = (w', p)
       /\ promises w_setup !! p = None
       /\ promises w' !! p = Some (Fulfilled JUndefined)
       /\ forall ops, promises (exec ops w') !! p = Some (Fulfilled JUndefined).
Proof.
  assert (H : Forall (fun h => is_Some (sourceEvents w_setup !! h)) [0; 1; 3]).
  { repeat constructor; vm_compute; eexists; reflexivity. }
  split; [exact H|]. exact (C10_run_event_resolves [0; 1; 3] "A" JNull w_setup H).
Defined.

Lemma C1_witness :
  reachable w_run
  /\ concurrency (the_queue w_run) = 1%Z
  /\ (running (the_queue w_run) = 0 \/ running (the_queue w_run) = 1)%Z
  /\ begins (trace w_run) `prefix_of` pushes (trace w_run)
  /\ NoDup (pushes (trace w_run))
  /\ (forall a, begins (take a (trace w_run)) = completions (take a (trace w_run))
        \/ exists p, begins (take a (trace w_run)) = completions (take a (trace w_run)) ++ [p])
  /\ (forall i j p q a s, i < j ->
        pushes (trace w_run) !! i = Some p -> pushes (trace w_run) !! j = Some q ->
        trace w_run !! a = Some (EvBegin q s) ->
        exists b e, b < a /\ trace w_run !! b = Some e /\ completed e = Some p)
  /\ next_job w_run = None
  /\ begins (trace w_run) = completions (trace w_run)
  /\ completions (trace w_run) = pushes (trace w_run).
Proof.
  assert (R : reachable w_run) by (exists uuid0, ops_run; reflexivity).
  assert (N : next_job w_run = None) by (vm_compute; reflexivity).
  assert (E : begins (trace w_run) = completions (trace w_run)) by (vm_compute; reflexivity).
  destruct (C1_serial_fifo w_run R) as (H1 & H2 & H3 & H4 & H5 & H6 & H7).
  split; [exact R|]. split; [exact H1|]. split; [exact H2|]. split; [exact H3|].
  split; [exact H4|]. split; [exact H5|]. split; [exact H6|].
  split; [exact N|]. split; [exact E|]. exact (H7 N E).
Defined.

(** * Further properties of the module *)

(** ** Induction over what clients do *)

Lemma exec_snoc ops o w : exec (ops ++ [o]) w = exec_op o (exec ops w).
Proof. unfold exec. by rewrite fold_left_app.
Qed.

Lemma reachable_init uuids : reachable (init uuids).
Proof. by exists uuids, [].
Qed.

Lemma reachable_exec_op o w : reachable w -> reachable (exec_op o w).
Proof.
  intros (uuids & ops & ->). exists uuids, (ops ++ [o]). by rewrite exec_snoc.
Qed.

Lemma reachable_induction (P : World -> Prop) :
  (forall uuids, P (init uuids)) ->
  (forall o w, reachable w -> P w -> P (exec_op o w)) ->
  forall w, reachable w -> P w.
Proof.
  intros H0 Hstep w (uuids & ops & ->).
  induction ops as [|o ops IH] using rev_ind; [apply H0|].
  rewrite exec_snoc. apply Hstep; [by exists uuids, ops|exact IH].
Qed.

(** ** Handler objects stay as they were wrapped; the promise of a task is
    never rejected *)

Lemma pushes_app tr new : pushes (tr ++ new) = pushes tr ++ pushes new.
Proof. unfold pushes. by rewrite omap_app.
Qed.

(** A step that pushes no task, leaves the handler objects alone and
    settles no promise. *)
Lemma sound_step w w' ps new :
  Sound w ->
  sourceEvents w' = sourceEvents w ->
  promises w' = promises w ++ ps ->
  trace w' = trace w ++ new -> pushes new = [] ->
  (forall j t v, j ∈ microtasks w' ++ macrotasks w' -> job_run j = ThenCb t v ->
     j ∈ microtasks w ++ macrotasks w \/ EvResolve (callback t) v ∈ trace w') ->
  (eventSystemQueue w = None -> asyncStorage w = None ->
     eventSystemQueue w' = None /\ asyncStorage w' = None) ->
  Sound w'.
Proof.
  intros [Sh Sf Ss Sr Sl] Hh Hp Ht Hn Hj Hl.
  assert (Hpu : pushes (trace w') = pushes (trace w)).
  { by rewrite Ht, pushes_app, Hn, app_nil_r. }
  split.
  - rewrite Hh. exact Sh.
  - intros p. rewrite Hpu, Hp, length_app. intros H%Sf. lia.
  - intros p st. rewrite Hpu, Hp. intros Hin Hst.
    rewrite lookup_app_l in Hst by by apply Sf.
    destruct (Ss p st Hin Hst) as [->|(v & e & -> & He & Hc)]; [by left|].
    right. exists v, e. rewrite Ht. split; [done|]. split; [|done].
    apply elem_of_app. by left.
  - intros j t v Hin Hrun. destruct (Hj j t v Hin Hrun) as [Hold|Hnew]; [|done].
    rewrite Ht. apply elem_of_app. left. by eapply Sr.
  - rewrite Hpu. intros H. destruct (Sl H) as [H1 H2]. by apply Hl.
Qed.

(** A step that touches the handler objects only. *)
Lemma sound_handlers w hs :
  Sound w -> (forall h fn, hs !! h = Some fn -> as_wrapped fn) ->
  Sound (set_sourceEvents hs w).
Proof.
  intros [Sh Sf Ss Sr Sl] H. by split.
Qed.

Lemma sound_defineSourceEvent d w : Sound w -> Sound (defineSourceEvent d w).1.
Proof.
  intros S. unfold defineSourceEvent. destruct (falsy _); [done|].
  destruct (falsy _); [done|]. destruct (def_handler d) as [handler|]; [|done]. simpl.
  apply sound_handlers; [done|]. intros h fn [Hold|[_ Hnew]]%lookup_app_Some.
  - by eapply snd_handlers.
  - apply list_lookup_singleton_Some in Hnew as [_ <-]. by split.
Qed.

Lemma sound_assign_type h v w : Sound w -> Sound (assign_type h v w).1.
Proof.
  intros S. unfold assign_type. destruct (sourceEvents w !! h) as [fn|] eqn:Hfn; [|done].
  destruct (snd_handlers w S h fn Hfn) as [Hty Hwr].
  unfold assign. by rewrite Hty.
Qed.

Lemma sound_assign_plugin h v w : Sound w -> Sound (assign_plugin h v w).1.
Proof.
  intros S. unfold assign_plugin. destruct (sourceEvents w !! h) as [fn|] eqn:Hfn; [|done].
  destruct (snd_handlers w S h fn Hfn) as [Hty Hwr].
  unfold assign. rewrite Hwr. simpl. apply sound_handlers; [done|].
  intros h' fn' Hl. destruct (decide (h' = h)) as [->|Hne].
  - rewrite list_lookup_insert_eq in Hl by by eapply lookup_lt_Some.
    simplify_eq. by split.
  - rewrite list_lookup_insert_ne in Hl by done. by eapply snd_handlers.
Qed.

Lemma sound_new_promise st w : Sound w -> Sound (new_promise st w).1.
Proof.
  intros S. apply (sound_step w _ [st] [] S); simpl; try done.
  - by rewrite app_nil_r.
  - intros. by left.
Qed.

Lemma sound_call h a w : Sound w -> Sound (call h a w).1.
Proof.
  intros S. destruct (sourceEvents w !! h) as [fn|] eqn:Hfn;
    [|by rewrite call_not_a_function].
  destruct (plugin_of h w) as [plugin|] eqn:Hpl.
  2:{ rewrite (call_unregistered _ _ _ _ Hfn Hpl).
      apply (sound_step w _ [Rejected not_registered] [EvCall h a (length (promises w))] S);
        simpl; try done. intros. by left. }
  assert (Hnew : forall w', sourceEvents w' = sourceEvents w ->
            promises w' = promises w ++ [Pending] ->
            (exists new, trace w' = trace w ++ EvPush (length (promises w)) (closure_type fn)
                                       (store w) :: new /\ pushes new = []) ->
            (forall j t v, j ∈ microtasks w' ++ macrotasks w' -> job_run j = ThenCb t v ->
               j ∈ microtasks w ++ macrotasks w) ->
            Sound w').
  { intros w' Hh Hp (new & Ht & Hn) Hj. destruct S as [Sh Sf Ss Sr Sl].
    assert (Hpu : pushes (trace w') = pushes (trace w) ++ [length (promises w)]).
    { rewrite Ht. rewrite (pushes_app _ (_ :: new)).
      change (_ :: new) with ([EvPush (length (promises w)) (closure_type fn) (store w)] ++ new).
      by rewrite pushes_app, Hn. }
    split.
    - by rewrite Hh.
    - intros p. rewrite Hpu, Hp, length_app. simpl.
      intros [H%Sf|H%list_elem_of_singleton]%elem_of_app; [|subst p]; lia.
    - intros p st. rewrite Hpu, Hp.
      intros [Hin|Heq%list_elem_of_singleton]%elem_of_app Hst; [|subst p].
      + rewrite lookup_app_l in Hst by by apply Sf.
        destruct (Ss p st Hin Hst) as [->|(v & e & -> & He & Hc)]; [by left|].
        right. exists v, e. rewrite Ht. split; [done|]. split; [|done].
        apply elem_of_app. by left.
      + rewrite list_lookup_middle in Hst by done. left. congruence.
    - intros j t v Hin Hrun. rewrite Ht. apply elem_of_app. left.
      eapply Sr; [|done]. by eapply Hj.
    - rewrite Hpu. intros H. by apply app_eq_nil in H as [_ ?]. }
  destruct (decide (concurrency (the_queue w) <= running (the_queue w))%Z).
  - rewrite (call_busy _ _ _ _ _ Hfn Hpl) by done. apply Hnew; simpl; try done.
    by exists [EvCall h a (length (promises w))].
  - rewrite (call_idle _ _ _ _ _ Hfn Hpl) by lia. apply Hnew; simpl; try done.
    + by eexists [_; _].
    + intros j t v Hin Hrun. rewrite app_assoc in Hin.
      apply elem_of_app in Hin as [Hin|Hin%list_elem_of_singleton]; [done|].
      subst j. discriminate Hrun.
Qed.

Lemma sound_discard r w : Sound w -> Sound (discard r w).
Proof.
  intros S. destruct (discard_cases r w) as [->|[e ->]]; [done|].
  apply (sound_step w _ [] [] S); simpl; try done; try by rewrite app_nil_r.
  intros. by left.
Qed.

Lemma sound_runEvent_step name a h w : Sound w -> Sound (runEvent_step name a h w).1.
Proof.
  intros S. unfold runEvent_step. destruct (sourceEvents w !! h) as [fn|]; [|done].
  case_decide; [|done].
  pose proof (sound_call h a w S) as S'. destruct (call h a w) as [w1 [r|e]]; [|done].
  by apply sound_discard.
Qed.

Lemma sound_runEvent hs name a w : Sound w -> Sound (runEvent hs name a w).1.
Proof.
  intros S. unfold runEvent, async_function.
  pose proof (for_of_keeps Sound (runEvent_step name a) hs w
                (sound_runEvent_step name a) S) as S'.
  destruct (for_of _ hs w) as [w1 [r|e]]; simpl in *; by apply sound_new_promise.
Qed.

Lemma sound_run_code c w : Sound w -> Sound (run_code c w).1.
Proof.
  revert w. induction c as [v|e|h a k IH|hs name a k IH|h v k IH|h v k IH|q k _|];
    intros w S; simpl; try done.
  - pose proof (sound_call h a w S) as S'.
    destruct (call h a w) as [w1 [r|e]]; simpl in *; [|done].
    by apply IH, sound_discard.
  - pose proof (sound_runEvent hs name a w S) as S'.
    destruct (runEvent hs name a w) as [w1 p]. simpl in *.
    by apply IH, (sound_discard (RPromise p)).
  - pose proof (sound_assign_plugin h v w S) as S'.
    destruct (assign_plugin h v w) as [w1 [r|e]]; simpl in *; auto.
  - pose proof (sound_assign_type h v w S) as S'.
    destruct (assign_type h v w) as [w1 [r|e]]; simpl in *; auto.
Qed.

(** A step that only adds or removes callbacks that run handler code. *)
Lemma sound_jobs w w' :
  Sound w ->
  sourceEvents w' = sourceEvents w -> promises w' = promises w -> trace w' = trace w ->
  (forall j t v, j ∈ microtasks w' ++ macrotasks w' -> job_run j = ThenCb t v ->
     j ∈ microtasks w ++ macrotasks w) ->
  (eventSystemQueue w = None -> asyncStorage w = None ->
     eventSystemQueue w' = None /\ asyncStorage w' = None) ->
  Sound w'.
Proof.
  intros S Hh Hp Ht Hj Hl. apply (sound_step w w' [] [] S); try done.
  - by rewrite app_nil_r.
  - by rewrite app_nil_r.
  - intros j t v Hin Hrun. left. by eapply Hj.
Qed.

Lemma sound_worker t w : Sound w -> Sound (worker t w).1.
Proof.
  intros S. unfold worker. destruct (asyncStorage w) eqn:Hs; [|done].
  unfold als_run, draw_uuid. simpl.
  eapply (sound_step w _ [] [_] S); simpl; try done.
  - by rewrite app_nil_r.
  - intros j t' v Hin Hrun. left. rewrite app_assoc in Hin.
    apply elem_of_app in Hin as [Hin|Hin%list_elem_of_singleton]; [done|].
    subst j. discriminate Hrun.
Qed.

Lemma sound_release w : Sound w -> Sound (release worker w).1.
Proof.
  intros S. unfold release. destruct (eventSystemQueue w) as [q|] eqn:Hq; [|done].
  destruct (waiting q) as [|next rest].
  - simpl. apply (sound_jobs w); simpl; try done. congruence.
  - apply sound_worker. apply (sound_jobs w); simpl; try done. congruence.
Qed.

Lemma sound_resolve p v w :
  Sound w -> (exists e, e ∈ trace w /\ completed_with e = Some (p, v)) ->
  Sound (resolve p v w).
Proof.
  intros S (e & He & Hc). unfold resolve, settle.
  destruct (promises w !! p) as [[]|] eqn:Hp; try done.
  destruct S as [Sh Sf Ss Sr Sl]. split; simpl; try done.
  - intros p'. rewrite length_insert. apply Sf.
  - intros p' st Hin Hst. destruct (decide (p' = p)) as [->|Hne].
    + rewrite list_lookup_insert_eq in Hst by by eapply lookup_lt_Some.
      simplify_eq. right. by exists v, e.
    + rewrite list_lookup_insert_ne in Hst by done. by apply Ss.
Qed.

(** The callback of a task is called with the value its handler completed
    with. *)
Lemma sound_worked t v w :
  Sound w -> (exists e, e ∈ trace w /\ completed_with e = Some (callback t, v)) ->
  Sound (worked worker push_callback t None v w).1.
Proof.
  intros S He. unfold worked, push_callback. by apply sound_release, sound_resolve.
Qed.

Lemma sound_log e w : pushed e = None -> Sound w -> Sound (log e w).
Proof.
  intros He S. apply (sound_step w _ [] [e] S); simpl; try done.
  - by rewrite app_nil_r.
  - unfold pushes. simpl. by rewrite He.
  - intros. by left.
Qed.

Lemma sound_promise_settles t o w : Sound w -> Sound (promise_settles t o w).
Proof.
  intros S. destruct o as [v|e]; unfold promise_settles.
  - apply (sound_step w _ [] [EvResolve (callback t) v] S); simpl; try done.
    + by rewrite app_nil_r.
    + intros j t' v' Hin Hrun. rewrite <- !app_assoc in Hin.
      apply elem_of_app in Hin as [Hin|Hin].
      * left. apply elem_of_app. by left.
      * apply elem_of_app in Hin as [Hin%list_elem_of_singleton|Hin].
        -- subst j. simpl in Hrun. simplify_eq. right.
           apply elem_of_app. right. by left.
        -- left. apply elem_of_app. by right.
  - apply (sound_jobs (log (EvFail (callback t) e) w)); simpl; try done.
    by apply sound_log.
Qed.

Lemma sound_schedule q t k w : Sound w -> Sound (schedule q (ResumeHandler t k) w).
Proof.
  intros S. destruct q; apply (sound_jobs w); simpl; try done.
  - intros j t' v Hin Hrun. rewrite <- app_assoc in Hin.
    apply elem_of_app in Hin as [Hin|Hin]; [apply elem_of_app; by left|].
    apply elem_of_app in Hin as [Hin%list_elem_of_singleton|Hin].
    + subst j. discriminate Hrun.
    + apply elem_of_app. by right.
  - intros j t' v Hin Hrun. rewrite app_assoc in Hin.
    apply elem_of_app in Hin as [Hin|Hin%list_elem_of_singleton]; [done|].
    subst j. discriminate Hrun.
Qed.

Lemma sound_resume_handler t k w : Sound w -> Sound (resume_handler t k w).1.
Proof.
  intros S. unfold resume_handler. pose proof (sound_run_code k w S) as S1.
  destruct (run_code k w) as [w1 [v|e|q k'|]]; simpl in *; try done.
  - by apply sound_promise_settles.
  - by apply sound_promise_settles.
  - by apply sound_schedule.
Qed.

Lemma sound_run_handler t w : Sound w -> Sound (run_handler t w).1.
Proof.
  intros S. unfold run_handler.
  pose proof (sound_run_code (body (task_handler (value t)) (task_args (value t))
                                (actions_of (task_plugin (value t))))
                (log (EvBegin (callback t) (store w)) w)
                (sound_log (EvBegin (callback t) (store w)) w eq_refl S)) as S1.
  destruct (run_code _ _) as [w1 [v|e|q k'|]]; simpl in *; try done.
  - destruct (is_async _); simpl; [by apply sound_promise_settles|].
    destruct (truthy (get "then" v)); simpl; [done|].
    apply sound_worked; [by apply sound_log|].
    exists (EvReturn (callback t) v). split; [|done]. simpl.
    apply elem_of_app. right. by left.
  - destruct (is_async _); simpl; [by apply sound_promise_settles|].
    by apply sound_log.
  - by apply sound_schedule.
Qed.

Lemma sound_run_callback cb w :
  Sound w ->
  (forall t v, cb = ThenCb t v -> EvResolve (callback t) v ∈ trace w) ->
  Sound (run_callback cb w).1.
Proof.
  intros S H. destruct cb as [t|t k|t v]; simpl.
  - by apply sound_run_handler.
  - by apply sound_resume_handler.
  - apply sound_worked; [done|]. exists (EvResolve (callback t) v). split; [|done].
    by apply H.
Qed.

Lemma sound_run_job j w :
  Sound w ->
  (forall t v, job_run j = ThenCb t v -> EvResolve (callback t) v ∈ trace w) ->
  Sound (run_job j w).
Proof.
  intros S H. unfold run_job.
  assert (S0 : Sound (set_store (job_store j) w)) by by apply (sound_jobs w).
  pose proof (sound_run_callback (job_run j) _ S0 H) as S1.
  destruct (run_callback _ _) as [w1 [r|e]]; simpl in *;
    eapply sound_jobs; try exact S1; done.
Qed.

Lemma sound_tick w : Sound w -> Sound (tick w).
Proof.
  intros S. unfold tick. destruct (microtasks w) as [|j mi] eqn:Hmi.
  - destruct (macrotasks w) as [|j ma] eqn:Hma; [done|].
    apply sound_run_job.
    + apply (sound_jobs w); simpl; try done.
      intros j' t v Hin Hrun. rewrite Hmi, Hma in *. simpl in *. by right.
    + intros t v Hrun. simpl. eapply (snd_reactions w S j); [|done].
      rewrite Hmi, Hma. by left.
  - apply sound_run_job.
    + apply (sound_jobs w); simpl; try done.
      intros j' t v Hin Hrun. rewrite Hmi. by right.
    + intros t v Hrun. simpl. eapply (snd_reactions w S j); [|done].
      rewrite Hmi. by left.
Qed.

Lemma sound_init uuids : Sound (init uuids).
Proof.
  split; simpl; try done; intros;
    match goal with H : _ ∈ _ |- _ => by apply elem_of_nil in H end.
Qed.

Lemma sound_exec_op o w : Sound w -> Sound (exec_op o w).
Proof.
  intros S. destruct o; simpl.
  - by apply sound_defineSourceEvent.
  - by apply sound_assign_type.
  - by apply sound_assign_plugin.
  - by apply sound_call.
  - by apply sound_runEvent.
  - by apply sound_tick.
Qed.

Lemma reachable_sound w : reachable w -> Sound w.
Proof.
  apply (reachable_induction Sound); [apply sound_init|].
  intros o w0 _. apply sound_exec_op.
Qed.

(** ** The promise of a task *)

(** X1. The promise of a task that was pushed is never rejected: in every
    world the clients can reach it is pending, or fulfilled with the value
    its handler completed with.  The [reject] of [pushTaskToQueue] is never
    called. *)
Theorem X1_task_future_never_rejected w p :
  reachable w -> p ∈ pushes (trace w) ->
  promises w !! p = Some Pending
  \/ exists v, promises w !! p = Some (Fulfilled v)
       /\ (EvReturn p v ∈ trace w \/ EvResolve p v ∈ trace w).
Proof.
  intros S%reachable_sound Hin.
  pose proof (snd_fresh w S p Hin) as Hlt.
  destruct (lookup_lt_is_Some_2 _ _ Hlt) as [st Hst].
  destruct (snd_settled w S p st Hin Hst) as [->|(v & e & -> & He & Hc)]; [by left|].
  right. exists v. split; [done|].
  destruct e; simpl in Hc; simplify_eq; auto.
Qed.

(** ** The queue and its list *)


(** ** The two singletons *)

(** X9. For clients that reach the module through its handler objects and
    [runEvent], the queue and the [AsyncLocalStorage] are made by the first
    call of a registered handler and by nothing else: both exist exactly
    when some task has been pushed. *)
Theorem X9_singletons_on_first_push w :
  reachable w ->
  (eventSystemQueue w = None <-> pushes (trace w) = [])
  /\ (asyncStorage w = None <-> pushes (trace w) = []).
Proof.
  intros R. pose proof (reachable_sound w R) as S.
  destruct (reachable_inv w R) as (m & owed & B & _ & _).
  pose proof (acc_pushes _ _ (monitor_accepted _ _ (base_monitor _ _ _ B))) as Hp.
  assert (H : pushes (trace w) <> [] ->
              asyncStorage w = Some tt /\ is_Some (eventSystemQueue w)).
  { rewrite <- Hp. apply B. }
  split; split.
  - intros Hq. destruct (pushes (trace w)) as [|p l] eqn:E; [done|].
    destruct H as [_ [q Hq']]; [done|]. congruence.
  - intros Hn. by apply (snd_lazy w S).
  - intros Hs. destruct (pushes (trace w)) as [|p l] eqn:E; [done|].
    destruct H as [Hs' _]; [done|]. congruence.
  - intros Hn. by apply (snd_lazy w S).
Qed.

(** ** A call runs no handler code *)

(** X10. A call of a handler object never runs handler code before it
    answers, not even when the queue is idle: no handler has begun or
    completed, nothing was reported as uncaught and the async context of the
    caller is as before. *)
Theorem X10_call_is_deferred h a w :
  begins (trace (call h a w).1) = begins (trace w)
  /\ completions (trace (call h a w).1) = completions (trace w)
  /\ uncaught (call h a w).1 = uncaught w
  /\ store (call h a w).1 = store w.
Proof.
  destruct (sourceEvents w !! h) as [fn|] eqn:Hfn;
    [|by rewrite call_not_a_function].
  unfold begins, completions.
  destruct (plugin_of h w) as [plugin|] eqn:Hpl.
  - destruct (decide (concurrency (the_queue w) <= running (the_queue w))%Z).
    + rewrite (call_busy _ _ _ _ _ Hfn Hpl) by done. simpl.
      rewrite !omap_app. simpl. by rewrite !app_nil_r.
    + rewrite (call_idle _ _ _ _ _ Hfn Hpl) by lia. simpl.
      rewrite !omap_app. simpl. by rewrite !app_nil_r.
  - rewrite (call_unregistered _ _ _ _ Hfn Hpl). simpl.
    rewrite !omap_app. simpl. by rewrite !app_nil_r.
Qed.

(** ** The parent of a task is a task handed to the worker before *)

Lemma monitor_at tr m i e :
  monitor tr = Some m -> tr !! i = Some e ->
  exists m0 m1, monitor (take i tr) = Some m0 /\ mon_step m0 e = Some m1.
Proof.
  intros Hm He. destruct (monitor_take tr m (S i) Hm) as [m1 Hm1].
  rewrite (take_S_r _ _ _ He), monitor_snoc in Hm1.
  destruct (monitor (take i tr)) as [m0|]; [|discriminate]. by exists m0, m1.
Qed.

Lemma pushes_take_subseteq k i tr p : k <= i -> p ∈ pushes (take k tr) -> p ∈ pushes (take i tr).
Proof.
  intros Hki. unfold pushes. rewrite !list_elem_of_omap.
  intros (e & He & Hp). exists e. split; [|done].
  apply list_elem_of_lookup in He as [n Hn]. apply lookup_take_Some in Hn as [Hn Hlt].
  apply list_elem_of_lookup. exists n. apply lookup_take_Some. split; [done|lia].
Qed.

(** In a trace the monitor accepts, the task handed to the worker at one
    point is none of the tasks pushed later. *)
Lemma worker_before_push tr m k i q tok p ty par :
  monitor tr = Some m -> k < i ->
  tr !! k = Some (EvWorker q tok) -> tr !! i = Some (EvPush p ty par) -> q <> p.
Proof.
  intros Hm Hki Hk Hi.
  destruct (monitor_at tr m k _ Hm Hk) as (m0 & m1 & Hm0 & Hs0).
  destruct (monitor_at tr m i _ Hm Hi) as (m2 & m3 & Hm2 & Hs2).
  simpl in Hs0, Hs2. apply mon_next_Some in Hs0 as (_ & Hq & _).
  destruct (decide (p ∈ m_pushes m2)) as [|Hnot]; [discriminate|].
  rewrite (acc_pushes _ _ (monitor_accepted _ _ Hm0)) in Hq.
  rewrite (acc_pushes _ _ (monitor_accepted _ _ Hm2)) in Hnot.
  intros ->. apply Hnot. apply (pushes_take_subseteq k i); [lia|].
  by eapply list_elem_of_lookup_2.
Qed.

Lemma parents_known_app tr new m s :
  monitor (tr ++ new) = Some m ->
  parents_known tr -> Forall (parent_is s) new ->
  (forall tok, s = Some tok -> exists q, EvWorker q tok ∈ tr) ->
  parents_known (tr ++ new).
Proof.
  intros Hm Hold Hnew Hs i p ty tok Hi.
  assert (Hk : exists k q, k < i /\ (tr ++ new) !! k = Some (EvWorker q tok)).
  { destruct (decide (i < length tr)) as [Hlt|Hge].
    - rewrite lookup_app_l in Hi by done.
      destruct (Hold i p ty tok Hi) as (k & q & Hki & Hk & _).
      exists k, q. split; [done|]. by apply lookup_app_l_Some.
    - rewrite lookup_app_r in Hi by lia.
      rewrite list.Forall_forall in Hnew.
      pose proof (Hnew _ (list_elem_of_lookup_2 _ _ _ Hi)) as Hpar. simpl in Hpar.
      destruct (Hs tok) as [q Hq]; [done|].
      apply list_elem_of_lookup in Hq as [k Hk].
      exists k, q. split; [apply lookup_lt_Some in Hk; lia|]. by apply lookup_app_l_Some. }
  destruct Hk as (k & q & Hki & Hk). exists k, q. split; [done|]. split; [done|].
  by eapply (worker_before_push (tr ++ new) m k i).
Qed.

(** X5. The parent recorded on a task, when it is not null, is a token the
    worker made earlier in the run for another task: the parents link every
    task to a task that was handed to the worker before it was pushed, so
    no task is its own ancestor. *)
Theorem X5_parent_is_an_earlier_task w i p ty tok :
  reachable w -> trace w !! i = Some (EvPush p ty (Some tok)) ->
  exists k q, k < i /\ trace w !! k = Some (EvWorker q tok) /\ q <> p.
Proof.
  intros R. revert i p ty tok. change (parents_known (trace w)).
  revert w R. apply (reachable_induction (fun w => parents_known (trace w))).
  { intros uuids i p ty tok H. simpl in H. by rewrite lookup_nil in H. }
  intros o w R IH.
  destruct (reachable_inv _ (reachable_exec_op o w R)) as (m' & owed' & B' & _ & _).
  pose proof (base_monitor _ _ _ B') as Hm'.
  destruct (reachable_inv w R) as (m & owed & B & P & Hst).
  assert (Htop : forall new, trace (exec_op o w) = trace w ++ new ->
                   Forall (parent_is (store w)) new -> parents_known (trace (exec_op o w))).
  { intros new Ht Hnew. rewrite Ht in *.
    apply (parents_known_app _ _ m' None Hm' IH); [by rewrite <- Hst|done]. }
  destruct o; simpl in *.
  - unfold defineSourceEvent. destruct (falsy _); [done|]. destruct (falsy _); [done|].
    by destruct (def_handler _).
  - unfold assign_type. destruct (sourceEvents w !! event); [|done].
    by destruct (assign _ _).
  - unfold assign_plugin. destruct (sourceEvents w !! event); [|done].
    by destruct (assign _ _).
  - destruct (fr_trace _ _ (frame_call event args w)) as (new & Ht & Hnew). eauto.
  - destruct (fr_trace _ _ (frame_runEvent events eventName args w)) as (new & Ht & Hnew).
    eauto.
  - destruct (next_job w) as [j|] eqn:Hj; [|by rewrite tick_none].
    destruct (tick_turn w j Hj) as (_ & _ & _ & _ & new & Ht & Hnew).
    destruct (phase_next_job w m owed j P Hj) as (tok & Hjs & F).
    rewrite Ht in *. apply (parents_known_app _ _ m' (job_store j) Hm' IH Hnew).
    intros tok' Heq. exists (callback (job_entry j)).
    rewrite Hjs in Heq. simplify_eq. apply F.
Qed.

(** ** More on [runEvent] *)

Lemma for_of_app {A} (f : A -> World -> World * Completion unit) l1 l2 w :
  for_of f (l1 ++ l2) w =
    match for_of f l1 w with
    | (w1, Normal _) => for_of f l2 w1
    | (w1, Abrupt e) => (w1, Abrupt e)
    end.
Proof.
  revert w. induction l1 as [|x l1 IH]; intros w; simpl; [done|].
  destruct (f x w) as [w1 [r|e]]; [apply IH|done].
Qed.

(** A call pushes at most one task; its type is the type the handler object
    shows. *)
Lemma call_pushed_as h a w fn :
  Sound w -> sourceEvents w !! h = Some fn ->
  exists new, trace (call h a w).1 = trace w ++ new
    /\ Forall (pushed_as (pd_value (prop_type fn)) (store w)) new.
Proof.
  intros S Hfn. destruct (snd_handlers w S h fn Hfn) as [Hty _].
  rewrite Hty. simpl.
  destruct (plugin_of h w) as [plugin|] eqn:Hpl.
  - destruct (decide (concurrency (the_queue w) <= running (the_queue w))%Z).
    + rewrite (call_busy _ _ _ _ _ Hfn Hpl) by done. simpl. eexists. split; [done|].
      by repeat constructor.
    + rewrite (call_idle _ _ _ _ _ Hfn Hpl) by lia. simpl. eexists. split; [done|].
      by repeat constructor.
  - rewrite (call_unregistered _ _ _ _ Hfn Hpl). simpl. eexists. split; [done|].
    by repeat constructor.
Qed.

Lemma for_of_pushed_as name a hs w :
  Sound w ->
  exists new, trace (for_of (runEvent_step name a) hs w).1 = trace w ++ new
    /\ Forall (pushed_as name (store w)) new.
Proof.
  revert w. induction hs as [|h hs IH]; intros w S; simpl.
  { exists []. by rewrite app_nil_r. }
  assert (Hstep : exists new, trace (runEvent_step name a h w).1 = trace w ++ new
                    /\ Forall (pushed_as name (store w)) new
                    /\ store (runEvent_step name a h w).1 = store w).
  { unfold runEvent_step. destruct (sourceEvents w !! h) as [fn|] eqn:Hfn;
      [|exists []; by rewrite app_nil_r].
    case_decide as Hty; [|exists []; by rewrite app_nil_r].
    destruct (call_pushed_as h a w fn S Hfn) as (new & Ht & Hnew). rewrite Hty in Hnew.
    pose proof (call_store h a w) as Hs.
    exists new. destruct (call h a w) as [w1 [r|e]]; [|done]. simpl in *.
    by destruct (discard_cases r w1) as [->|[e ->]]. }
  destruct Hstep as (new1 & Ht1 & Hn1 & Hs1).
  pose proof (sound_runEvent_step name a h w S) as S1.
  destruct (runEvent_step name a h w) as [w1 [r|e]]; simpl in *; [|by exists new1].
  destruct (IH w1 S1) as (new2 & Ht2 & Hn2). exists (new1 ++ new2).
  rewrite Ht2, Ht1, app_assoc. split; [done|]. apply Forall_app. split; [done|].
  by rewrite <- Hs1.
Qed.

(** X6. The type a handler object shows is the type its closure captured,
    the one the queue uses for the task and for its token.  So every task
    that [runEvent] pushes for an event name has that name as its type and,
    run by a client at the top level, no parent. *)
Theorem X6_tasks_have_the_event_type w :
  reachable w ->
  (forall h fn, sourceEvents w !! h = Some fn -> type_of w h = Some (closure_type fn))
  /\ (forall hs name a,
        exists new, trace (runEvent hs name a w).1 = trace w ++ new
          /\ Forall (pushed_as name None) new).
Proof.
  intros R. pose proof (reachable_sound w R) as S.
  destruct (reachable_inv w R) as (_ & _ & _ & _ & Hst). split.
  - intros h fn Hfn. destruct (snd_handlers w S h fn Hfn) as [Hty _].
    unfold type_of. rewrite Hfn. simpl. by rewrite Hty.
  - intros hs name a. unfold runEvent, async_function.
    destruct (for_of_pushed_as name a hs w S) as (new & Ht & Hnew). rewrite Hst in Hnew.
    exists new. by destruct (for_of _ hs w) as [w1 [r|e]].
Qed.

(** X7. [runEvent] over handler objects none of which has the type of the
    event, an empty list included, calls nothing: all it does is to make the
    promise it answers with, fulfilled with undefined. *)
Theorem X7_run_event_without_match hs name a w :
  Forall (fun h => exists ty, type_of w h = Some ty /\ ty <> name) hs ->
  runEvent hs name a w = new_promise (Fulfilled JUndefined) w.
Proof.
  intros Hall. unfold runEvent, async_function.
  assert (Hloop : for_of (runEvent_step name a) hs w = (w, Normal tt)).
  { induction hs as [|h hs IH]; [done|].
    apply list.Forall_cons in Hall as [(ty & Hty & Hne) Hall]. simpl.
    unfold runEvent_step at 1. unfold type_of in Hty.
    destruct (sourceEvents w !! h) as [fn|]; [|done]. simpl in Hty. simplify_eq.
    rewrite decide_False by done. by apply IH. }
  by rewrite Hloop.
Qed.

(** X8. When the list holds handler objects up to an element that is not
    one ([undefined]), [runEvent] calls the matching handler objects before
    that element, visits nothing after it, and answers with a promise that
    is rejected with the [TypeError] of reading [type]. *)
Theorem X8_run_event_stops_at_undefined hs bad rest name a w :
  Forall (fun h => is_Some (sourceEvents w !! h)) hs ->
  sourceEvents w !! bad = None ->
  exists w' p new,
    runEvent (hs ++ bad :: rest) name a w = (w', p)
    /\ trace w' = trace w ++ new
    /\ calls new = (fun h => (h, a)) <$> filter (fun h => type_of w h = Some name) hs
    /\ promises w !! p = None
    /\ promises w' !! p = Some (Rejected not_a_handler).
Proof.
  intros Hall Hbad. unfold runEvent, async_function. rewrite for_of_app.
  destruct (runEvent_loop name a hs w Hall)
    as (w1 & new & -> & Ht & Hc & _ & _ & _ & Hl & Hs).
  simpl. unfold runEvent_step at 1. rewrite Hs, Hbad. simpl.
  exists (set_promises (promises w1 ++ [Rejected not_a_handler]) w1),
         (length (promises w1)), new.
  repeat split; try done.
  - apply lookup_ge_None_2. lia.
  - simpl. by apply list_lookup_middle.
Qed.

(** ** The turn of a job *)

(** A job that runs handler code starts it with the queue busy on its task. *)
Lemma job_body w j c :
  Inv w -> next_job w = Some j -> job_code j = Some c ->
  exists m tok,
    job_store j = Some tok
    /\ Base (code_world j w) m None /\ Body (code_world j w) m (job_entry j) tok
    /\ uncaught (code_world j w) = uncaught w
    /\ handler_stop j w = Some (run_code c (code_world j w)).2.
Proof.
  intros (m & owed & B & P & Hs) Hj Hc.
  unfold next_job in Hj. unfold job_code, code_world, handler_stop, job_entry in *.
  destruct P as [Hr Hw Hst -> Hmi Hma|t tok F Hst -> Hmi Hma|t tok k F Hst -> Hjob
                |Hr Hst -> Hmi Hma|t tok v F Hst -> Hmi Hma].
  - by rewrite Hmi, Hma in Hj.
  - rewrite Hmi, Hma in Hj. simplify_eq/=.
    destruct (job_world_base w m None {| job_store := Some tok; job_run := RunHandler t |} []
                B) as (B0 & Hq0 & Hp0 & Ht0 & Hs0); [by right|].
    set (ws := job_world _ w) in *. change (store ws = Some tok) in Hs0.
    assert (F0 : InFlight ws m t tok).
    { eapply inflight_kept; [exact F| | | | |]; try done.
      - by rewrite Hq0.
      - exists []. by rewrite app_nil_r.
      - exists []. by rewrite app_nil_r, Ht0.
      - exists []. by rewrite app_nil_r. }
    destruct (begin_body ws m t tok B0 F0 Hst) as [Bb Bdb]; try done.
    { unfold ws, job_world, dequeue. by rewrite Hmi. }
    { unfold ws, job_world, dequeue. rewrite Hmi. simpl. by rewrite Hma. }
    rewrite Hs0 in *. eexists _, tok. split; [done|]. split; [exact Bb|].
    split; [exact Bdb|]. split; [|done].
    unfold ws, job_world, dequeue. by rewrite Hmi.
  - assert (Hj' : j = {| job_store := Some tok; job_run := ResumeHandler t k |}).
    { destruct Hjob as [[Hmi Hma]|[Hmi Hma]]; rewrite Hmi, ?Hma in Hj; by simplify_eq/=. }
    subst j. simpl in *. simplify_eq.
    destruct (job_world_base w m None {| job_store := Some tok; job_run := ResumeHandler t c |} []
                B) as (B0 & Hq0 & Hp0 & Ht0 & Hs0); [tauto|].
    set (ws := job_world _ w) in *. change (store ws = Some tok) in Hs0.
    exists m, tok. split; [done|]. split; [exact B0|]. split; [|split; [|done]].
    + split; try done.
      * eapply inflight_kept; [exact F| | | | |]; try done.
        -- by rewrite Hq0.
        -- exists []. by rewrite app_nil_r.
        -- exists []. by rewrite app_nil_r, Ht0.
        -- exists []. by rewrite app_nil_r.
      * unfold ws, job_world, dequeue.
        destruct Hjob as [[Hmi Hma]|[Hmi Hma]]; by rewrite Hmi.
      * unfold ws, job_world, dequeue.
        destruct Hjob as [[Hmi Hma]|[Hmi Hma]]; rewrite Hmi; simpl; by rewrite Hma.
    + unfold ws, job_world, dequeue.
      destruct Hjob as [[Hmi Hma]|[Hmi Hma]]; by rewrite Hmi.
  - by rewrite Hmi, Hma in Hj.
  - rewrite Hmi in Hj. by simplify_eq/=.
Qed.

(** The same, after the code has run up to where it stops. *)
Lemma job_stop w j c :
  Inv w -> next_job w = Some j -> job_code j = Some c ->
  exists m tok,
    job_store j = Some tok
    /\ Base (run_code c (code_world j w)).1 m None
    /\ Body (run_code c (code_world j w)).1 m (job_entry j) tok
    /\ handler_stop j w = Some (run_code c (code_world j w)).2.
Proof.
  intros I Hj Hc. destruct (job_body w j c I Hj Hc) as (m & tok & Hs & B & Bd & Hu & Hstop).
  destruct (run_code_quiet c _ m None B (body_busy _ _ _ _ B Bd)) as (m1 & B1 & Q1).
  exists m1, tok. split; [done|]. split; [exact B1|].
  split; [by eapply body_quietly|done].
Qed.

(** What the turn of a job that runs handler code comes to. *)
Lemma tick_code w j c :
  next_job w = Some j -> job_code j = Some c ->
  tick w =
    match run_code c (code_world j w), job_run j with
    | (w1, Finished v), RunHandler t =>
      if is_async (task_handler (value t))
      then set_store None (promise_settles t (Normal v) w1)
      else if truthy (get "then" v)
      then set_store None (unhandled not_callable w1)
      else let '(w2, r) := worked worker push_callback t None v
                             (log (EvReturn (callback t) v) w1) in
           set_store None match r with Normal _ => w2 | Abrupt e => unhandled e w2 end
    | (w1, Raised e), RunHandler t =>
      if is_async (task_handler (value t))
      then set_store None (promise_settles t (Abrupt e) w1)
      else set_store None (unhandled e (log (EvFail (callback t) e) w1))
    | (w1, Finished v), _ => set_store None (promise_settles (job_entry j) (Normal v) w1)
    | (w1, Raised e), _ => set_store None (promise_settles (job_entry j) (Abrupt e) w1)
    | (w1, Suspended q k), _ => set_store None (schedule q (ResumeHandler (job_entry j) k) w1)
    | (w1, Hung), _ => set_store None w1
    end.
Proof.
  intros Hj Hc. rewrite (tick_dequeue _ _ Hj). unfold run_job.
  change (set_store (job_store j) (dequeue w)) with (job_world j w).
  unfold job_code, code_world, job_entry in *.
  destruct (job_run j) as [t|t k|t v]; simplify_eq/=.
  - unfold run_handler. simpl.
    destruct (run_code _ _) as [w1 [v|e|q k'|]]; simpl; try done.
    + destruct (is_async _); [done|]. simpl.
      destruct (truthy (get "then" v)); [done|]. by destruct (worked _ _ _ _ _ _).
    + by destruct (is_async _).
  - unfold resume_handler. by destruct (run_code _ _) as [w1 [v|e|q k'|]].
Qed.

(** ** A handler whose promise never settles *)

(** X4. A handler that waits for something that never happens blocks the
    queue for good: whatever the clients do afterwards, the promise of its
    task stays pending, the queue keeps its only slot taken and no handler
    of any task begins or completes.  The queue has no timeout. *)
Theorem X4_pending_handler_blocks_queue w j :
  reachable w -> next_job w = Some j -> handler_stop j w = Some Hung ->
  forall ops,
       promises (exec ops (tick w)) !! callback (job_entry j) = Some Pending
       /\ running (the_queue (exec ops (tick w))) = 1%Z
       /\ begins (trace (exec ops (tick w))) = begins (trace (tick w))
       /\ completions (trace (exec ops (tick w))) = completions (trace (tick w)).
Proof.
  intros I%reachable_inv Hj Hstop.
  assert (Hc : exists c, job_code j = Some c).
  { unfold handler_stop, job_code in *. destruct (job_run j); eauto. discriminate. }
  destruct Hc as [c Hc].
  destruct (job_stop w j c I Hj Hc) as (m & tok & Hs & B & Bd & Hstop').
  pose proof (tick_code w j c Hj Hc) as Ht.
  rewrite Hstop in Hstop'. destruct (run_code c (code_world j w)) as [w1 stop].
  simpl in *. simplify_eq.
  assert (Ht' : tick w = set_store None w1) by (rewrite Ht; by destruct (job_run j)).
  rewrite Ht'. intros ops.
  assert (Hh : halted (callback (job_entry j)) (set_store None w1)).
  { by apply (body_halted w1 m (job_entry j) tok). }
  destruct (halted_exec (callback (job_entry j)) (begins (trace (set_store None w1)))
              (completions (trace (set_store None w1))) ops (set_store None w1))
    as ((_ & Hr & _ & _ & Hp) & Hb & Hd); done.
Qed.

(** ** A task that completes frees the queue *)







(** ** Promises are fulfilled in the order of the calls *)

(** X11. The promises of the tasks are fulfilled in the order the tasks
    were pushed: when the promise of a task is fulfilled, so is the promise
    of every task pushed before it. *)
Theorem X11_futures_fulfilled_in_order w i j p q v :
  reachable w -> i < j ->
  pushes (trace w) !! i = Some p -> pushes (trace w) !! j = Some q ->
  promises w !! q = Some (Fulfilled v) ->
  exists u, promises w !! p = Some (Fulfilled u).
Proof.
  intros R Hij Hi Hj Hq. pose proof (reachable_sound w R) as S.
  destruct (reachable_inv w R) as (m & owed & B & P & _).
  pose proof (monitor_accepted _ _ (base_monitor _ _ _ B)) as A.
  assert (Hjd : j < m_done m).
  { destruct (snd_settled w S q _ (list_elem_of_lookup_2 _ _ _ Hj) Hq)
      as [|(v' & e & _ & He & Hc)]; [done|].
    assert (Hin : q ∈ completions (trace w)).
    { unfold completions. apply list_elem_of_omap. exists e. split; [done|].
      destruct e; simpl in *; by simplify_eq. }
    rewrite (acc_completions _ _ A) in Hin.
    apply list_elem_of_lookup in Hin as [n Hn].
    apply lookup_take_Some in Hn as [Hn Hlt].
    by rewrite (NoDup_lookup _ _ _ _ (acc_nodup _ _ A) Hj Hn). }
  assert (Hin : p ∈ completions (trace w)).
  { rewrite (acc_completions _ _ A). apply list_elem_of_lookup. exists i.
    apply lookup_take_Some. split; [done|lia]. }
  unfold completions in Hin. apply list_elem_of_omap in Hin as (e & He & Hc).
  assert (Hcw : exists u, completed_with e = Some (p, u)).
  { destruct e; simpl in *; simplify_eq; eauto. }
  destruct Hcw as [u Hcw]. exists u.
  destruct (base_done _ _ _ B e p u He Hcw) as [|Howed]; [done|].
  destruct (phase_owed w m owed P) as [->|(t & tok & v0 & -> & F & Hst & _)]; [done|].
  simplify_eq. simpl in Hcw. simplify_eq.
  destruct F as [_ (n & Hn & Hp) _ _]. unfold started in Hn. rewrite Hst in Hn.
  rewrite (acc_pushes _ _ A) in Hp.
  pose proof (NoDup_lookup _ _ _ _ (acc_nodup _ _ A) Hi Hp). lia.
Qed.

(** ** The further theorems on the example clients *)

Lemma X1_witness :
  reachable w_run
  /\ 2 ∈ pushes (trace w_run)
  /\ (promises w_run !! 2 = Some Pending
      \/ exists v, promises w_run !! 2 = Some (Fulfilled v)
           /\ (EvReturn 2 v ∈ trace w_run \/ EvResolve 2 v ∈ trace w_run)).
Proof.
  assert (R : reachable w_run) by (exists uuid0, ops_run; reflexivity).
  assert (H : 2 ∈ pushes (trace w_run)).
  { apply (bool_decide_unpack _). vm_compute. exact I. }
  split; [exact R|]. split; [exact H|].
  exact (X1_task_future_never_rejected w_run 2 R H).
Defined.



Lemma X4_witness :
  reachable w_wait
  /\ next_job w_wait = Some j_wait
  /\ handler_stop j_wait w_wait = Some Hung
  /\ forall ops,
       promises (exec ops (tick w_wait)) !! callback (job_entry j_wait) = Some Pending
       /\ running (the_queue (exec ops (tick w_wait))) = 1%Z
       /\ begins (trace (exec ops (tick w_wait))) = begins (trace (tick w_wait))
       /\ completions (trace (exec ops (tick w_wait))) = completions (trace (tick w_wait)).
Proof.
  assert (R : reachable w_wait) by (exists uuid0, ops_wait; reflexivity).
  assert (J : next_job w_wait = Some j_wait) by (vm_compute; reflexivity).
  assert (S : handler_stop j_wait w_wait = Some Hung) by (vm_compute; reflexivity).
  split; [exact R|]. split; [exact J|]. split; [exact S|].
  exact (X4_pending_handler_blocks_queue w_wait j_wait R J S).
Defined.

Lemma X5_witness :
  reachable w_run
  /\ trace w_run !! 6 = Some (EvPush 2 "B" (Some (token "C" (uuid0 0))))
  /\ exists k q, k < 6 /\ trace w_run !! k = Some (EvWorker q (token "C" (uuid0 0)))
       /\ q <> 2.
Proof.
  assert (R : reachable w_run) by (exists uuid0, ops_run; reflexivity).
  assert (H : trace w_run !! 6 = Some (EvPush 2 "B" (Some (token "C" (uuid0 0)))))
    by (vm_compute; reflexivity).
  split; [exact R|]. split; [exact H|].
  exact (X5_parent_is_an_earlier_task w_run 6 2 "B" (token "C" (uuid0 0)) R H).
Defined.

Lemma X6_witness :
  reachable w_setup
  /\ (forall h fn, sourceEvents w_setup !! h = Some fn ->
        type_of w_setup h = Some (closure_type fn))
  /\ (forall hs name a,
        exists new, trace (runEvent hs name a w_setup).1 = trace w_setup ++ new
          /\ Forall (pushed_as name None) new).
Proof.
  assert (R : reachable w_setup) by (exists uuid0, ops_setup; reflexivity).
  split; [exact R|]. exact (X6_tasks_have_the_event_type w_setup R).
Defined.

Lemma X7_witness :
  Forall (fun h => exists ty, type_of w_setup h = Some ty /\ ty <> "A") [1; 2]
  /\ runEvent [1; 2] "A" JNull w_setup = new_promise (Fulfilled JUndefined) w_setup.
Proof.
  assert (H : Forall (fun h => exists ty, type_of w_setup h = Some ty /\ ty <> "A") [1; 2]).
  { repeat constructor; eexists; (split; [vm_compute; reflexivity|discriminate]). }
  split; [exact H|]. exact (X7_run_event_without_match [1; 2] "A" JNull w_setup H).
Defined.

Lemma X8_witness :
  Forall (fun h => is_Some (sourceEvents w_setup !! h)) [0; 1]
  /\ sourceEvents w_setup !! 7 = None
  /\ exists w' p new,
       runEvent ([0; 1] ++ 7 :: [3]) "A" JNull w_setup = (w', p)
       /\ trace w' = trace w_setup ++ new
       /\ calls new = (fun h => (h, JNull)) <$>
            filter (fun h => type_of w_setup h = Some "A") [0; 1]
       /\ promises w_setup !! p = None
       /\ promises w' !! p = Some (Rejected not_a_handler).
Proof.
  assert (H : Forall (fun h => is_Some (sourceEvents w_setup !! h)) [0; 1]).
  { repeat constructor; vm_compute; eexists; reflexivity. }
  assert (N : sourceEvents w_setup !! 7 = None) by (vm_compute; reflexivity).
  split; [exact H|]. split; [exact N|].
  exact (X8_run_event_stops_at_undefined [0; 1] 7 [3] "A" JNull w_setup H N).
Defined.

Lemma X9_witness :
  reachable w_unregistered
  /\ pushes (trace w_unregistered) = []
  /\ eventSystemQueue w_unregistered = None /\ asyncStorage w_unregistered = None
  /\ reachable w_first
  /\ pushes (trace w_first) <> []
  /\ eventSystemQueue w_first <> None /\ asyncStorage w_first <> None.
Proof.
  assert (R0 : reachable w_unregistered) by (exists uuid0, ops_unregistered; reflexivity).
  assert (P0 : pushes (trace w_unregistered) = []) by (vm_compute; reflexivity).
  assert (R1 : reachable w_first) by (exists uuid0, ops_first; reflexivity).
  assert (P1 : pushes (trace w_first) <> []) by (vm_compute; discriminate).
  destruct (X9_singletons_on_first_push w_unregistered R0) as [Hq0 Hs0].
  destruct (X9_singletons_on_first_push w_first R1) as [Hq1 Hs1].
  split; [exact R0|]. split; [exact P0|].
  split; [exact (proj2 Hq0 P0)|]. split; [exact (proj2 Hs0 P0)|].
  split; [exact R1|]. split; [exact P1|].
  split; [exact (fun H => P1 (proj1 Hq1 H))|exact (fun H => P1 (proj1 Hs1 H))].
Defined.

Lemma X11_witness :
  reachable w_run
  /\ 0 < 1
  /\ pushes (trace w_run) !! 0 = Some 0
  /\ pushes (trace w_run) !! 1 = Some 1
  /\ promises w_run !! 1 = Some (Fulfilled (JNum 1))
  /\ exists u, promises w_run !! 0 = Some (Fulfilled u).
Proof.
  assert (R : reachable w_run) by (exists uuid0, ops_run; reflexivity).
  assert (H0 : pushes (trace w_run) !! 0 = Some 0) by (vm_compute; reflexivity).
  assert (H1 : pushes (trace w_run) !! 1 = Some 1) by (vm_compute; reflexivity).
  assert (Hq : promises w_run !! 1 = Some (Fulfilled (JNum 1))) by (vm_compute; reflexivity).
  split; [exact R|]. split; [lia|]. split; [exact H0|]. split; [exact H1|].
  split; [exact Hq|].
  exact (X11_futures_fulfilled_in_order w_run 0 1 0 1 (JNum 1) R (Nat.lt_0_1) H0 H1 Hq).
Defined.
